(** * python-pfam: the response transformation pipeline of [pfam/__init__.py]

    A shallow embedding of the Pfam client: the scalar and tree normalizers,
    the transport envelope [request], the entity mappers ([PfamFamily],
    [PfamProtein], ...) and the query facade ([family], [families],
    [proteins], ...), followed by the properties established about them.

    Conventions of the embedding.
    - A Python [str] is a Rocq [string]; a character is one of the 256 code
      points of [ascii] (the Latin-1 range of Unicode).
    - A Python [float] is an IEEE-754 binary64 value, [spec_float] with
      [prec = 53] and [emax = 1024].
    - Python values are the inductive [val]; an instance of a class of the
      module is [VObj cls attrs], its [__dict__] being the finite map
      [attrs]; [setattr(self, el.tag, el.text)] inserts into it, under any
      name but the three that an instance cannot rebind to a text.
    - Code that raises returns [Raise e]; code that talks to the network or
      mutates a dictionary shared with its caller lives in the monad [M]. *)

From Stdlib Require Import ZArith String Ascii List Bool Lia.
From Stdlib Require Import Floats.SpecFloat.
From stdpp Require Import gmap strings list fin_maps.

Set Warnings "-register-all".

Open Scope string_scope.
Open Scope Z_scope.

(** ** Python strings *)

Definition code (a : ascii) : Z := Z.of_N (N_of_ascii a).

(** [str.isspace] on one character, restricted to code points below 256:
    TAB..CR, FS..US, SPACE, NEL and NBSP. *)
Definition py_isspace (a : ascii) : bool :=
  let c := code a in
  ((9 <=? c) && (c <=? 13)) || ((28 <=? c) && (c <=? 32))
  || (c =? 133) || (c =? 160).

Definition is_digit (a : ascii) : bool :=
  let c := code a in (48 <=? c) && (c <=? 57).

Definition digit_val (a : ascii) : Z := code a - 48.

Definition is_char (c : ascii) (a : ascii) : bool := Ascii.eqb a c.

(** [s.lstrip(chars)] and [s.rstrip(chars)], the character set given as a
    predicate. *)
Fixpoint str_lstrip (P : ascii -> bool) (s : string) : string :=
  match s with
  | EmptyString => EmptyString
  | String a s' => if P a then str_lstrip P s' else s
  end.

Fixpoint str_rstrip (P : ascii -> bool) (s : string) : string :=
  match s with
  | EmptyString => EmptyString
  | String a s' =>
      match str_rstrip P s' with
      | EmptyString => if P a then EmptyString else String a EmptyString
      | r => String a r
      end
  end.

(** [s.strip()] *)
Definition str_strip (s : string) : string :=
  str_rstrip py_isspace (str_lstrip py_isspace s).

Fixpoint str_startswith (p s : string) : bool :=
  match p, s with
  | EmptyString, _ => true
  | String a p', String b s' => Ascii.eqb a b && str_startswith p' s'
  | String _ _, EmptyString => false
  end.

Fixpoint str_rev_app (acc : list ascii) (s : string) : string :=
  match acc with
  | [] => s
  | a :: acc' => str_rev_app acc' (String a s)
  end.

(** [s.split(sep)] for a non-empty separator: the text is cut at the
    leftmost occurrences of [sep], scanning left to right without overlap.
    [skip] counts the characters of a separator still to be passed over and
    [cur] holds the field being read, last character first. *)
Fixpoint split_go (sep : string) (s : string) (skip : nat) (cur : list ascii)
  : list string :=
  match s with
  | EmptyString => [str_rev_app cur EmptyString]
  | String a s' =>
      match skip with
      | S k => split_go sep s' k cur
      | O =>
          if str_startswith sep s
          then str_rev_app cur EmptyString
                 :: split_go sep s' (Nat.pred (String.length sep)) []
          else split_go sep s' O (a :: cur)
      end
  end.

Definition str_split (sep : string) (s : string) : list string :=
  split_go sep s O [].

(** Line boundaries of [str.splitlines]: LF, VT, FF, CR, FS, GS, RS, NEL. *)
Definition is_linebreak (a : ascii) : bool :=
  let c := code a in
  ((10 <=? c) && (c <=? 13)) || ((28 <=? c) && (c <=? 30)) || (c =? 133).

(** [s.splitlines()]: a line ends at a boundary character (CR LF counting
    as one); the boundary is dropped and a final boundary opens no line. *)
Fixpoint splitlines_go (s : string) (cur : list ascii) : list string :=
  match s with
  | EmptyString =>
      match cur with
      | [] => []
      | _ => [str_rev_app cur EmptyString]
      end
  | String a s' =>
      if is_linebreak a then
        str_rev_app cur EmptyString ::
          match s' with
          | String b s'' =>
              if (code a =? 13) && (code b =? 10)
              then splitlines_go s'' []
              else splitlines_go s' []
          | EmptyString => splitlines_go s' []
          end
      else splitlines_go s' (a :: cur)
  end.

Definition str_splitlines (s : string) : list string := splitlines_go s [].

(** ASCII lower-casing, as used by the case-insensitive literals of
    [float]. *)
Definition ascii_lower (a : ascii) : ascii :=
  let c := code a in
  if (65 <=? c) && (c <=? 90) then ascii_of_N (Z.to_N (c + 32)) else a.

Fixpoint str_lower (s : string) : string :=
  match s with
  | EmptyString => EmptyString
  | String a s' => String (ascii_lower a) (str_lower s')
  end.

(** ** Python floats: the builtin [float(str)] *)

Definition float := spec_float.

Definition f_prec : Z := 53.
Definition f_emax : Z := 1024.

(** The binary64 value nearest to the integer [n] (ties to even). *)
Definition float_of_Z (n : Z) : float := binary_normalize f_prec f_emax n 0 false.

(** The binary64 value nearest to [m * 10 ^ e10], with the sign [neg]:
    an exact integer is rounded once, a fraction is rounded once from the
    exact quotient. *)
Definition float_of_decimal (neg : bool) (m : Z) (e10 : Z) : float :=
  match m with
  | Z0 => S754_zero neg
  | Zpos p =>
      if 0 <=? e10
      then binary_normalize f_prec f_emax (cond_Zopp neg (m * 10 ^ e10)) 0 false
      else SFdiv f_prec f_emax (S754_finite neg p 0)
             (S754_finite false (Z.to_pos (10 ^ (- e10))) 0)
  | Zneg _ => S754_nan
  end.

(** Underscores in a numeric literal: each must stand between two digits;
    they are removed before the number is read. *)
Fixpoint strip_underscores (prev : ascii) (s : string) : option string :=
  match s with
  | EmptyString => if is_char "_" prev then None else Some EmptyString
  | String c s' =>
      if is_char "_" c then
        if is_digit prev then strip_underscores c s' else None
      else
        if is_char "_" prev && negb (is_digit c) then None
        else String c <$> strip_underscores c s'
  end.

(** The longest prefix of digits: its value continuing from [acc], the
    number of digits read, and the rest of the text. *)
Fixpoint span_digits (s : string) (acc : Z) (n : Z) : Z * Z * string :=
  match s with
  | String a s' =>
      if is_digit a then span_digits s' (acc * 10 + digit_val a) (n + 1)
      else (acc, n, s)
  | EmptyString => (acc, n, s)
  end.

Definition parse_sign (s : string) : bool * string :=
  match s with
  | String a s' =>
      if is_char "-" a then (true, s')
      else if is_char "+" a then (false, s')
      else (false, s)
  | EmptyString => (false, s)
  end.

(** The exponent part [(e|E) [sign] digit+], which must end the text. *)
Definition parse_exponent (s : string) : option Z :=
  match s with
  | EmptyString => Some 0
  | String a s' =>
      if is_char "e" (ascii_lower a) then
        let '(neg, s1) := parse_sign s' in
        let '(v, n, rest) := span_digits s1 0 0 in
        if (0 <? n) && String.eqb rest EmptyString
        then Some (cond_Zopp neg v) else None
      else None
  end.

(** [[sign] (digit* [. digit*]) [exponent]] with at least one digit in the
    mantissa, or [[sign] (inf | infinity | nan)] in any letter case. *)
Definition parse_float (s : string) : option float :=
  let '(neg, body) := parse_sign s in
  let low := str_lower body in
  if String.eqb low "inf" || String.eqb low "infinity" then Some (S754_infinity neg)
  else if String.eqb low "nan" then Some S754_nan
  else
    let '(ip, n1, r1) := span_digits body 0 0 in
    let '(m, n2, r2) :=
      match r1 with
      | String a r =>
          if is_char "." a then span_digits r ip 0 else (ip, 0, r1)
      | EmptyString => (ip, 0, r1)
      end in
    if 0 <? n1 + n2 then
      match parse_exponent r2 with
      | Some e => Some (float_of_decimal neg m (e - n2))
      | None => None
      end
    else None.

(** [float(s)] for a string [s]: [Some f] when the text, surrounding white
    space apart, is a float literal, [None] where Python raises
    [ValueError]. *)
Definition py_float (s : string) : option float :=
  match strip_underscores zero (str_strip s) with
  | Some t => parse_float t
  | None => None
  end.

(** ** Python values *)

Inductive val : Type :=
  | VNone
  | VFloat (f : float)
  | VStr (s : string)
  | VList (l : list val)
  | VDict (d : gmap string val)
  | VDatetime (year month day : Z)
  | VObj (cls : string) (attrs : gmap string val).

Abbreviation dict := (gmap string val).

(** ** The scalar normalizer *)

Definition xml_process_value (value : val) : val :=
  match value with
  | VNone => VNone
  | VStr s =>
      let value := str_strip s in
      if String.eqb value EmptyString then VNone
      else match py_float value with
           | Some f => VFloat f
           | None => VStr value
           end
  | _ => value
  end.

(** ** XML elements ([xml.etree.ElementTree.Element]) *)

Inductive Element : Type :=
  mkElement (tag : string) (attrib : gmap string val) (text : val)
            (tail : val) (children : list Element).

Definition tag (e : Element) : string := let 'mkElement t _ _ _ _ := e in t.
Definition attrib (e : Element) : dict := let 'mkElement _ a _ _ _ := e in a.
Definition text (e : Element) : val := let 'mkElement _ _ x _ _ := e in x.
Definition tail (e : Element) : val := let 'mkElement _ _ _ x _ := e in x.
Definition children (e : Element) : list Element :=
  let 'mkElement _ _ _ _ c := e in c.

(** [element.get(key)] *)
Definition Element_get (e : Element) (key : string) : val :=
  default VNone (attrib e !! key).

(** [element.find(name)] for a plain tag name: the first child so tagged. *)
Definition Element_find (e : Element) (name : string) : option Element :=
  List.find (fun c => String.eqb (tag c) name) (children e).

(** ** The tree normalizer *)

(** [for name in el.attrib: el.attrib[name] = xml_process_value(el.attrib[name])] *)
Definition process_attrib (a : dict) : dict :=
  foldl (fun d name => alter xml_process_value name d) a (map_to_list a).*1.

(** [element.iter()] yields the element, then the elements of each child's
    subtree in turn; the loop body rewrites the text and the attributes of
    the element it is given and nothing else. *)
Fixpoint xml_process_tree (element : Element) : Element :=
  let 'mkElement t a x tl c := element in
  mkElement t (process_attrib a) (xml_process_value x) tl
            (List.map xml_process_tree c).

(** ** Exceptions and results *)

Inductive exn : Type :=
  | HTTPError (status : Z)          (* [response.raise_for_status()] *)
  | RequestException                (* raised inside [requests.get] *)
  | ParseError                      (* [ElementTree.fromstring] *)
  | Exception_ (arg : val)          (* [raise Exception(root.text)] *)
  | TypeError
  | AttributeError
  | ValueError
  | IndexError
  | KeyError
  | DanglingRef.                    (* a reference to no object: not reachable from Python *)

Inductive res (A : Type) : Type :=
  | Ok (a : A)
  | Raise (e : exn).
Arguments Ok {A} a.
Arguments Raise {A} e.

#[global] Instance res_ret : MRet res := fun A a => Ok a.
#[global] Instance res_bind : MBind res := fun A B f m =>
  match m with
  | Ok a => f a
  | Raise e => Raise e
  end.

(** A loop [for x in l: body] whose body may raise. *)
Fixpoint for_each {A B : Type} (body : A -> B -> res A) (acc : A) (l : list B)
  : res A :=
  match l with
  | [] => Ok acc
  | x :: l' => acc' ← body acc x; for_each body acc' l'
  end.

(** ** The state of a run: shared dictionaries and the calls made *)

(** A [requests.Response], as far as the client reads it. *)
Record Response : Type := mkResponse {
  status_code : Z;
  response_text : string
}.

Inductive event : Type :=
  | EvGet (url : string) (params : dict) (headers timeout : val)
  | EvProcessTree.

(** Dictionaries that outlive a call are objects of the heap, named by their
    index; [trace] lists the network requests issued and the runs of the
    tree normalizer, oldest first. *)
Record state : Type := mkState {
  heap : list dict;
  trace : list event
}.

Definition M (A : Type) : Type := state -> res A * state.

#[global] Instance M_ret : MRet M := fun A a σ => (Ok a, σ).
#[global] Instance M_bind : MBind M := fun A B f m σ =>
  match m σ with
  | (Ok a, σ') => f a σ'
  | (Raise e, σ') => (Raise e, σ')
  end.

Definition raise {A : Type} (e : exn) : M A := fun σ => (Raise e, σ).

Definition lift {A : Type} (r : res A) : M A := fun σ => (r, σ).

Definition log (ev : event) : M unit :=
  fun σ => (Ok tt, mkState (heap σ) (trace σ ++ [ev])).

(** A dictionary literal: a new object. *)
Definition dict_new (d : dict) : M nat :=
  fun σ => (Ok (length (heap σ)), mkState (heap σ ++ [d]) (trace σ)).

(** [d.setdefault(key, value)], the value returned being unused. *)
Definition dict_setdefault (l : nat) (key : string) (value : val) : M unit :=
  fun σ => match heap σ !! l with
           | Some d =>
               match d !! key with
               | Some _ => (Ok tt, σ)
               | None => (Ok tt, mkState (<[l := <[key := value]> d]> (heap σ)) (trace σ))
               end
           | None => (Raise DanglingRef, σ)
           end.

(** [d[key]] *)
Definition dict_getitem (l : nat) (key : string) : M val :=
  fun σ => match heap σ !! l with
           | Some d =>
               match d !! key with
               | Some v => (Ok v, σ)
               | None => (Raise KeyError, σ)
               end
           | None => (Raise DanglingRef, σ)
           end.

(** [v == s] for a string literal [s]. *)
Definition val_eq_str (v : val) (s : string) : bool :=
  match v with
  | VStr s' => String.eqb s' s
  | _ => false
  end.

(** ** The substitution [re.sub] of [request]

    The pattern is a space, [xmlns=], a double quote, one or more characters
    other than a double quote, and a double quote; [count=1]. *)

Definition dquote : ascii := "034"%char.

Fixpoint str_strip_prefix (p s : string) : option string :=
  match p, s with
  | EmptyString, _ => Some s
  | String a p', String b s' =>
      if Ascii.eqb a b then str_strip_prefix p' s' else None
  | String _ _, EmptyString => None
  end.

(** One or more characters other than the quote, then the quote, at the head
    of [s]; [seen] tells whether a character has been read. The text after
    the closing quote is returned. *)
Fixpoint match_until_quote (s : string) (seen : bool) : option string :=
  match s with
  | EmptyString => None
  | String a s' =>
      if is_char dquote a then (if seen then Some s' else None)
      else match_until_quote s' true
  end.

Definition match_xmlns (s : string) : option string :=
  match str_strip_prefix (" xmlns=" ++ String dquote EmptyString) s with
  | Some r => match_until_quote r false
  | None => None
  end.

(** The leftmost match is removed, and only that one. *)
Fixpoint re_sub_xmlns (s : string) : string :=
  match match_xmlns s with
  | Some rest => rest
  | None =>
      match s with
      | EmptyString => EmptyString
      | String a s' => String a (re_sub_xmlns s')
      end
  end.

(** ** The transport envelope *)

(** The module-level dictionary that is the default value of [params]; it is
    created once, when [request] is defined. *)
Definition default_params : nat := 0%nat.

Definition initial_state : state := mkState [∅] [].

(** The outside world: the server's answer to [requests.get(url, params,
    headers, timeout)], which may depend on the requests made so far, and
    the XML parser [ElementTree.fromstring] ([None] where it raises
    [ParseError]). *)
Record World : Type := mkWorld {
  requests_get : list event -> string -> dict -> val -> val -> res Response;
  fromstring : string -> option Element
}.

Section Pfam.

Variable w : World.

Definition requests_get_ (url : string) (params : nat) (headers timeout : val)
  : M Response :=
  fun σ =>
    match heap σ !! params with
    | Some d =>
        (requests_get w (trace σ) url d headers timeout,
         mkState (heap σ) (trace σ ++ [EvGet url d headers timeout]))
    | None => (Raise DanglingRef, σ)
    end.

(** [response.raise_for_status()]: client and server errors raise. *)
Definition raise_for_status (response : Response) : M unit :=
  if (400 <=? status_code response) && (status_code response <? 600)
  then raise (HTTPError (status_code response))
  else mret tt.

Definition ElementTree_fromstring (xml : string) : M Element :=
  match fromstring w xml with
  | Some root => mret root
  | None => raise ParseError
  end.

Definition request (path : string) (params : option nat) (headers timeout : val)
  : M (Element + string) :=
  let params := default default_params params in
  (* Default value for option 'output' *)
  dict_setdefault params "output" (VStr "xml");;
  (* Compose the url *)
  let url := "https://pfam.xfam.org" ++ path in
  (* Make the request to pfam *)
  response ← requests_get_ url params headers timeout;
  (* Throw an exception if HTTP status is not ok *)
  raise_for_status response;;
  output ← dict_getitem params "output";
  (* If the output is an XML file, parse it *)
  if val_eq_str output "xml" then
    (* Remove the namespace from the xml *)
    let xml := re_sub_xmlns (response_text response) in
    (* Parse the XML and create the root element *)
    root ← ElementTree_fromstring xml;
    (* Check if is an error *)
    if String.eqb (tag root) "error" then raise (Exception_ (text root))
    else
      (* Process all values in the XML tree *)
      log EvProcessTree;;
      mret (inl (xml_process_tree root))
  else
    (* Return the response as text *)
    mret (inr (response_text response)).

(** ** The entity mapper *)

(** [obj.name] *)
Definition getattr (obj : val) (name : string) : res val :=
  match obj with
  | VObj _ attrs =>
      match attrs !! name with
      | Some v => Ok v
      | None => Raise AttributeError
      end
  | _ => Raise AttributeError
  end.

(** [setattr(self, name, value)] on an instance of a class of the module,
    for a [value] that is a text: [None], a number or a string. The
    attribute goes into the [__dict__] of the instance under any name but
    three: [__class__] takes a class and [__dict__] a dictionary, so that a
    text raises [TypeError], and [__weakref__] is not writable, which
    raises [AttributeError]. *)
Definition setattr (self : dict) (name : string) (value : val) : res dict :=
  if String.eqb name "__class__" || String.eqb name "__dict__" then Raise TypeError
  else if String.eqb name "__weakref__" then Raise AttributeError
  else Ok (<[name := value]> self).

(** The attribute lookup of a method call [self.name()], for a method of
    the class of [self]: an instance attribute of that name, as [setattr]
    may have stored one, shadows the method, and what it holds is not
    callable. *)
Definition method_lookup (self : val) (name : string) : res unit :=
  match self with
  | VObj _ attrs =>
      match attrs !! name with
      | Some _ => Raise TypeError
      | None => Ok tt
      end
  | _ => Ok tt
  end.

(** [el.find(name).text] *)
Definition find_text (el : Element) (name : string) : res val :=
  match Element_find el name with
  | Some c => Ok (text c)
  | None => Raise AttributeError
  end.

Definition tag_is (el : Element) (name : string) : bool :=
  String.eqb (tag el) name.

Definition PfamEntry (type id accession description : val) : val :=
  VObj "PfamEntry"
    (list_to_map [("id", id); ("accession", accession);
                  ("description", description); ("type", type)]).

Definition PfarmGOTerm (id category text : val) : val :=
  VObj "PfarmGOTerm"
    (list_to_map [("id", id); ("category", category); ("text", text)]).

Definition PfamCurationDetails_body (self : dict) (el : Element) : res dict :=
  (* A special parsing for <num_seqs> tag *)
  if tag_is el "num_seqs" then
    seed ← find_text el "seed";
    full ← find_text el "full";
    mret (<["num_seqs_full" := full]> (<["num_seqs_seed" := seed]> self))
  (* Set an attribute of this object using the text content of the element as value *)
  else setattr self (tag el) (text el).

Definition PfamCurationDetails (element : Element) : res val :=
  let self : dict :=
    list_to_map [("status", VNone); ("seed_source", VNone);
                 ("num_archs", VNone); ("num_species", VNone);
                 ("num_structures", VNone); ("percentage_identity", VNone);
                 ("av_length", VNone); ("av_coverage", VNone);
                 ("type", VNone)] in
  self ← for_each PfamCurationDetails_body self (children element);
  mret (VObj "PfamCurationDetails" self).

Definition PfamCutoff (sequence domain : val) : val :=
  VObj "PfamCutoff" (list_to_map [("sequence", sequence); ("domain", domain)]).

(** [self.cutoffs[cutoff.tag] = PfamCutoff(...)] *)
Definition PfamHmmDetails_cutoff (self : dict) (cutoff : Element) : res dict :=
  sequence ← find_text cutoff "sequence";
  domain ← find_text cutoff "domain";
  match self !! "cutoffs" with
  | Some (VDict cutoffs) =>
      mret (<["cutoffs" := VDict (<[tag cutoff := PfamCutoff sequence domain]> cutoffs)]> self)
  | Some _ => Raise TypeError
  | None => Raise AttributeError
  end.

Definition PfamHmmDetails_body (self : dict) (el : Element) : res dict :=
  (* A special parsing for <cutoffs> tag *)
  if tag_is el "cutoffs" then for_each PfamHmmDetails_cutoff self (children el)
  else setattr self (tag el) (text el).

Definition PfamHmmDetails (element : Element) : res val :=
  let self : dict :=
    list_to_map [("hmmer_version", Element_get element "hmmer_version");
                 ("model_version", Element_get element "model_version");
                 ("model_length", Element_get element "model_length");
                 ("build_commands", VNone); ("search_commands", VNone);
                 ("cutoffs", VDict ∅)] in
  self ← for_each PfamHmmDetails_body self (children element);
  mret (VObj "PfamHmmDetails" self).

(** The terms of one category of [<go_terms>]. *)
Definition go_terms_of (cat : Element) : list val :=
  let category := Element_get cat "name" in
  List.map (fun term => PfarmGOTerm (Element_get term "go_id") category (text term))
           (children cat).

Definition PfamFamily_body (self : dict) (el : Element) : res dict :=
  if tag_is el "curation_details" then
    o ← PfamCurationDetails el; mret (<["curation_details" := o]> self)
  else if tag_is el "hmm_details" then
    o ← PfamHmmDetails el; mret (<["hmm_details" := o]> self)
  else if tag_is el "clan_membership" then
    mret (<["clan" := PfamEntry (VStr "Clan") (Element_get el "clan_id")
                        (Element_get el "clan_acc") VNone]> self)
  else if tag_is el "go_terms" then
    mret (<["go_terms" := VList (List.concat (List.map go_terms_of (children el)))]> self)
  else setattr self (tag el) (text el).

(** The entry built last by the three root mappers, from [self.description]. *)
Definition with_entry (cls : string) (self : dict) (entry : Element) : res val :=
  description ← getattr (VObj cls self) "description";
  mret (VObj cls (<["entry" := PfamEntry (Element_get entry "entry_type")
                                 (Element_get entry "id")
                                 (Element_get entry "accession")
                                 description]> self)).

Definition PfamFamily (release_version release_date : val) (entry : Element)
  : res val :=
  let self : dict :=
    list_to_map [("pfam_release_version", release_version);
                 ("pfam_release_date", release_date);
                 ("description", VNone); ("comment", VNone)] in
  self ← for_each PfamFamily_body self (children entry);
  with_entry "PfamFamily" self entry.

Definition PfamLocation (element : Element) : res val :=
  let self : dict :=
    list_to_map [("start", Element_get element "start");
                 ("end", Element_get element "end");
                 ("ali_start", Element_get element "ali_start");
                 ("ali_end", Element_get element "ali_end");
                 ("hmm_start", Element_get element "hmm_start");
                 ("hmm_end", Element_get element "hmm_end");
                 ("bitscore", Element_get element "bitscore");
                 ("evalue", Element_get element "evalue");
                 ("evidence", Element_get element "evidence");
                 ("significant", Element_get element "significant");
                 ("hmm", VNone); ("match_string", VNone); ("pp", VNone);
                 ("seq", VNone); ("raw", VNone)] in
  (* Process child nodes *)
  self ← for_each (fun self el => setattr self (tag el) (text el)) self
                  (children element);
  mret (VObj "PfamLocation" self).

(** [self.locations.append (PfamLocation(loc))] *)
Definition PfamMatch_append (locations : list val) (loc : Element)
  : res (list val) :=
  location ← PfamLocation loc; mret (locations ++ [location])%list.

Definition PfamMatch (element : Element) : res val :=
  (* Populate the list of locations *)
  locations ← for_each PfamMatch_append [] (children element);
  mret (VObj "PfamMatch"
          (list_to_map
             [("entry", PfamEntry (Element_get element "type")
                                  (Element_get element "id")
                                  (Element_get element "accession") VNone);
              ("locations", VList locations)])).

(** [el.text.rstrip('.').split('; ')] *)
Definition taxonomy_of_text (t : val) : res val :=
  match t with
  | VStr s => Ok (VList (List.map VStr (str_split "; " (str_rstrip (is_char ".") s))))
  | _ => Raise AttributeError
  end.

(** [self.matches.append(PfamMatch(match))] *)
Definition PfamProtein_append (self : dict) (match_ : Element) : res dict :=
  match self !! "matches" with
  | Some (VList matches) =>
      m ← PfamMatch match_;
      mret (<["matches" := VList (matches ++ [m])]> self)
  | _ => Raise AttributeError
  end.

Definition PfamProtein_body (self : dict) (el : Element) : res dict :=
  if tag_is el "taxonomy" then
    taxonomy ← taxonomy_of_text (text el);
    mret (<["taxonomy" := taxonomy]>
            (<["species_name" := Element_get el "species_name"]>
               (<["taxonomy_id" := Element_get el "tax_id"]> self)))
  else if tag_is el "sequence" then
    mret (<["sequence" := text el]>
            (<["sequence_version" := Element_get el "version"]> self))
  else if tag_is el "matches" then
    for_each PfamProtein_append self (children el)
  (* Set an attribute of this object using the text content of the element as value *)
  else setattr self (tag el) (text el).

Definition PfamProtein (release_version release_date : val) (entry : Element)
  : res val :=
  let self : dict :=
    list_to_map [("pfam_release_version", release_version);
                 ("pfam_release_date", release_date);
                 ("db_name", Element_get entry "db");
                 ("db_release_version", Element_get entry "db_release");
                 ("description", VNone); ("comment", VNone);
                 ("taxonomy_id", VNone); ("species_name", VNone);
                 ("taxonomy", VNone); ("sequence", VNone);
                 ("matches", VList [])] in
  self ← for_each PfamProtein_body self (children entry);
  with_entry "PfamProtein" self entry.

Definition PfamClanMember (element : Element) : val :=
  VObj "PfamClanMember"
    (list_to_map
       [("entry", PfamEntry (VStr "Pfam-A") (Element_get element "id")
                            (Element_get element "accession") VNone);
        ("num_occurrences", Element_get element "num_occurrences");
        ("percentage_hits", Element_get element "percentage_hits")]).

(** [self.families.append (PfamClanMember(member))] *)
Definition PfamClan_append (self : dict) (member : Element) : res dict :=
  match self !! "families" with
  | Some (VList families) =>
      mret (<["families" := VList (families ++ [PfamClanMember member])]> self)
  | _ => Raise AttributeError
  end.

Definition PfamClan_body (self : dict) (el : Element) : res dict :=
  if tag_is el "members" then for_each PfamClan_append self (children el)
  (* Set an attribute of this object using the text content of the element as value *)
  else setattr self (tag el) (text el).

Definition PfamClan (release_version release_date : val) (entry : Element)
  : res val :=
  let self : dict :=
    list_to_map [("pfam_release_version", release_version);
                 ("pfam_release_date", release_date);
                 ("description", VNone); ("comment", VNone);
                 ("families", VList [])] in
  self ← for_each PfamClan_body self (children entry);
  with_entry "PfamClan" self entry.

(** ** [datetime.strptime(s, '%Y-%m-%d')] *)

Definition in_range (lo hi : ascii) (a : ascii) : bool :=
  (code lo <=? code a) && (code a <=? code hi).

(** [%Y]: four digits. *)
Definition parse_year (s : string) : option (Z * string) :=
  match s with
  | String a (String b (String c (String d r))) =>
      if is_digit a && is_digit b && is_digit c && is_digit d
      then Some (((digit_val a * 10 + digit_val b) * 10 + digit_val c) * 10 + digit_val d, r)
      else None
  | _ => None
  end.

(** [%m]: [1[0-2]|0[1-9]|[1-9]], the first alternative that matches. *)
Definition parse_month (s : string) : option (Z * string) :=
  match s with
  | EmptyString => None
  | String a r =>
      match r with
      | String b r' =>
          if is_char "1" a && in_range "0" "2" b then Some (10 + digit_val b, r')
          else if is_char "0" a && in_range "1" "9" b then Some (digit_val b, r')
          else if in_range "1" "9" a then Some (digit_val a, r)
          else None
      | EmptyString => if in_range "1" "9" a then Some (digit_val a, r) else None
      end
  end.

(** [%d]: [3[0-1]|[1-2]\d|0[1-9]|[1-9]| [1-9]], the first alternative that
    matches. *)
Definition parse_day (s : string) : option (Z * string) :=
  match s with
  | EmptyString => None
  | String a r =>
      match r with
      | String b r' =>
          if is_char "3" a && in_range "0" "1" b then Some (30 + digit_val b, r')
          else if in_range "1" "2" a && is_digit b then Some (digit_val a * 10 + digit_val b, r')
          else if is_char "0" a && in_range "1" "9" b then Some (digit_val b, r')
          else if in_range "1" "9" a then Some (digit_val a, r)
          else if is_char " " a && in_range "1" "9" b then Some (digit_val b, r')
          else None
      | EmptyString => if in_range "1" "9" a then Some (digit_val a, r) else None
      end
  end.

Definition expect (c : ascii) (s : string) : option string :=
  match s with
  | String a r => if is_char c a then Some r else None
  | EmptyString => None
  end.

Definition is_leap (y : Z) : bool :=
  (y mod 4 =? 0) && (negb (y mod 100 =? 0) || (y mod 400 =? 0)).

Definition days_in_month (y m : Z) : Z :=
  if m =? 2 then (if is_leap y then 29 else 28)
  else if (m =? 4) || (m =? 6) || (m =? 9) || (m =? 11) then 30
  else 31.

Definition parse_Ymd (s : string) : option (Z * Z * Z) :=
  '(y, s) ← parse_year s;
  s ← expect "-" s;
  '(m, s) ← parse_month s;
  s ← expect "-" s;
  '(d, s) ← parse_day s;
  if String.eqb s EmptyString && (1 <=? y) && (d <=? days_in_month y m)
  then Some (y, m, d) else None.

Definition strptime_Ymd (v : val) : res val :=
  match v with
  | VStr s =>
      match parse_Ymd s with
      | Some (y, m, d) => Ok (VDatetime y m d)
      | None => Raise ValueError
      end
  | _ => Raise TypeError
  end.

(** ** The query facade *)

(** [prefix + v] for a string literal [prefix] *)
Definition str_add (prefix : string) (v : val) : res string :=
  match v with
  | VStr s => Ok (prefix ++ s)
  | _ => Raise TypeError
  end.

(** What [request] returned, used as an element ([root.get], [root[0]]) or
    as text ([text.splitlines]). *)
Definition as_element (r : Element + string) : res Element :=
  match r with
  | inl root => Ok root
  | inr _ => Raise AttributeError
  end.

Definition as_text (r : Element + string) : res string :=
  match r with
  | inr text => Ok text
  | inl _ => Raise AttributeError
  end.

(** [root[0]] *)
Definition first_child (root : Element) : res Element :=
  match children root with
  | entry :: _ => Ok entry
  | [] => Raise IndexError
  end.

(** The lines shared by [family], [clan] and [protein] after the request:
    the release of the snapshot is read off the root, and the root's first
    child is handed to the mapper [ctor]. *)
Definition map_root (ctor : val -> val -> Element -> res val)
           (r : Element + string) : res val :=
  root ← as_element r;
  (* Get the release version of the pfam database *)
  let release_version := Element_get root "release" in
  release_date ← strptime_Ymd (Element_get root "release_date");
  (* Return the response parsed *)
  entry ← first_child root;
  ctor release_version release_date entry.

Definition family (id : val) : M val :=
  path ← lift (str_add "/family/" id);
  root ← request path None VNone VNone;
  lift (map_root PfamFamily root).

Definition clan (id : val) : M val :=
  path ← lift (str_add "/clan/" id);
  root ← request path None VNone VNone;
  lift (map_root PfamClan root).

Definition protein (id : val) : M val :=
  path ← lift (str_add "/protein/" id);
  root ← request path None VNone VNone;
  lift (map_root PfamProtein root).

Definition tab : string := String "009" EmptyString.

(** The body of the loop of [families] and [clans]: [fields] has three
    elements, read as [fields[0]], [fields[1]] and [fields[2]], or the line
    adds nothing. *)
Definition entry_of_line (kind : string) (output : list val) (line : string)
  : list val :=
  (* Split the line in three field *)
  match str_split tab line with
  | [f0; f1; f2] => output ++ [PfamEntry (VStr kind) (VStr f1) (VStr f0) (VStr f2)]
  | _ => output
  end.

Definition families : M (list val) :=
  params ← dict_new {["output" := VStr "text"]};
  text ← request "/families" (Some params) VNone VNone;
  text ← lift (as_text text);
  mret (foldl (entry_of_line "Pfam-A") [] (str_splitlines text)).

Definition clans : M (list val) :=
  params ← dict_new {["output" := VStr "text"]};
  text ← request "/clans" (Some params) VNone VNone;
  text ← lift (as_text text);
  mret (foldl (entry_of_line "Clan") [] (str_splitlines text)).

(** [output.append(line.split('/')[0])]; a split has a first field. *)
Definition name_of_line (output : list val) (line : string) : list val :=
  output ++ [VStr (hd EmptyString (str_split "/" line))].

(** The options of the request of [proteins]. *)
Definition alignment_params : dict :=
  list_to_map [("format", VStr "pfam"); ("alnType", VStr "full");
               ("order", VStr "a"); ("case", VStr "l");
               ("gaps", VStr "none"); ("download", VStr "0");
               ("output", VStr "text")].

Definition proteins (family : val) : M (list val) :=
  (* Options of the request *)
  params ← dict_new alignment_params;
  path ← lift (p ← str_add "/family/" family; mret (p ++ "/alignment/full/format"));
  text ← request path (Some params) VNone VNone;
  text ← lift (as_text text);
  mret (foldl name_of_line [] (str_splitlines text)).

(** ** Derived fetches *)

Definition PfamEntry_fetch (self : val) : M val :=
  type ← lift (getattr self "type");
  if val_eq_str type "Pfam-A" then
    accession ← lift (getattr self "accession"); family accession
  else if val_eq_str type "Clan" then
    accession ← lift (getattr self "accession"); clan accession
  else if val_eq_str type "sequence" then
    accession ← lift (getattr self "accession"); protein accession
  else mret VNone.

Definition is_instance (cls : string) (v : val) : bool :=
  match v with
  | VObj c _ => String.eqb c cls
  | _ => false
  end.

Definition PfamMatch_fetch_family (self : val) : M val :=
  entry ← lift (getattr self "entry");
  (* Request the family to the server: [self.entry.fetch()] *)
  if is_instance "PfamEntry" entry then PfamEntry_fetch entry
  else raise AttributeError.

(** [len(v)] *)
Definition py_len (v : val) : res nat :=
  match v with
  | VList l => Ok (length l)
  | VStr s => Ok (String.length s)
  | VDict d => Ok (size d)
  | _ => Raise TypeError
  end.

(** [v[0]] *)
Definition py_item0 (v : val) : res val :=
  match v with
  | VList (x :: _) => Ok x
  | VList [] => Raise IndexError
  | VStr (String a _) => Ok (VStr (String a EmptyString))
  | VStr EmptyString => Raise IndexError
  | VDict _ => Raise KeyError
  | _ => Raise TypeError
  end.

(** [self.fetch_family()] on a protein: the lookup of the method, which an
    instance attribute [fetch_family] shadows (the mapper stores one for a
    child of the entry so tagged), and then the body of the method. *)
Definition PfamProtein_fetch_family (self : val) : M val :=
  _ ← lift (method_lookup self "fetch_family");
  matches ← lift (getattr self "matches");
  n ← lift (py_len matches);
  (* Only if it has a match is possible *)
  if (0 <? n)%nat then
    m ← lift (py_item0 matches);
    (* [self.matches[0].fetch_family()]: the mapper stores instances of
       [PfamMatch] in [matches] *)
    if is_instance "PfamMatch" m then PfamMatch_fetch_family m
    else raise AttributeError
  else mret VNone.

End Pfam.

(** * Vocabulary of the properties *)

(** A string made of white space only. *)
Fixpoint all_space (s : string) : bool :=
  match s with
  | EmptyString => true
  | String a s' => py_isspace a && all_space s'
  end.

(** The dictionary left by [setdefault('output', 'xml')]. *)
Definition with_output (d : dict) : dict :=
  match d !! "output" with
  | Some _ => d
  | None => <["output" := VStr "xml"]> d
  end.

(** A status for which [raise_for_status] raises. *)
Definition is_error_status (status : Z) : bool :=
  (400 <=? status) && (status <? 600).

Definition base_url : string := "https://pfam.xfam.org".

(** [f] applied to the first element of a list. *)
Definition map_head {A : Type} (f : A -> A) (l : list A) : list A :=
  match l with
  | [] => []
  | x :: l' => f x :: l'
  end.

(** The text before the first occurrence of the character [c], the whole
    text when [c] does not occur. *)
Fixpoint str_before (c : ascii) (s : string) : string :=
  match s with
  | EmptyString => EmptyString
  | String a s' => if Ascii.eqb a c then EmptyString else String a (str_before c s')
  end.

(** [c] does not occur in [s]. *)
Fixpoint str_free (c : ascii) (s : string) : bool :=
  match s with
  | EmptyString => true
  | String a s' => negb (Ascii.eqb a c) && str_free c s'
  end.

(** [sep.join(fields)] *)
Fixpoint str_join (sep : string) (fields : list string) : string :=
  match fields with
  | [] => EmptyString
  | f :: fs =>
      match fs with
      | [] => f
      | _ => f ++ sep ++ str_join sep fs
      end
  end.

(** The separator made of the one character [c]. *)
Definition sep1 (c : ascii) : string := String c EmptyString.

(** The entry a line of [/families] or [/clans] stands for: the line is
    three tab-separated fields, accession, id and description. *)
Definition line_entry (kind : string) (line : string) : option val :=
  match str_split tab line with
  | [accession; id; description] =>
      Some (PfamEntry (VStr kind) (VStr id) (VStr accession) (VStr description))
  | _ => None
  end.

Definition nl : string := String "010" EmptyString.

(** The sequence names as the specification words them: one name for each
    non-empty line, none for an empty line. *)
Definition spec_sequence_names (body : string) : list val :=
  List.map (fun line => VStr (str_before "/" line))
           (List.filter (fun line => negb (String.eqb line EmptyString))
                        (str_splitlines body)).

(** The lineage as the specification words it: one trailing ['.'] is
    removed, then the text is split at ['; ']. *)
Fixpoint str_strip_one_dot (s : string) : string :=
  match s with
  | EmptyString => EmptyString
  | String a s' =>
      match s' with
      | EmptyString => if is_char "." a then EmptyString else s
      | _ => String a (str_strip_one_dot s')
      end
  end.

Definition spec_taxonomy (t : string) : list val :=
  List.map VStr (str_split "; " (str_strip_one_dot t)).

(** The attributes of an object. *)
Definition obj_attrs (v : val) : dict :=
  match v with
  | VObj _ attrs => attrs
  | _ => ∅
  end.

(** The value of a result, [None] standing for a raised exception. *)
Definition value_of (r : res val) : val :=
  match r with
  | Ok v => v
  | Raise _ => VNone
  end.

(** [r.name], when [r] is a value. *)
Definition attr_of (r : res val) (name : string) : res val :=
  obj ← r; getattr obj name.

(** * Synthetic responses *)

(** A server that answers every request with status 200 and the body
    [body], and a parser that knows the one document [doc] of that body. *)
Definition serve (body : string) (doc : Element) : World :=
  mkWorld (fun _ _ _ _ _ => Ok (mkResponse 200 body))
          (fun xml => if String.eqb xml body then Some doc else None).

Definition elem (t : string) (a : list (string * val)) (x : val)
           (c : list Element) : Element :=
  mkElement t (list_to_map a) x VNone c.

(** A server of plain text. *)
Definition serve_text (body : string) : World :=
  serve body (elem "text" [] VNone []).

(** An alignment in which an empty line separates two sequences. *)
Definition alignment_body : string :=
  "A0A009/12-80 acgtacgt" ++ nl ++ nl ++ "B1B118/3-71 ttgaccaa" ++ nl.

(** One line of [/families]. *)
Definition families_body : string :=
  "PF00001" ++ tab ++ "FAMILY1" ++ tab ++ "some description" ++ nl.

(** A family response: release 33.1 of 2022-02-01, ten seed and twenty full
    sequences. *)
Definition family_body : string :=
  "<pfam release='33.1' release_date='2022-02-01'>" ++
  "<entry entry_type='Pfam-A' accession='PF00001' id='FAMILY1'>" ++
  "<description>A synthetic family</description>" ++
  "<curation_details><status>CHANGED</status>" ++
  "<num_seqs><seed>10</seed><full>20</full></num_seqs></curation_details>" ++
  "</entry></pfam>".

Definition family_doc : Element :=
  elem "pfam" [("release", VStr "33.1"); ("release_date", VStr "2022-02-01")] VNone
    [elem "entry" [("entry_type", VStr "Pfam-A"); ("accession", VStr "PF00001");
                   ("id", VStr "FAMILY1")] VNone
       [elem "description" [] (VStr "A synthetic family") [];
        elem "curation_details" [] VNone
          [elem "status" [] (VStr "CHANGED") [];
           elem "num_seqs" [] VNone
             [elem "seed" [] (VStr "10") []; elem "full" [] (VStr "20") []]]]].

(** The binary64 value of the literal [33.1]. *)
Definition float_33_1 : float := float_of_decimal false 331 (-1).

(** A protein response with the lineage [lineage]. *)
Definition protein_body (lineage : string) : string :=
  "<pfam release='33.1' release_date='2022-02-01'>" ++
  "<entry entry_type='sequence' db='uniprot' accession='P12345' id='TEST_BACSU'>" ++
  "<description>A synthetic protein</description>" ++
  "<taxonomy tax_id='1423' species_name='Bacillus subtilis'>" ++ lineage ++
  "</taxonomy><sequence version='1'>MKVLA</sequence></entry></pfam>".

(** Its entry, as parsed; [more] stands for further children. *)
Definition protein_entry (lineage : string) (more : list Element) : Element :=
  elem "entry" [("entry_type", VStr "sequence"); ("db", VStr "uniprot");
                ("accession", VStr "P12345"); ("id", VStr "TEST_BACSU")] VNone
    ([elem "description" [] (VStr "A synthetic protein") [];
      elem "taxonomy" [("tax_id", VStr "1423");
                       ("species_name", VStr "Bacillus subtilis")]
           (VStr lineage) [];
      elem "sequence" [("version", VStr "1")] (VStr "MKVLA") []] ++ more)%list.

Definition protein_doc (lineage : string) (more : list Element) : Element :=
  elem "pfam" [("release", VStr "33.1"); ("release_date", VStr "2022-02-01")] VNone
    [protein_entry lineage more].

(** One match of the family PF00001, with one location. *)
Definition matches_elem : Element :=
  elem "matches" [] VNone
    [elem "match" [("accession", VStr "PF00001"); ("id", VStr "FAMILY1");
                   ("type", VStr "Pfam-A")] VNone
       [elem "location" [("start", VStr "5"); ("end", VStr "60")] VNone []]].

(** A lineage whose last taxon ends with a full stop of its own. *)
Definition lineage_sp : string := "Bacteria; Firmicutes; Bacillus sp..".

(** The protein mapped from a normalized entry with the children [more]. *)
Definition mapped_protein (more : list Element) : val :=
  value_of (PfamProtein (VFloat float_33_1) (VDatetime 2022 2 1)
              (xml_process_tree (protein_entry "Bacteria; Firmicutes." more))).

(** An error document. *)
Definition error_body : string := "<error>oops</error>".
Definition error_doc : Element := elem "error" [] (VStr "oops") [].

(** * Vocabulary of the further properties *)

(** The last element of [l] tagged [name]. *)
Fixpoint last_tagged (name : string) (l : list Element) : option Element :=
  match l with
  | [] => None
  | el :: l' =>
      match last_tagged name l' with
      | Some e => Some e
      | None => if tag_is el name then Some el else None
      end
  end.

(** A value as the normalizer leaves it: a string is trimmed, not empty and
    not the text of a float. *)
Definition normalized (v : val) : Prop :=
  match v with
  | VStr s => str_strip s = s ∧ s ≠ EmptyString ∧ py_float s = None
  | _ => True
  end.

(** [P] holds of the text and of every attribute value of every element of
    the tree. *)
Fixpoint tree_Forall (P : val -> Prop) (e : Element) : Prop :=
  let 'mkElement _ a x _ c := e in
  P x ∧ map_Forall (fun _ v => P v) a
  ∧ fold_right (fun e' rest => tree_Forall P e' ∧ rest) True c.

(** The module-level default dictionary is there and asks for XML: it has no
    ['output'] key yet, or maps it to ['xml']. *)
Definition default_ok (σ : state) : Prop :=
  ∃ d, heap σ !! default_params = Some d
       ∧ (d !! "output" = None ∨ d !! "output" = Some (VStr "xml")).

(** A default-namespace declaration with the value [ns], as it stands in a
    start tag: a space, [xmlns=] and the value between double quotes. *)
Definition xmlns_decl (ns : string) : string :=
  " xmlns=" ++ String dquote (ns ++ String dquote EmptyString).

(** The pattern of [request] matches at no position of [pre] in the text
    [pre ++ rest]. *)
Fixpoint no_match_in (pre rest : string) : bool :=
  match pre with
  | EmptyString => true
  | String a pre' =>
      match match_xmlns (pre ++ rest) with
      | Some _ => false
      | None => no_match_in pre' rest
      end
  end.

(** The exception that [setattr] raises for the name, when it raises. *)
Definition setattr_error (name : string) : option exn :=
  match setattr ∅ name VNone with
  | Raise e => Some e
  | Ok _ => None
  end.

(** The exception of the first element of [l] that has one. *)
Fixpoint first_error {A : Type} (err : A -> option exn) (l : list A)
  : option exn :=
  match l with
  | [] => None
  | x :: l' =>
      match err x with
      | Some e => Some e
      | None => first_error err l'
      end
  end.

(** [f] on every element of [l], in order, up to the first that raises. *)
Fixpoint map_res {A B : Type} (f : A -> res B) (l : list A) : res (list B) :=
  match l with
  | [] => Ok []
  | x :: l' => y ← f x; ys ← map_res f l'; mret (y :: ys)
  end.

(** The last element of [l] of which [P] holds. *)
Fixpoint last_where (P : Element -> bool) (l : list Element) : option Element :=
  match l with
  | [] => None
  | el :: l' =>
      match last_where P l' with
      | Some e => Some e
      | None => if P el then Some el else None
      end
  end.

(** [name] is one of the strings of [l]. *)
Definition str_in (name : string) (l : list string) : bool :=
  existsb (String.eqb name) l.

(** The children that the three root mappers treat in a branch of their
    own; every other child goes to [setattr]. *)
Definition special_Family : list string :=
  ["curation_details"; "hmm_details"; "clan_membership"; "go_terms"].

Definition special_Protein : list string := ["taxonomy"; "sequence"; "matches"].

Definition special_Clan : list string := ["members"].

Definition generic (special : list string) (el : Element) : bool :=
  negb (str_in (tag el) special).

(** The child [el] of a mapped entry assigns the attribute [name]: the
    attribute of its tag, but for a [clan_membership], which assigns
    [clan], a [taxonomy] and a [sequence], which assign what they hold,
    and the [members] of a clan, which extend [families] when there are
    any. *)
Definition assigns_Family (name : string) (el : Element) : bool :=
  if tag_is el "clan_membership" then String.eqb name "clan"
  else String.eqb name (tag el).

Definition assigns_Protein (name : string) (el : Element) : bool :=
  if tag_is el "taxonomy" then str_in name ["taxonomy_id"; "species_name"; "taxonomy"]
  else if tag_is el "sequence" then str_in name ["sequence_version"; "sequence"]
  else String.eqb name (tag el).

Definition has_children (el : Element) : bool :=
  match children el with
  | [] => false
  | _ :: _ => true
  end.

Definition assigns_Clan (name : string) (el : Element) : bool :=
  if tag_is el "members" then String.eqb name "families" && has_children el
  else String.eqb name (tag el).

(** The text of the last child of [entry] tagged [name], or [dflt]. *)
Definition last_text (name : string) (entry : Element) (dflt : val) : val :=
  match last_tagged name (children entry) with
  | Some e => text e
  | None => dflt
  end.

(** The attributes of a [<location>] element read by [PfamLocation], and the
    fields it sets to [None]. *)
Definition location_attributes : list string :=
  ["start"; "end"; "ali_start"; "ali_end"; "hmm_start"; "hmm_end";
   "bitscore"; "evalue"; "evidence"; "significant"].

Definition location_fields : list string :=
  ["hmm"; "match_string"; "pp"; "seq"; "raw"].

(** The children of the children of [element] tagged [name], in document
    order. *)
Definition grandchildren (name : string) (element : Element) : list Element :=
  List.concat (List.map children
                 (List.filter (fun el => tag_is el name) (children element))).

(** A text as the parser and the normalizer give it: [None], a float or a
    string. *)
Definition scalar (v : val) : bool :=
  match v with
  | VNone | VFloat _ | VStr _ => true
  | _ => false
  end.

Definition is_str (v : val) : bool :=
  match v with
  | VStr _ => true
  | _ => false
  end.

(** An element with a child tagged [name]. *)
Definition has_child (name : string) (el : Element) : bool :=
  match Element_find el name with
  | Some _ => true
  | None => false
  end.

(** The list of GO terms that a [<go_terms>] element stands for. *)
Definition go_terms_list (el : Element) : val :=
  VList (List.concat (List.map go_terms_of (children el))).

(** The entry of the clan that a [<clan_membership>] element names. *)
Definition clan_entry (el : Element) : val :=
  PfamEntry (VStr "Clan") (Element_get el "clan_id") (Element_get el "clan_acc") VNone.

(** A cutoff element with its two thresholds, and the cutoff it stands
    for. *)
Definition complete_cutoff (cut : Element) : bool :=
  has_child "sequence" cut && has_child "domain" cut.

Definition cutoff_value (cut : Element) : val :=
  PfamCutoff (value_of (find_text cut "sequence"))
             (value_of (find_text cut "domain")).

(** The exception that a child raises in the loop of a mapper, when it
    raises one: in [PfamLocation] a child that [setattr] refuses; in
    [PfamMatch] the first location that raises; in [PfamProtein] a
    [taxonomy] whose text is no string, the first match of a [matches] that
    raises, or a child that [setattr] refuses; in [PfamCurationDetails] a
    [num_seqs] without [seed] or [full]; in [PfamHmmDetails] the first
    incomplete cutoff of a [cutoffs]. *)
Definition PfamLocation_error (loc : Element) : option exn :=
  first_error (fun el => setattr_error (tag el)) (children loc).

Definition PfamMatch_error (m : Element) : option exn :=
  first_error PfamLocation_error (children m).

Definition PfamProtein_error (el : Element) : option exn :=
  if tag_is el "taxonomy"
  then if is_str (text el) then None else Some AttributeError
  else if tag_is el "sequence" then None
  else if tag_is el "matches" then first_error PfamMatch_error (children el)
  else setattr_error (tag el).

Definition PfamCurationDetails_error (el : Element) : option exn :=
  if tag_is el "num_seqs"
  then if has_child "seed" el && has_child "full" el then None
       else Some AttributeError
  else setattr_error (tag el).

Definition cutoff_error (cut : Element) : option exn :=
  if complete_cutoff cut then None else Some AttributeError.

Definition PfamHmmDetails_error (el : Element) : option exn :=
  if tag_is el "cutoffs" then first_error cutoff_error (children el)
  else setattr_error (tag el).

(** What [entry.fetch()] does for an entry of the given type and accession. *)
Definition fetch_by_type (w : World) (type accession : val) : M val :=
  if val_eq_str type "Pfam-A" then family w accession
  else if val_eq_str type "Clan" then clan w accession
  else if val_eq_str type "sequence" then protein w accession
  else mret VNone.

(** A computation that keeps [default_ok]. *)
Definition keeps_default {A : Type} (m : M A) : Prop :=
  ∀ σ, default_ok σ → default_ok (m σ).2.

(** * Further synthetic responses *)

(** A server that answers every request with the status [status]. *)
Definition serve_status (status : Z) (body : string) (doc : Element) : World :=
  mkWorld (fun _ _ _ _ _ => Ok (mkResponse status body))
          (fun xml => if String.eqb xml body then Some doc else None).

(** No server at all: [requests.get] raises. *)
Definition unreachable : World :=
  mkWorld (fun _ _ _ _ _ => Raise RequestException) (fun _ => None).

(** A state in which the caller holds a dictionary asking for text. *)
Definition text_state : state :=
  mkState [∅; {["output" := VStr "text"]}] [].

(** A start tag with a default namespace. *)
Definition namespaced_body : string :=
  "<pfam" ++ xmlns_decl "https://pfam.xfam.org/" ++ " release='33.1'/>".

(** The entry of the family response, normalized. *)
Definition family_entry : Element :=
  hd family_doc (children (xml_process_tree family_doc)).

(** Its curation details, and curation details whose counts lack the full
    alignment. *)
Definition curation_elem : Element :=
  xml_process_tree
    (elem "curation_details" [] VNone
       [elem "status" [] (VStr "CHANGED") [];
        elem "num_seqs" [] VNone
          [elem "seed" [] (VStr "10") []; elem "full" [] (VStr "20") []]]).

Definition curation_seed_only : Element :=
  xml_process_tree
    (elem "curation_details" [] VNone
       [elem "num_seqs" [] VNone [elem "seed" [] (VStr "10") []]]).

(** The members of a clan, and a clan entry with the further children
    [more]. *)
Definition members_elem : Element :=
  elem "members" [] VNone
    [elem "pfamA" [("accession", VStr "PF00001"); ("id", VStr "FAMILY1");
                   ("num_occurrences", VStr "12");
                   ("percentage_hits", VStr "3.4")] VNone []].

Definition clan_doc_entry (more : list Element) : Element :=
  xml_process_tree
    (elem "entry" [("entry_type", VStr "Clan"); ("accession", VStr "CL0001");
                   ("id", VStr "CLAN1")] VNone
       (elem "description" [] (VStr "A synthetic clan") [] :: more)).

Definition families_elem : Element := elem "families" [] (VStr "two") [].

(** Two lines of [/clans], the second without tabs. *)
Definition clans_body : string :=
  "CL0001" ++ tab ++ "CLAN1" ++ tab ++ "A synthetic clan" ++ nl
  ++ "a line without tabs" ++ nl.

(** A root whose release date is written without hyphens. *)
Definition undated_doc : Element :=
  xml_process_tree
    (elem "pfam" [("release", VStr "33.1"); ("release_date", VStr "20220201")]
          VNone [elem "entry" [] VNone []]).

(** An empty child tagged as the method of the protein is named. *)
Definition shadow_elem : Element := elem "fetch_family" [] VNone [].

(** An empty child tagged [__class__], which [setattr] refuses. *)
Definition class_elem : Element := elem "__class__" [] VNone [].

(** The entry of a family with a clan membership and, after it, a child
    tagged [clan]. *)
Definition family_clan_entry : Element :=
  xml_process_tree
    (elem "entry" [("entry_type", VStr "Pfam-A"); ("accession", VStr "PF00001");
                   ("id", VStr "FAMILY1")] VNone
       [elem "description" [] (VStr "A synthetic family") [];
        elem "clan_membership" [("clan_acc", VStr "CL0001");
                                ("clan_id", VStr "CLAN1")] VNone [];
        elem "clan" [] (VStr "c") []]).

(** HMM details whose gathering cutoff has no [<domain>]. *)
Definition hmm_incomplete : Element :=
  xml_process_tree
    (elem "hmm_details" [("hmmer_version", VStr "3.1b2")] VNone
       [elem "build_commands" [] (VStr "hmmbuild") [];
        elem "cutoffs" [] VNone
          [elem "gathering" [] VNone [elem "sequence" [] (VStr "25.0") []]]]).

(** * Properties *)

(** ** The model of the builtins on examples *)

Example float_33_1_bits : float_33_1 = S754_finite false 4658410864561357 (-47).
Proof. vm_compute. reflexivity. Qed.

Example py_float_accepts :
  py_float "10" = Some (float_of_Z 10)
  ∧ py_float " 33.1 " = Some float_33_1
  ∧ py_float "+1_000.e-2" = Some (float_of_Z 10)
  ∧ py_float ".5e1" = Some (float_of_Z 5)
  ∧ py_float "-Infinity" = Some (S754_infinity true)
  ∧ py_float "1e400" = Some (S754_infinity false)
  ∧ py_float "NaN" = Some S754_nan
  ∧ py_float "-0" = Some (S754_zero true).
Proof. vm_compute. repeat split. Qed.

Example py_float_rejects :
  List.map py_float
    ["oops"; "2022-02-01"; "PF00001"; "."; "1e"; "e5"; "1__0"; "_1"; "1_";
     "1_.5"; "0x10"; "1 2"; "--1"; "infinit"; "1.2.3"; "Bacteria; Firmicutes."]
  = List.repeat None 16.
Proof. vm_compute. reflexivity. Qed.

Example str_strip_examples :
  str_strip ("  a b " ++ tab ++ nl) = "a b"
  ∧ str_strip (" " ++ nl) = EmptyString
  ∧ str_rstrip (is_char ".") "a.b.." = "a.b".
Proof. vm_compute. repeat split. Qed.

Example str_split_examples :
  str_split "; " "Bacteria; Firmicutes" = ["Bacteria"; "Firmicutes"]
  ∧ str_split "; " "a;; b; " = ["a;"; "b"; EmptyString]
  ∧ str_split "/" "A0A009/12-80/x" = ["A0A009"; "12-80"; "x"]
  ∧ str_split "/" EmptyString = [EmptyString]
  ∧ str_split tab ("a" ++ tab ++ tab ++ "b") = ["a"; EmptyString; "b"].
Proof. vm_compute. repeat split. Qed.

Example str_splitlines_examples :
  str_splitlines ("a" ++ String "013" nl ++ "b" ++ nl ++ nl ++ "c")
    = ["a"; "b"; EmptyString; "c"]
  ∧ str_splitlines ("a" ++ nl) = ["a"]
  ∧ str_splitlines nl = [EmptyString]
  ∧ str_splitlines EmptyString = [].
Proof. vm_compute. repeat split. Qed.

Example re_sub_xmlns_example :
  re_sub_xmlns ("<pfam xmlns=" ++ String dquote "https://pfam.xfam.org/"
                ++ String dquote " release='33.1'>")
  = "<pfam release='33.1'>".
Proof. vm_compute. reflexivity. Qed.

Example strptime_Ymd_examples :
  strptime_Ymd (VStr "2022-02-01") = Ok (VDatetime 2022 2 1)
  ∧ strptime_Ymd (VStr "2024-2-29") = Ok (VDatetime 2024 2 29)
  ∧ strptime_Ymd (VStr "2022-02-30") = Raise ValueError
  ∧ strptime_Ymd (VStr "2022-02-011") = Raise ValueError
  ∧ strptime_Ymd (VFloat (float_of_Z 20220201)) = Raise TypeError
  ∧ strptime_Ymd VNone = Raise TypeError.
Proof. vm_compute. repeat split. Qed.

(** ** Strings *)

Lemma str_rstrip_cons P a s :
  str_rstrip P (String a s) =
  match str_rstrip P s with
  | EmptyString => if P a then EmptyString else String a EmptyString
  | r => String a r
  end.
Proof. reflexivity. Qed.

Lemma str_rstrip_idem P s : str_rstrip P (str_rstrip P s) = str_rstrip P s.
Proof.
  induction s as [|a s IH]; [reflexivity|].
  rewrite str_rstrip_cons.
  destruct (str_rstrip P s) as [|b r] eqn:E.
  - destruct (P a) eqn:Pa; [reflexivity|].
    rewrite str_rstrip_cons. simpl. by rewrite Pa.
  - rewrite str_rstrip_cons, IH. reflexivity.
Qed.

Lemma str_lstrip_head P s :
  str_lstrip P s = EmptyString ∨
  ∃ a r, str_lstrip P s = String a r ∧ P a = false.
Proof.
  induction s as [|a s IH]; simpl; [by left|].
  destruct (P a) eqn:Pa; [exact IH|]. right. eauto.
Qed.

Lemma str_rstrip_head P a s :
  P a = false → ∃ r, str_rstrip P (String a s) = String a r.
Proof.
  intros Pa. rewrite str_rstrip_cons.
  destruct (str_rstrip P s); [rewrite Pa|]; eauto.
Qed.

Lemma str_strip_idem s : str_strip (str_strip s) = str_strip s.
Proof.
  unfold str_strip.
  destruct (str_lstrip_head py_isspace s) as [->|(a & r & -> & Pa)];
    [reflexivity|].
  destruct (str_rstrip_head py_isspace a r Pa) as [r' E].
  rewrite E. simpl str_lstrip. rewrite Pa, <- E. apply str_rstrip_idem.
Qed.

Lemma str_strip_all_space s : all_space s = true → str_strip s = EmptyString.
Proof.
  unfold str_strip. induction s as [|a s IH]; simpl; [reflexivity|].
  intros [Pa Hs]%andb_prop. rewrite Pa. auto.
Qed.

Lemma py_float_empty s : str_strip s = EmptyString → py_float s = None.
Proof. unfold py_float. intros ->. reflexivity. Qed.

Lemma py_float_strip s : py_float (str_strip s) = py_float s.
Proof. unfold py_float. by rewrite str_strip_idem. Qed.

(** ** The scalar normalizer *)

Lemma xml_process_value_str s :
  xml_process_value (VStr s) =
  if String.eqb (str_strip s) EmptyString then VNone
  else match py_float (str_strip s) with
       | Some f => VFloat f
       | None => VStr (str_strip s)
       end.
Proof. reflexivity. Qed.

Lemma xml_process_value_strip s :
  xml_process_value (VStr (str_strip s)) = xml_process_value (VStr s).
Proof. by rewrite !xml_process_value_str, str_strip_idem. Qed.

Lemma xml_process_value_idem v :
  xml_process_value (xml_process_value v) = xml_process_value v.
Proof.
  destruct v; try reflexivity.
  rewrite xml_process_value_str.
  destruct (String.eqb (str_strip s) EmptyString) eqn:E; [reflexivity|].
  destruct (py_float (str_strip s)) eqn:F; [reflexivity|].
  by rewrite xml_process_value_str, str_strip_idem, E, F.
Qed.

(** C2. The scalar normalizer is a total function of its argument (it has
    no failing result): [None] is kept; a value that is no string is
    returned as it is; a string is trimmed first, and then gives [None] when
    nothing is left (so for every string of white space), the float when
    the trimmed text reads as a float, and the trimmed text otherwise. A
    string and its trimmed form are normalized alike, and a string that
    [float] accepts is normalized to that float. Results are compared as
    values: the float read from ['nan'] is the same value on both sides. *)
Theorem xml_process_value_spec (v : val) (s : string) :
  xml_process_value VNone = VNone ∧
  ((∀ t, v ≠ VStr t) → xml_process_value v = v) ∧
  (str_strip s = EmptyString → xml_process_value (VStr s) = VNone) ∧
  (all_space s = true → xml_process_value (VStr s) = VNone) ∧
  (∀ f, py_float (str_strip s) = Some f → xml_process_value (VStr s) = VFloat f) ∧
  (str_strip s ≠ EmptyString → py_float (str_strip s) = None →
   xml_process_value (VStr s) = VStr (str_strip s)) ∧
  xml_process_value (VStr s) = xml_process_value (VStr (str_strip s)) ∧
  (∀ f, py_float s = Some f →
        xml_process_value (VStr s) = VFloat f ∧
        xml_process_value (VStr (str_strip s)) = VFloat f).
Proof.
  assert (Hempty : str_strip s = EmptyString → xml_process_value (VStr s) = VNone).
  { intros E. by rewrite xml_process_value_str, E. }
  assert (Hfloat : ∀ f, py_float (str_strip s) = Some f →
                        xml_process_value (VStr s) = VFloat f).
  { intros f F. rewrite xml_process_value_str, F.
    destruct (String.eqb (str_strip s) EmptyString) eqn:E; [|reflexivity].
    apply String.eqb_eq in E. rewrite py_float_strip, (py_float_empty _ E) in F.
    discriminate. }
  repeat split.
  - intros Hv. destruct v; try reflexivity. by destruct (Hv s0).
  - exact Hempty.
  - intros Hs. by apply Hempty, str_strip_all_space.
  - exact Hfloat.
  - intros Hne F. rewrite xml_process_value_str, F.
    destruct (String.eqb (str_strip s) EmptyString) eqn:E; [|reflexivity].
    by apply String.eqb_eq in E.
  - by rewrite xml_process_value_strip.
  - apply Hfloat. by rewrite py_float_strip.
  - rewrite xml_process_value_strip. apply Hfloat. by rewrite py_float_strip.
Qed.

(** ** The tree normalizer *)

Lemma foldl_alter_lookup (f : val → val) (ks : list string) (m : dict) (i : string) :
  NoDup ks →
  foldl (fun d name => alter f name d) m ks !! i =
  if decide (i ∈ ks) then f <$> m !! i else m !! i.
Proof.
  intros Hnd. revert m. induction Hnd as [|k ks Hk Hnd IH]; intros m.
  - simpl. destruct (decide (i ∈ [])) as [H|H]; [by apply elem_of_nil in H|reflexivity].
  - simpl foldl. rewrite IH, lookup_alter.
    destruct (decide (k = i)) as [->|Hne].
    + destruct (decide (i ∈ ks)); [contradiction|].
      destruct (decide (i ∈ i :: ks)) as [_|H]; [reflexivity|].
      exfalso. apply H, elem_of_cons. by left.
    + destruct (decide (i ∈ ks)) as [Hin|Hin];
        destruct (decide (i ∈ k :: ks)) as [H|H]; try reflexivity.
      * exfalso. apply H, elem_of_cons. by right.
      * apply elem_of_cons in H as [?|?]; congruence.
Qed.

(** The loop over the attributes maps the normalizer over the values. *)
Lemma process_attrib_fmap (a : dict) : process_attrib a = xml_process_value <$> a.
Proof.
  apply map_eq. intros i. unfold process_attrib.
  rewrite foldl_alter_lookup by apply NoDup_fst_map_to_list.
  rewrite lookup_fmap.
  destruct (decide (i ∈ (map_to_list a).*1)) as [H|H]; [reflexivity|].
  destruct (a !! i) as [x|] eqn:E; [|reflexivity].
  exfalso. apply H. apply list_elem_of_fmap. exists (i, x). split; [reflexivity|].
  by apply elem_of_map_to_list.
Qed.

Lemma process_attrib_idem (a : dict) :
  process_attrib (process_attrib a) = process_attrib a.
Proof.
  rewrite !process_attrib_fmap, <- map_fmap_compose.
  apply map_fmap_ext. intros i x _. apply xml_process_value_idem.
Qed.

(** Induction on elements, the hypothesis holding for every child. *)
Lemma Element_ind' (P : Element → Prop) :
  (∀ t a x tl c, Forall P c → P (mkElement t a x tl c)) → ∀ e, P e.
Proof.
  intros H. fix IH 1. intros [t a x tl c]. apply H.
  induction c as [|e c IHc]; constructor; [apply IH|exact IHc].
Qed.

(** C4. Tree normalization is idempotent. The normalizer is applied to the
    text and to every attribute value of every element of the tree, the root
    included, children being visited in order; tags, tails and the shape of
    the tree are kept. Running it a second time changes nothing. *)
Theorem xml_process_tree_idempotent (T : Element) :
  xml_process_tree (xml_process_tree T) = xml_process_tree T ∧
  tag (xml_process_tree T) = tag T ∧
  text (xml_process_tree T) = xml_process_value (text T) ∧
  (∀ name, attrib (xml_process_tree T) !! name = xml_process_value <$> attrib T !! name) ∧
  children (xml_process_tree T) = List.map xml_process_tree (children T).
Proof.
  split.
  - induction T as [t a x tl c IH] using Element_ind'. simpl.
    rewrite process_attrib_idem, xml_process_value_idem. f_equal.
    rewrite List.map_map. induction IH as [|e l He _ IHl]; simpl; [reflexivity|].
    by rewrite He, IHl.
  - destruct T as [t a x tl c]. simpl. repeat split.
    intros name. by rewrite process_attrib_fmap, lookup_fmap.
Qed.

(** ** The transport envelope *)

Section Transport.

Variable w : World.


Lemma with_output_lookup d : is_Some (with_output d !! "output").
Proof.
  unfold with_output. destruct (d !! "output") eqn:E; [by rewrite E|].
  rewrite lookup_insert_eq. eauto.
Qed.

Lemma with_output_idem d : with_output (with_output d) = with_output d.
Proof.
  unfold with_output at 1. by destruct (with_output_lookup d) as [v ->].
Qed.

(** What a call of [request] does, step by step, when [params] designates
    the dictionary [d]. *)
Lemma request_unfold path params headers timeout σ d :
  heap σ !! default default_params params = Some d →
  request w path params headers timeout σ =
  let l := default default_params params in
  let d' := with_output d in
  let url := base_url ++ path in
  let σ1 := mkState (<[l := d']> (heap σ))
                    (trace σ ++ [EvGet url d' headers timeout]) in
  match requests_get w (trace σ) url d' headers timeout with
  | Raise e => (Raise e, σ1)
  | Ok response =>
      if is_error_status (status_code response)
      then (Raise (HTTPError (status_code response)), σ1)
      else if val_eq_str (default VNone (d' !! "output")) "xml" then
        match fromstring w (re_sub_xmlns (response_text response)) with
        | None => (Raise ParseError, σ1)
        | Some root =>
            if String.eqb (tag root) "error"
            then (Raise (Exception_ (text root)), σ1)
            else (Ok (inl (xml_process_tree root)),
                  mkState (heap σ1) (trace σ1 ++ [EvProcessTree]))
        end
      else (Ok (inr (response_text response)), σ1)
  end.
Proof.
  intros Hd. cbv zeta. unfold request.
  set (l := default default_params params) in *.
  assert (Hlt : (l < length (heap σ))%nat) by (by eapply lookup_lt_Some).
  unfold mbind, M_bind, dict_setdefault. rewrite Hd.
  assert (Hσ1 : ∃ σ0, (match d !! "output" with
                       | Some _ => (Ok (), σ)
                       | None => (Ok (), mkState (<[l := <["output" := VStr "xml"]> d]> (heap σ)) (trace σ))
                       end) = (Ok (), σ0) ∧ heap σ0 = <[l := with_output d]> (heap σ)
                      ∧ trace σ0 = trace σ).
  { unfold with_output. destruct (d !! "output"); eexists; (split; [reflexivity|]);
      simpl; split; try reflexivity. symmetry. by apply list_insert_id. }
  destruct Hσ1 as (σ0 & -> & Hh & Ht).
  unfold requests_get_. rewrite Hh, list_lookup_insert_eq by exact Hlt. rewrite Ht.
  fold base_url.
  destruct (requests_get _ _ _ _ _ _) as [response|e]; [|reflexivity].
  unfold raise_for_status, raise, mret, M_ret. fold (is_error_status (status_code response)).
  destruct (is_error_status _); [reflexivity|].
  unfold dict_getitem. cbn [heap trace]. rewrite list_lookup_insert_eq by exact Hlt.
  destruct (with_output_lookup d) as [o Ho]. rewrite Ho.
  change (default VNone (Some o)) with o.
  destruct (val_eq_str o "xml"); [|reflexivity].
  unfold ElementTree_fromstring.
  destruct (fromstring _ _) as [root|]; [|reflexivity].
  unfold mret, M_ret. destruct (String.eqb (tag root) "error"); reflexivity.
Qed.

Lemma request_heap path params headers timeout σ d :
  heap σ !! default default_params params = Some d →
  heap (request w path params headers timeout σ).2 =
  <[(default default_params params) := with_output d]> (heap σ).
Proof.
  intros Hd. rewrite (request_unfold _ _ _ _ _ _ Hd). cbv zeta.
  repeat match goal with
         | |- context [match ?x with _ => _ end] => destruct x
         end; reflexivity.
Qed.

Lemma with_output_xml d :
  d !! "output" = None ∨ d !! "output" = Some (VStr "xml") →
  with_output d !! "output" = Some (VStr "xml").
Proof.
  unfold with_output. intros [E|E]; rewrite E; [apply lookup_insert_eq|exact E].
Qed.

Lemma is_error_status_2xx status :
  200 ≤ status < 300 → is_error_status status = false.
Proof. unfold is_error_status. lia. Qed.

(** C3. A response with a 2xx status whose body, the namespace declaration
    removed, parses to a document whose root is tagged [error] makes
    [request] raise the exception built from the text of that root, in XML
    mode (the caller's dictionary asks for no other output). The text is
    the one the parser produced: the tree normalizer has not run, and the
    trace gains the network request and nothing else. [family], which calls
    [request] without [params], fails in the same way. *)
Theorem request_error_document path params headers timeout σ d response root :
  heap σ !! default default_params params = Some d →
  d !! "output" = None ∨ d !! "output" = Some (VStr "xml") →
  requests_get w (trace σ) (base_url ++ path) (with_output d) headers timeout
    = Ok response →
  200 ≤ status_code response < 300 →
  fromstring w (re_sub_xmlns (response_text response)) = Some root →
  tag root = "error" →
  request w path params headers timeout σ =
    (Raise (Exception_ (text root)),
     mkState (<[(default default_params params) := with_output d]> (heap σ))
             (trace σ ++ [EvGet (base_url ++ path) (with_output d) headers timeout]))
  ∧ (EvProcessTree ∉ drop (length (trace σ))
                        (trace (snd (request w path params headers timeout σ))))
  ∧ (∀ id, params = None → headers = VNone → timeout = VNone →
           path = "/family/" ++ id →
           (family w (VStr id) σ).1
           = Raise (Exception_ (text root))).
Proof.
  intros Hd Hout Hget Hst Hparse Htag.
  assert (Hreq : request w path params headers timeout σ =
    (Raise (Exception_ (text root)),
     mkState (<[(default default_params params) := with_output d]> (heap σ))
             (trace σ ++ [EvGet (base_url ++ path) (with_output d) headers timeout]))).
  { rewrite (request_unfold _ _ _ _ _ _ Hd). cbv zeta.
    rewrite Hget, (is_error_status_2xx _ Hst), (with_output_xml _ Hout).
    simpl. rewrite Hparse, Htag. reflexivity. }
  split; [exact Hreq|]. split.
  - rewrite Hreq. simpl. rewrite drop_app_length.
    intros H. apply list_elem_of_singleton in H. discriminate.
  - intros id -> -> -> ->.
    unfold family, mbind, M_bind, lift. simpl str_add.
    cbn beta iota. by rewrite Hreq.
Qed.

(** C10. [request] mutates the dictionary it is given: when the caller's
    dictionary has no ['output'] key, that very dictionary maps ['output']
    to ['xml'] once the call has returned or raised, and no other
    dictionary changes. Without a [params] argument the dictionary is the
    one module-level default, so the key inserted by one call is found
    there by every later call. *)
Theorem request_mutates_params path params headers timeout σ d :
  heap σ !! default default_params params = Some d →
  d !! "output" = None →
  let σ' := (request w path params headers timeout σ).2 in
  heap σ' !! default default_params params = Some (<["output" := VStr "xml"]> d)
  ∧ (∀ l, l ≠ default default_params params → heap σ' !! l = heap σ !! l)
  ∧ (params = None →
     ∀ path2 headers2 timeout2,
       let σ'' := (request w path2 None headers2 timeout2 σ').2 in
       heap σ' !! default_params = Some (<["output" := VStr "xml"]> d) ∧
       heap σ'' = heap σ').
Proof.
  intros Hd Hout σ'.
  assert (Hlt : (default default_params params < length (heap σ))%nat)
    by (by eapply lookup_lt_Some).
  assert (Hw : with_output d = <["output" := VStr "xml"]> d)
    by (unfold with_output; by rewrite Hout).
  assert (Hσ' : heap σ' = <[(default default_params params) := <["output" := VStr "xml"]> d]> (heap σ)).
  { subst σ'. by rewrite (request_heap _ _ _ _ _ _ Hd), Hw. }
  assert (Hl : heap σ' !! default default_params params
               = Some (<["output" := VStr "xml"]> d)).
  { rewrite Hσ'. by apply list_lookup_insert_eq. }
  split; [exact Hl|]. split.
  - intros l Hne. rewrite Hσ'. by apply list_lookup_insert_ne.
  - intros -> path2 headers2 timeout2 σ''. split; [exact Hl|].
    subst σ''. rewrite (request_heap _ _ _ _ _ _ Hl).
    apply list_insert_id. rewrite Hl. f_equal.
    unfold with_output. by rewrite lookup_insert_eq.
Qed.

End Transport.

(** ** Splitting *)

Lemma str_rev_app_cons a cur s :
  str_rev_app (a :: cur) s = str_rev_app cur (String a s).
Proof. reflexivity. Qed.

Lemma str_app_nil_l s : EmptyString ++ s = s.
Proof. reflexivity. Qed.

Lemma str_app_cons a s t : String a s ++ t = String a (s ++ t).
Proof. reflexivity. Qed.

(** The field being read is a prefix of the first field returned. *)
Lemma split_go_cur sep s skip cur :
  split_go sep s skip cur
  = map_head (str_rev_app cur) (split_go sep s skip []).
Proof.
  revert skip cur. induction s as [|a s IH]; intros skip cur; [reflexivity|].
  simpl. destruct skip as [|k]; [|apply IH].
  destruct (str_startswith sep (String a s)); [reflexivity|].
  rewrite (IH O (a :: cur)), (IH O [a]).
  by destruct (split_go sep s 0 []).
Qed.

Lemma str_split_cons sep a s :
  str_split sep (String a s) =
  if str_startswith sep (String a s)
  then EmptyString :: split_go sep s (Nat.pred (String.length sep)) []
  else map_head (String a) (str_split sep s).
Proof.
  unfold str_split. simpl split_go.
  destruct (str_startswith sep (String a s)); [reflexivity|].
  apply split_go_cur.
Qed.

Lemma split_go_nonempty sep s skip cur : split_go sep s skip cur ≠ [].
Proof.
  revert skip cur. induction s as [|a s IH]; intros skip cur; simpl; [done|].
  destruct skip; [|apply IH]. destruct (str_startswith _ _); [done|apply IH].
Qed.

Lemma str_split_nonempty sep s : str_split sep s ≠ [].
Proof. apply split_go_nonempty. Qed.

Lemma str_split_char_cons c a s :
  str_split (sep1 c) (String a s) =
  if Ascii.eqb c a then EmptyString :: str_split (sep1 c) s
  else map_head (String a) (str_split (sep1 c) s).
Proof.
  rewrite str_split_cons. simpl. by destruct (Ascii.eqb c a).
Qed.

(** The first field of a split at a character is the text before it. *)
Lemma str_split_char_hd c s :
  hd EmptyString (str_split (sep1 c) s) = str_before c s.
Proof.
  induction s as [|a s IH]; [reflexivity|].
  rewrite str_split_char_cons. simpl. rewrite (Ascii.eqb_sym a c).
  destruct (Ascii.eqb c a); [reflexivity|].
  rewrite <- IH. pose proof (str_split_nonempty (sep1 c) s).
  by destruct (str_split (sep1 c) s).
Qed.

Lemma str_split_char_free c s :
  str_free c s = true → str_split (sep1 c) s = [s].
Proof.
  induction s as [|a s IH]; [reflexivity|]. cbn [str_free].
  intros [Ha Hs]%andb_prop. rewrite str_split_char_cons, (Ascii.eqb_sym c a).
  destruct (Ascii.eqb a c); [discriminate|]. by rewrite IH.
Qed.

Lemma str_split_char_app c f s :
  str_free c f = true →
  str_split (sep1 c) (f ++ String c s) = f :: str_split (sep1 c) s.
Proof.
  induction f as [|a f IH]; cbn [str_free].
  - intros _. by rewrite str_app_nil_l, str_split_char_cons, Ascii.eqb_refl.
  - intros [Ha Hf]%andb_prop.
    rewrite str_app_cons, str_split_char_cons, (Ascii.eqb_sym c a).
    destruct (Ascii.eqb a c); [discriminate|]. by rewrite IH.
Qed.

Lemma str_join_cons2 sep f g fs :
  str_join sep (f :: g :: fs) = f ++ sep ++ str_join sep (g :: fs).
Proof. reflexivity. Qed.

(** Fields free of the separator, joined and split again, are recovered. *)
Lemma str_split_char_join c fields :
  fields ≠ [] → Forall (fun f => str_free c f = true) fields →
  str_split (sep1 c) (str_join (sep1 c) fields) = fields.
Proof.
  intros Hne H. induction H as [|f fs Hf Hfs IH]; [done|].
  destruct fs as [|g fs]; [by apply str_split_char_free|].
  rewrite str_join_cons2. unfold sep1 at 2. rewrite str_app_cons, str_app_nil_l.
  rewrite str_split_char_app by done. f_equal. by apply IH.
Qed.

(** What is split at a character is the join of its fields, none of which
    holds the character. *)
Lemma str_join_split_char c s :
  str_join (sep1 c) (str_split (sep1 c) s) = s ∧
  Forall (fun f => str_free c f = true) (str_split (sep1 c) s).
Proof.
  induction s as [|a s [IHj IHf]]; [by repeat constructor|].
  rewrite str_split_char_cons. pose proof (str_split_nonempty (sep1 c) s) as Hne.
  destruct (str_split (sep1 c) s) as [|f fs] eqn:Es; [done|].
  destruct (Ascii.eqb c a) eqn:E.
  - apply Ascii.eqb_eq in E as ->. split; [|by constructor].
    rewrite str_join_cons2, IHj. reflexivity.
  - apply Forall_cons in IHf as [Hf Hfs]. split.
    + cbn [map_head]. destruct fs as [|g gs]; [simpl in *; by rewrite IHj|].
      rewrite str_join_cons2 in *. by rewrite str_app_cons, IHj.
    + constructor; [|done]. cbn [str_free]. by rewrite (Ascii.eqb_sym a c), E.
Qed.

(** ** The list endpoints *)

Lemma foldl_entry_of_line kind lines acc :
  foldl (entry_of_line kind) acc lines = (acc ++ omap (line_entry kind) lines)%list.
Proof.
  revert acc. induction lines as [|line lines IH]; intros acc; simpl.
  - by rewrite app_nil_r.
  - rewrite IH. unfold entry_of_line, line_entry.
    destruct (str_split tab line) as [|f0 [|f1 [|f2 [|f3 fs]]]]; try reflexivity.
    by rewrite <- app_assoc.
Qed.

Lemma foldl_name_of_line lines acc :
  foldl name_of_line acc lines
  = (acc ++ List.map (fun line => VStr (str_before "/" line)) lines)%list.
Proof.
  revert acc. induction lines as [|line lines IH]; intros acc; simpl.
  - by rewrite app_nil_r.
  - rewrite IH. unfold name_of_line.
    change "/" with (sep1 "/"). rewrite str_split_char_hd.
    by rewrite <- app_assoc.
Qed.

Section Lists.

Variable w : World.

(** A request in text mode returns the body as it is. *)
Lemma request_text path (d : dict) o headers timeout σ response :
  d !! "output" = Some o → val_eq_str o "xml" = false →
  requests_get w (trace σ) (base_url ++ path) d headers timeout = Ok response →
  is_error_status (status_code response) = false →
  (request w path (Some (length (heap σ))) headers timeout
     (mkState (heap σ ++ [d]) (trace σ))).1
  = Ok (inr (response_text response)).
Proof.
  intros Ho Hx Hget Hst.
  assert (Hd : heap (mkState (heap σ ++ [d]) (trace σ))
                 !! default default_params (Some (length (heap σ))) = Some d).
  { simpl. by rewrite list_lookup_middle. }
  rewrite (request_unfold _ _ _ _ _ _ _ Hd). cbv zeta.
  assert (Hw : with_output d = d) by (unfold with_output; by rewrite Ho).
  rewrite Hw. cbn [trace]. rewrite Hget, Hst, Ho. simpl. by rewrite Hx.
Qed.

(** C7. [families] reads the body line by line and splits each line at
    the tabs. A line of three fields gives an entry of kind ['Pfam-A']
    whose accession, id and description are the first, second and third
    field; a line with another number of fields gives nothing; the entries
    come in the order of the lines. *)
Theorem families_entries σ response :
  requests_get w (trace σ) (base_url ++ "/families")
               {["output" := VStr "text"]} VNone VNone = Ok response →
  is_error_status (status_code response) = false →
  (families w σ).1
    = Ok (omap (line_entry "Pfam-A") (str_splitlines (response_text response)))
  ∧ (∀ accession id description,
       str_free "009" accession = true → str_free "009" id = true →
       str_free "009" description = true →
       ∃ e, line_entry "Pfam-A" (str_join tab [accession; id; description]) = Some e
            ∧ getattr e "type" = Ok (VStr "Pfam-A")
            ∧ getattr e "accession" = Ok (VStr accession)
            ∧ getattr e "id" = Ok (VStr id)
            ∧ getattr e "description" = Ok (VStr description))
  ∧ (∀ line, length (str_split tab line) ≠ 3%nat → line_entry "Pfam-A" line = None)
  ∧ (∀ line, str_join tab (str_split tab line) = line
             ∧ Forall (fun f => str_free "009" f = true) (str_split tab line)).
Proof.
  intros Hget Hst. split; [|split; [|split]].
  - unfold families, mbind, M_bind, dict_new.
    pose proof (request_text "/families" {["output" := VStr "text"]}
                  (VStr "text") VNone VNone σ response
                  (lookup_singleton_eq _ _) eq_refl Hget Hst) as Hreq.
    destruct (request _ _ _ _ _ _) as [r σ']. simpl in Hreq. subst r.
    unfold lift, mret, M_ret. simpl. by rewrite foldl_entry_of_line.
  - intros accession id description Ha Hi Hd. unfold line_entry.
    change tab with (sep1 "009").
    rewrite str_split_char_join; [|done|by repeat constructor].
    eexists. split; [reflexivity|]. by repeat split.
  - intros line Hlen. unfold line_entry.
    by destruct (str_split tab line) as [|f0 [|f1 [|f2 [|f3 fs]]]].
  - intros line. apply (str_join_split_char "009").
Qed.

(** C6, as the code has it. [proteins] gives one name for each line of
    the body, empty lines included: the text of the line before its first
    ['/'], the whole line when it has none; an empty line gives the empty
    name. *)
Theorem proteins_names σ family response :
  requests_get w (trace σ)
               (base_url ++ ("/family/" ++ family) ++ "/alignment/full/format")
               alignment_params VNone VNone = Ok response →
  is_error_status (status_code response) = false →
  (proteins w (VStr family) σ).1
    = Ok (List.map (fun line => VStr (str_before "/" line))
                   (str_splitlines (response_text response))).
Proof.
  intros Hget Hst.
  unfold proteins, mbind, M_bind, dict_new.
  pose proof (request_text (("/family/" ++ family) ++ "/alignment/full/format")
                alignment_params (VStr "text") VNone VNone σ response
                eq_refl eq_refl Hget Hst) as Hreq.
  unfold lift, mret, M_ret, res_ret. cbn [str_add res_bind].
  destruct (request _ _ _ _ _ _) as [r σ']. simpl in Hreq. subst r.
  cbn [as_text fst]. rewrite foldl_name_of_line. reflexivity.
Qed.

End Lists.

(** C6, as the specification words it, fails: an empty line of the body
    gives an entry, the empty name, where the specification has none. *)
Lemma proteins_empty_line :
  (proteins (serve_text alignment_body) (VStr "PF00001") initial_state).1
  = Ok [VStr "A0A009"; VStr EmptyString; VStr "B1B118"]
  ∧ spec_sequence_names alignment_body = [VStr "A0A009"; VStr "B1B118"]
  ∧ (proteins (serve_text alignment_body) (VStr "PF00001") initial_state).1
    ≠ Ok (spec_sequence_names alignment_body).
Proof. vm_compute. repeat split. discriminate. Qed.

(** ** The entity mapper *)

Lemma for_each_app {A B : Type} (body : A → B → res A) acc (l1 l2 : list B) :
  for_each body acc (l1 ++ l2)%list
  = (acc' ← for_each body acc l1; for_each body acc' l2).
Proof.
  revert acc. induction l1 as [|x l1 IH]; intros acc; [reflexivity|].
  simpl. destruct (body acc x) as [acc'|e]; [apply IH|reflexivity].
Qed.

(** An invariant of the loop body holds when the loop ends. *)
Lemma for_each_inv {A B : Type} (body : A → B → res A) (I : A → Prop) l acc acc' :
  I acc →
  (∀ a x a', x ∈ l → I a → body a x = Ok a' → I a') →
  for_each body acc l = Ok acc' → I acc'.
Proof.
  revert acc. induction l as [|x l IH]; intros acc Hacc Hbody; simpl.
  - by intros [= <-].
  - destruct (body acc x) as [acc1|e] eqn:E; [|discriminate]. simpl.
    apply IH.
    + eapply Hbody; [apply list_elem_of_here|exact Hacc|exact E].
    + intros a y a' Hy. apply Hbody. by apply list_elem_of_further.
Qed.

Lemma tag_is_true el name : tag_is el name = true ↔ tag el = name.
Proof. apply String.eqb_eq. Qed.

Lemma tag_is_false el name : tag_is el name = false ↔ tag el ≠ name.
Proof. apply String.eqb_neq. Qed.

Lemma setattr_Ok self name value self' :
  setattr self name value = Ok self' → self' = <[name := value]> self.
Proof.
  unfold setattr. destruct (_ || _); [discriminate|].
  destruct (String.eqb name "__weakref__"); [discriminate|]. by intros [= <-].
Qed.

Lemma PfamMatch_instance element m :
  PfamMatch element = Ok m → is_instance "PfamMatch" m = true.
Proof.
  unfold PfamMatch. destruct (for_each _ _ _); [|discriminate].
  by intros [= <-].
Qed.

(** Appending a match touches [matches] alone and keeps it a list of
    instances of [PfamMatch]. *)
Lemma PfamProtein_append_frame name self x self' :
  name ≠ "matches" → PfamProtein_append self x = Ok self' →
  self' !! name = self !! name.
Proof.
  intros Hn. unfold PfamProtein_append.
  destruct (self !! "matches") as [[]|]; try discriminate.
  destruct (PfamMatch x); [|discriminate]. simpl. intros [= <-].
  by rewrite lookup_insert_ne.
Qed.

Lemma PfamProtein_append_matches self x self' :
  (∃ ms, self !! "matches" = Some (VList ms)
         ∧ Forall (fun m => is_instance "PfamMatch" m = true) ms) →
  PfamProtein_append self x = Ok self' →
  ∃ ms, self' !! "matches" = Some (VList ms)
        ∧ Forall (fun m => is_instance "PfamMatch" m = true) ms.
Proof.
  intros (ms & Hms & Hall). unfold PfamProtein_append. rewrite Hms.
  destruct (PfamMatch x) as [m|] eqn:Em; [|discriminate]. simpl. intros [= <-].
  eexists. rewrite lookup_insert_eq. split; [reflexivity|].
  apply Forall_app. split; [exact Hall|]. constructor; [|constructor].
  by apply (PfamMatch_instance x).
Qed.

(** The taxonomy branch sets [taxonomy] from the text, which is a string. *)
Lemma PfamProtein_body_taxonomy self el self' :
  tag el = "taxonomy" → PfamProtein_body self el = Ok self' →
  ∃ t, text el = VStr t ∧
       self' !! "taxonomy"
       = Some (VList (List.map VStr (str_split "; " (str_rstrip (is_char ".") t)))).
Proof.
  intros Ht. unfold PfamProtein_body. rewrite (proj2 (tag_is_true _ _) Ht).
  destruct (text el) as [| |t| | | |]; try discriminate. simpl.
  intros [= <-]. exists t. split; [reflexivity|]. apply lookup_insert_eq.
Qed.

(** Every other branch leaves [taxonomy] as it is. *)
Lemma PfamProtein_body_taxonomy_frame self el self' :
  tag el ≠ "taxonomy" → PfamProtein_body self el = Ok self' →
  self' !! "taxonomy" = self !! "taxonomy".
Proof.
  intros Ht. unfold PfamProtein_body. rewrite (proj2 (tag_is_false _ _) Ht).
  destruct (tag_is el "sequence").
  { intros [= <-]. by rewrite !lookup_insert_ne. }
  destruct (tag_is el "matches").
  { apply (for_each_inv PfamProtein_append
             (fun s => s !! "taxonomy" = self !! "taxonomy")); [reflexivity|].
    intros b x b' _ <-. by apply PfamProtein_append_frame. }
  intros ->%setattr_Ok. by rewrite lookup_insert_ne.
Qed.

Lemma str_in_cons name k l :
  str_in name (k :: l) = String.eqb name k || str_in name l.
Proof. reflexivity. Qed.

(** A child changes no attribute but those it assigns. *)
Lemma PfamProtein_body_frame name self el self' :
  assigns_Protein name el = false → PfamProtein_body self el = Ok self' →
  self' !! name = self !! name.
Proof.
  unfold assigns_Protein, PfamProtein_body.
  destruct (tag_is el "taxonomy").
  { rewrite !str_in_cons. intros [H1 [H2 [H3 _]%orb_false_elim]%orb_false_elim]%orb_false_elim.
    apply String.eqb_neq in H1, H2, H3.
    destruct (taxonomy_of_text _); [|discriminate]. simpl. intros [= <-].
    by rewrite !lookup_insert_ne. }
  destruct (tag_is el "sequence").
  { rewrite !str_in_cons. intros [H1 [H2 _]%orb_false_elim]%orb_false_elim.
    apply String.eqb_neq in H1, H2. intros [= <-]. by rewrite !lookup_insert_ne. }
  destruct (tag_is el "matches") eqn:Em.
  { apply tag_is_true in Em. rewrite Em. intros Hn%String.eqb_neq.
    apply (for_each_inv PfamProtein_append (fun s => s !! name = self !! name));
      [reflexivity|].
    intros b x b' _ <-. by apply PfamProtein_append_frame. }
  intros Hn%String.eqb_neq ->%setattr_Ok. by rewrite lookup_insert_ne.
Qed.

Lemma assigns_Protein_method el :
  tag el ≠ "fetch_family" → assigns_Protein "fetch_family" el = false.
Proof.
  intros Ht. unfold assigns_Protein.
  destruct (tag_is el "taxonomy"); [reflexivity|].
  destruct (tag_is el "sequence"); [reflexivity|].
  apply String.eqb_neq. congruence.
Qed.

(** The mapped taxonomy comes from the last [taxonomy] child. *)
Lemma PfamProtein_taxonomy rv rd entry p pre el post :
  PfamProtein rv rd entry = Ok p →
  children entry = (pre ++ el :: post)%list →
  tag el = "taxonomy" →
  Forall (fun e => tag e ≠ "taxonomy") post →
  ∃ t, text el = VStr t ∧
       getattr p "taxonomy"
       = Ok (VList (List.map VStr (str_split "; " (str_rstrip (is_char ".") t)))).
Proof.
  unfold PfamProtein. intros Hp Hc Ht Hpost. rewrite Hc, for_each_app in Hp.
  destruct (for_each PfamProtein_body _ pre) as [self1|] eqn:E1; [|discriminate].
  simpl in Hp.
  destruct (PfamProtein_body self1 el) as [self2|] eqn:E2; [|discriminate].
  simpl in Hp.
  destruct (for_each PfamProtein_body self2 post) as [self3|] eqn:E3; [|discriminate].
  simpl in Hp.
  destruct (PfamProtein_body_taxonomy _ _ _ Ht E2) as (t & Htx & Hl).
  exists t. split; [exact Htx|].
  assert (H3 : self3 !! "taxonomy" = self2 !! "taxonomy").
  { revert E3. apply (for_each_inv PfamProtein_body
                        (fun s => s !! "taxonomy" = self2 !! "taxonomy"));
      [reflexivity|].
    intros a x a' Hx Ha Hb. rewrite <- Ha.
    apply (PfamProtein_body_taxonomy_frame _ x); [|exact Hb].
    by apply (proj1 (Forall_forall _ _) Hpost). }
  unfold with_entry in Hp. destruct (getattr _ "description"); [|discriminate].
  simpl in Hp. injection Hp as <-. simpl.
  by rewrite lookup_insert_ne, H3, Hl.
Qed.

(** The matches of a mapped protein are instances of [PfamMatch]. *)
Lemma PfamProtein_matches rv rd entry p :
  PfamProtein rv rd entry = Ok p →
  ∃ attrs ms, p = VObj "PfamProtein" attrs ∧
              attrs !! "matches" = Some (VList ms) ∧
              Forall (fun m => is_instance "PfamMatch" m = true) ms.
Proof.
  unfold PfamProtein. intros Hp.
  destruct (for_each PfamProtein_body _ (children entry)) as [self|] eqn:E;
    [|discriminate].
  simpl in Hp. unfold with_entry in Hp.
  destruct (getattr _ "description"); [|discriminate].
  simpl in Hp. injection Hp as <-.
  assert (H : ∃ ms, self !! "matches" = Some (VList ms) ∧
                    Forall (fun m => is_instance "PfamMatch" m = true) ms).
  { revert E.
    apply (for_each_inv PfamProtein_body
             (fun s => ∃ ms, s !! "matches" = Some (VList ms) ∧
                             Forall (fun m => is_instance "PfamMatch" m = true) ms)).
    - exists []. split; [reflexivity|constructor].
    - intros s x s' _ (ms & Hms & Hall). unfold PfamProtein_body.
      destruct (tag_is x "taxonomy").
      { destruct (taxonomy_of_text _); [|discriminate]. simpl. intros [= <-].
        exists ms. by rewrite !lookup_insert_ne. }
      destruct (tag_is x "sequence").
      { intros [= <-]. exists ms. by rewrite !lookup_insert_ne. }
      destruct (tag_is x "matches") eqn:Em.
      { apply (for_each_inv PfamProtein_append
                 (fun s => ∃ ms, s !! "matches" = Some (VList ms) ∧
                                 Forall (fun m => is_instance "PfamMatch" m = true) ms)).
        - by exists ms.
        - intros b y b' _. apply PfamProtein_append_matches. }
      intros ->%setattr_Ok. exists ms. apply tag_is_false in Em.
      by rewrite lookup_insert_ne. }
  destruct H as (ms & Hms & Hall). eexists _, ms. split; [reflexivity|].
  split; [|exact Hall]. by rewrite lookup_insert_ne.
Qed.

(** A protein mapped from an entry without a child tagged [fetch_family]
    has no instance attribute of that name. *)
Lemma PfamProtein_unshadowed rv rd entry cls attrs :
  PfamProtein rv rd entry = Ok (VObj cls attrs) →
  Forall (fun el => tag el ≠ "fetch_family") (children entry) →
  attrs !! "fetch_family" = None.
Proof.
  unfold PfamProtein. intros Hp Hno.
  destruct (for_each PfamProtein_body _ (children entry)) as [self|] eqn:E;
    [|discriminate].
  simpl in Hp. unfold with_entry in Hp.
  destruct (getattr _ "description"); [|discriminate].
  simpl in Hp. injection Hp as <- <-. rewrite lookup_insert_ne by done.
  revert E. apply (for_each_inv PfamProtein_body (fun s => s !! "fetch_family" = None));
    [reflexivity|].
  intros s x s' Hx Hs Hb. rewrite <- Hs.
  apply (PfamProtein_body_frame _ _ x); [|exact Hb].
  apply assigns_Protein_method. by apply (proj1 (Forall_forall _ _) Hno).
Qed.

(** ** Derived fetches *)

Lemma val_eq_str_true v s : val_eq_str v s = true ↔ v = VStr s.
Proof.
  destruct v; simpl; try (split; [discriminate|intros [=]]).
  rewrite String.eqb_eq. split; [by intros ->|by intros [= ->]].
Qed.

Lemma val_eq_str_false v s : v ≠ VStr s → val_eq_str v s = false.
Proof.
  intros H. destruct (val_eq_str v s) eqn:E; [|reflexivity].
  by apply val_eq_str_true in E.
Qed.

Section Fetch.

Variable w : World.


(** C9. [fetch] on an entry whose kind is none of ['Pfam-A'], ['Clan'] and
    ['sequence'] returns [None]: nothing is raised and the state, with
    its trace of network requests, is the one before the call. The three
    kinds dispatch to [family], [clan] and [protein] on the accession. *)
Theorem PfamEntry_fetch_dispatch cls attrs t σ :
  attrs !! "type" = Some t →
  (t ≠ VStr "Pfam-A" → t ≠ VStr "Clan" → t ≠ VStr "sequence" →
   PfamEntry_fetch w (VObj cls attrs) σ = (Ok VNone, σ))
  ∧ (∀ accession, attrs !! "accession" = Some accession →
       (t = VStr "Pfam-A" → PfamEntry_fetch w (VObj cls attrs) σ = family w accession σ)
       ∧ (t = VStr "Clan" → PfamEntry_fetch w (VObj cls attrs) σ = clan w accession σ)
       ∧ (t = VStr "sequence" → PfamEntry_fetch w (VObj cls attrs) σ = protein w accession σ)).
Proof.
  intros Ht.
  assert (Hstart : ∀ k : val → M val,
             (type ← lift (getattr (VObj cls attrs) "type"); k type) σ = k t σ).
  { intros k. unfold mbind, M_bind, lift. simpl. by rewrite Ht. }
  assert (Hacc : ∀ accession (k : val → M val),
             attrs !! "accession" = Some accession →
             (a ← lift (getattr (VObj cls attrs) "accession"); k a) σ = k accession σ).
  { intros a k Ha. unfold mbind, M_bind, lift. simpl. by rewrite Ha. }
  unfold PfamEntry_fetch. rewrite Hstart. split.
  - intros H1 H2 H3. by rewrite !val_eq_str_false.
  - intros accession Ha. repeat split; intros ->; simpl; by rewrite (Hacc _ _ Ha).
Qed.

(** C8, as the code has it. On a protein that has no instance attribute
    named [fetch_family], [fetch_family] returns [None] when the list of
    matches is empty, raising nothing and leaving the state, and so the
    trace of network requests, as it was; with a first match, an instance
    of [PfamMatch], the call is that match's [fetch_family]. Every protein
    mapped from an entry without a child tagged [fetch_family] is in one of
    the two cases. *)
Theorem PfamProtein_fetch_family_matches cls attrs σ :
  (attrs !! "fetch_family" = None →
   attrs !! "matches" = Some (VList []) →
   PfamProtein_fetch_family w (VObj cls attrs) σ = (Ok VNone, σ))
  ∧ (∀ m ms, attrs !! "fetch_family" = None →
             attrs !! "matches" = Some (VList (m :: ms)) →
             is_instance "PfamMatch" m = true →
             PfamProtein_fetch_family w (VObj cls attrs) σ = PfamMatch_fetch_family w m σ)
  ∧ (∀ release_version release_date entry p,
       PfamProtein release_version release_date entry = Ok p →
       Forall (fun el => tag el ≠ "fetch_family") (children entry) →
       ∃ ms, getattr p "matches" = Ok (VList ms)
             ∧ PfamProtein_fetch_family w p σ
               = match ms with
                 | [] => (Ok VNone, σ)
                 | m :: _ => PfamMatch_fetch_family w m σ
                 end).
Proof.
  assert (Hnil : ∀ c a, a !! "fetch_family" = None →
                        a !! "matches" = Some (VList []) →
                        PfamProtein_fetch_family w (VObj c a) σ = (Ok VNone, σ)).
  { intros c a Hf H. unfold PfamProtein_fetch_family, mbind, M_bind, lift.
    simpl. by rewrite Hf, H. }
  assert (Hcons : ∀ c a m ms, a !! "fetch_family" = None →
                              a !! "matches" = Some (VList (m :: ms)) →
                              is_instance "PfamMatch" m = true →
                              PfamProtein_fetch_family w (VObj c a) σ
                              = PfamMatch_fetch_family w m σ).
  { intros c a m ms Hf H Hm. unfold PfamProtein_fetch_family, mbind, M_bind, lift.
    simpl. rewrite Hf, H. simpl. by rewrite Hm. }
  split; [apply Hnil|]. split; [apply Hcons|].
  intros rv rd entry p Hp Hno.
  destruct (PfamProtein_matches _ _ _ _ Hp) as (a & ms & -> & Hms & Hall).
  pose proof (PfamProtein_unshadowed _ _ _ _ _ Hp Hno) as Hf.
  exists ms. split; [simpl; by rewrite Hms|].
  destruct ms as [|m ms]; [by apply Hnil|].
  apply (Hcons _ _ _ _ Hf Hms). by apply Forall_cons in Hall as [Hm _].
Qed.

End Fetch.

(** C8, as the specification words it, fails: the protein mapped from an
    entry with an empty child tagged [fetch_family] has no matches, and the
    call of [fetch_family] on it raises [TypeError], the attribute that
    [setattr] stored standing where the method was. *)
Lemma PfamProtein_fetch_family_shadowed :
  let p := mapped_protein [shadow_elem] in
  is_instance "PfamProtein" p = true
  ∧ getattr p "matches" = Ok (VList [])
  ∧ getattr p "fetch_family" = Ok VNone
  ∧ PfamProtein_fetch_family (serve family_body family_doc) p initial_state
    = (Raise TypeError, initial_state).
Proof. vm_compute. repeat split. Qed.

(** A request that returns has parsed the body of a response that is no
    error, or has returned the body as it is. *)
Lemma request_ok_inv w path params headers timeout σ r σ' :
  request w path params headers timeout σ = (Ok r, σ') →
  ∃ d response,
    heap σ !! default default_params params = Some d
    ∧ requests_get w (trace σ) (base_url ++ path) (with_output d) headers timeout
      = Ok response
    ∧ ((∃ root, fromstring w (re_sub_xmlns (response_text response)) = Some root
                ∧ r = inl (xml_process_tree root))
       ∨ r = inr (response_text response)).
Proof.
  destruct (heap σ !! default default_params params) as [d|] eqn:Hd.
  - rewrite (request_unfold _ _ _ _ _ _ _ Hd). cbv zeta. intros H.
    exists d. destruct (requests_get _ _ _ _ _ _) as [response|]; [|discriminate].
    exists response. split; [reflexivity|]. split; [reflexivity|].
    destruct (is_error_status _); [discriminate|].
    destruct (val_eq_str _ _); [|right; congruence].
    destruct (fromstring _ _) as [root|]; [|discriminate].
    destruct (String.eqb _ _); [discriminate|].
    left. exists root. split; [reflexivity|congruence].
  - unfold request, mbind, M_bind, dict_setdefault. rewrite Hd. discriminate.
Qed.

Lemma map_root_inv ctor r p :
  map_root ctor r = Ok p →
  ∃ root entry rest release_date,
    r = inl root ∧ children root = entry :: rest
    ∧ ctor (Element_get root "release") release_date entry = Ok p.
Proof.
  unfold map_root. destruct r as [root|]; simpl; [|discriminate].
  destruct (strptime_Ymd _) as [release_date|]; simpl; [|discriminate].
  unfold first_child. destruct (children root) as [|entry rest] eqn:Hc; simpl;
    [discriminate|].
  intros H. exists root, entry, rest, release_date. by rewrite Hc.
Qed.

(** C5, as the code has it. When [protein] returns a protein, the server
    has answered with a body that parses to a document whose first child,
    once normalized, is the entry mapped; the lineage comes from the last
    [taxonomy] child of that entry: its normalized text is a string, every
    trailing ['.'] is removed from it, and what is left is split at
    ['; ']. *)
Theorem protein_taxonomy_lineage w id σ p σ' :
  protein w id σ = (Ok p, σ') →
  ∃ accession d response root entry rest,
    id = VStr accession
    ∧ heap σ !! default_params = Some d
    ∧ requests_get w (trace σ) (base_url ++ "/protein/" ++ accession)
                   (with_output d) VNone VNone = Ok response
    ∧ fromstring w (re_sub_xmlns (response_text response)) = Some root
    ∧ children (xml_process_tree root) = entry :: rest
    ∧ ∀ pre el post,
        children entry = (pre ++ el :: post)%list →
        tag el = "taxonomy" →
        Forall (fun e => tag e ≠ "taxonomy") post →
        ∃ t, text el = VStr t ∧
             getattr p "taxonomy"
             = Ok (VList (List.map VStr (str_split "; " (str_rstrip (is_char ".") t)))).
Proof.
  unfold protein, mbind, M_bind, lift.
  destruct id as [| |accession| | | |]; try discriminate. cbn [str_add].
  destruct (request _ _ _ _ _ _) as [[r|] σ1] eqn:Hreq; [|discriminate].
  destruct (map_root PfamProtein r) as [p'|] eqn:Hmap; [|discriminate].
  intros [= -> ->].
  apply request_ok_inv in Hreq as (d & response & Hd & Hget & Hr).
  apply map_root_inv in Hmap as (root' & entry & rest & rd & -> & Hch & Hp).
  destruct Hr as [(root & Hparse & [= ->])|[=]].
  exists accession, d, response, root, entry, rest.
  repeat (split; [done|]).
  intros pre el post. by apply (PfamProtein_taxonomy _ _ _ _ _ _ _ Hp).
Qed.

(** C5, as the specification words it, fails: of two trailing full stops
    the code removes both, the specification one. *)
Lemma protein_taxonomy_two_dots :
  let p := (protein (serve (protein_body lineage_sp) (protein_doc lineage_sp []))
                    (VStr "P12345") initial_state).1 in
  attr_of p "taxonomy"
    = Ok (VList [VStr "Bacteria"; VStr "Firmicutes"; VStr "Bacillus sp"])
  ∧ spec_taxonomy lineage_sp
    = [VStr "Bacteria"; VStr "Firmicutes"; VStr "Bacillus sp."]
  ∧ attr_of p "taxonomy" ≠ Ok (VList (spec_taxonomy lineage_sp)).
Proof. vm_compute. repeat (split; [reflexivity|]). discriminate. Qed.

(** C1. On the synthetic family response the mapped family has the seed and
    full counts as the floats 10.0 and 20.0, and its release version is the
    float 33.1, not the string ['33.1']: the tree normalizer has rewritten
    the [release] attribute of the root before [family] reads it. *)
Theorem family_release_version_float :
  let fam := (family (serve family_body family_doc)
                     (VStr "PF00001") initial_state).1 in
  attr_of (attr_of fam "curation_details") "num_seqs_seed" = Ok (VFloat (float_of_Z 10))
  ∧ attr_of (attr_of fam "curation_details") "num_seqs_full" = Ok (VFloat (float_of_Z 20))
  ∧ attr_of fam "pfam_release_date" = Ok (VDatetime 2022 2 1)
  ∧ attr_of fam "pfam_release_version" = Ok (VFloat float_33_1)
  ∧ attr_of fam "pfam_release_version" ≠ Ok (VStr "33.1").
Proof. vm_compute. repeat (split; [reflexivity|]). discriminate. Qed.

(** * The properties on concrete inputs *)

(** A float, blank text, a number and a word through the normalizer. *)
Lemma xml_process_value_spec_witness :
  xml_process_value (VFloat (float_of_Z 7)) = VFloat (float_of_Z 7)
  ∧ xml_process_value (VStr "   ") = VNone
  ∧ xml_process_value (VStr " 33.1 ") = VFloat float_33_1
  ∧ xml_process_value (VStr " oops ") = VStr "oops".
Proof.
  destruct (xml_process_value_spec (VFloat (float_of_Z 7)) "   ")
    as (_ & Hid & _ & Hspace & _).
  destruct (xml_process_value_spec VNone " 33.1 ")
    as (_ & _ & _ & _ & _ & _ & _ & Hfloat).
  destruct (xml_process_value_spec VNone " oops ")
    as (_ & _ & _ & _ & _ & Hstr & _).
  split; [apply Hid; discriminate|].
  split; [apply Hspace; reflexivity|].
  split; [apply (proj1 (Hfloat float_33_1 ltac:(vm_compute; reflexivity)))|].
  apply Hstr; [discriminate|reflexivity].
Defined.

(** The error document [<error>oops</error>] with status 200. *)
Lemma request_error_document_witness :
  (request (serve error_body error_doc) "/family/PF00001" None VNone VNone
           initial_state).1
    = Raise (Exception_ (VStr "oops"))
  ∧ (family (serve error_body error_doc) (VStr "PF00001") initial_state).1
    = Raise (Exception_ (VStr "oops")).
Proof.
  assert (H200 : 200 ≤ status_code (mkResponse 200 error_body) < 300)
    by (simpl; lia).
  destruct (request_error_document (serve error_body error_doc)
              "/family/PF00001" None VNone VNone initial_state ∅
              (mkResponse 200 error_body) error_doc
              eq_refl (or_introl eq_refl) eq_refl H200 eq_refl eq_refl)
    as (Hreq & _ & Hfam).
  split.
  - rewrite Hreq. reflexivity.
  - apply (Hfam "PF00001"); reflexivity.
Defined.

(** The first call without [params] leaves ['output'] in the default
    dictionary, here although the call raises. *)
Lemma request_mutates_params_witness :
  heap (request (serve error_body error_doc) "/family/PF00001" None VNone VNone
                initial_state).2 !! default_params
  = Some (<["output" := VStr "xml"]> ∅).
Proof.
  pose proof (request_mutates_params (serve error_body error_doc)
                "/family/PF00001" None VNone VNone initial_state ∅
                eq_refl eq_refl) as H.
  cbv zeta in H. exact (proj1 H).
Defined.

(** An entry of kind ['Pfam-B']. *)
Lemma PfamEntry_fetch_dispatch_witness :
  PfamEntry_fetch (serve error_body error_doc)
    (PfamEntry (VStr "Pfam-B") (VStr "Pfam-B_1") (VStr "PB000001") VNone)
    initial_state
  = (Ok VNone, initial_state).
Proof.
  refine (proj1 (PfamEntry_fetch_dispatch (serve error_body error_doc)
                   "PfamEntry"
                   (obj_attrs (PfamEntry (VStr "Pfam-B") (VStr "Pfam-B_1")
                                         (VStr "PB000001") VNone))
                   (VStr "Pfam-B") initial_state _) _ _ _);
    [vm_compute; reflexivity|discriminate..].
Defined.

(** A mapped protein without matches, and one with a match. *)
Lemma PfamProtein_fetch_family_matches_witness :
  PfamProtein_fetch_family (serve family_body family_doc)
    (VObj "PfamProtein" (obj_attrs (mapped_protein []))) initial_state
  = (Ok VNone, initial_state)
  ∧ ∃ m, PfamProtein_fetch_family (serve family_body family_doc)
           (VObj "PfamProtein" (obj_attrs (mapped_protein [matches_elem])))
           initial_state
         = PfamMatch_fetch_family (serve family_body family_doc) m initial_state.
Proof.
  split.
  - apply (PfamProtein_fetch_family_matches (serve family_body family_doc)
             "PfamProtein" (obj_attrs (mapped_protein [])) initial_state).
    + vm_compute. reflexivity.
    + vm_compute. reflexivity.
  - eexists.
    apply (proj1 (proj2 (PfamProtein_fetch_family_matches
                           (serve family_body family_doc) "PfamProtein"
                           (obj_attrs (mapped_protein [matches_elem]))
                           initial_state))
             (value_of (PfamMatch (xml_process_tree
                                     (hd matches_elem (children matches_elem)))))
             []).
    + vm_compute. reflexivity.
    + vm_compute. reflexivity.
    + reflexivity.
Defined.

(** The one line [PF00001 <tab> FAMILY1 <tab> some description]. *)
Lemma families_entries_witness :
  (families (serve_text families_body) initial_state).1
  = Ok [PfamEntry (VStr "Pfam-A") (VStr "FAMILY1") (VStr "PF00001")
                  (VStr "some description")].
Proof.
  destruct (families_entries (serve_text families_body) initial_state
              (mkResponse 200 families_body) eq_refl eq_refl) as [H _].
  rewrite H. vm_compute. reflexivity.
Defined.

(** Two sequences with an empty line between them: three names. *)
Lemma proteins_names_witness :
  (proteins (serve_text alignment_body) (VStr "PF00001") initial_state).1
  = Ok [VStr "A0A009"; VStr EmptyString; VStr "B1B118"].
Proof.
  rewrite (proteins_names (serve_text alignment_body) initial_state
             "PF00001" (mkResponse 200 alignment_body) eq_refl eq_refl).
  vm_compute. reflexivity.
Defined.

(** The lineage [Bacteria; Firmicutes.] *)
Lemma protein_taxonomy_lineage_witness :
  attr_of (protein (serve (protein_body "Bacteria; Firmicutes.")
                          (protein_doc "Bacteria; Firmicutes." []))
                   (VStr "P12345") initial_state).1 "taxonomy"
  = Ok (VList [VStr "Bacteria"; VStr "Firmicutes"]).
Proof.
  destruct (protein (serve (protein_body "Bacteria; Firmicutes.")
                           (protein_doc "Bacteria; Firmicutes." []))
                    (VStr "P12345") initial_state) as [[p|e] σ'] eqn:Hrun;
    [|vm_compute in Hrun; discriminate].
  destruct (protein_taxonomy_lineage _ _ _ _ _ Hrun)
    as (accession & d & response & root & entry & rest
        & _ & _ & Hget & Hparse & Hch & Htax).
  injection Hget as <-. vm_compute in Hparse. injection Hparse as <-.
  destruct (Htax
              [xml_process_tree
                 (elem "description" [] (VStr "A synthetic protein") [])]
              (xml_process_tree
                 (elem "taxonomy" [("tax_id", VStr "1423");
                                   ("species_name", VStr "Bacillus subtilis")]
                       (VStr "Bacteria; Firmicutes.") []))
              [xml_process_tree
                 (elem "sequence" [("version", VStr "1")] (VStr "MKVLA") [])])
    as (t & Ht & Hp).
  - injection Hch as <- _. reflexivity.
  - reflexivity.
  - repeat constructor. discriminate.
  - vm_compute in Ht. injection Ht as <-. simpl. rewrite Hp.
    vm_compute. reflexivity.
Defined.

(** * Further properties *)

(** ** What the normalizers leave *)

Lemma xml_process_value_image v : normalized (xml_process_value v).
Proof.
  destruct v; try exact I.
  rewrite xml_process_value_str.
  destruct (String.eqb (str_strip s) EmptyString) eqn:E; [exact I|].
  destruct (py_float (str_strip s)) eqn:F; [exact I|].
  simpl. split; [apply str_strip_idem|]. split; [|exact F].
  by apply String.eqb_neq.
Qed.

(** X1. Whatever it is given, the scalar normalizer returns a normalized
    value: never an empty string, never a string with white space at an
    end, never a string that [float] would read. The normalized values are
    exactly the values it leaves as they are. *)
Theorem xml_process_value_normalized v :
  normalized (xml_process_value v)
  ∧ (normalized v ↔ xml_process_value v = v).
Proof.
  split; [apply xml_process_value_image|]. split.
  - destruct v; try reflexivity. intros (Hs & Hne & Hf).
    rewrite xml_process_value_str, Hs, Hf.
    by destruct (String.eqb_spec s EmptyString).
  - intros <-. apply xml_process_value_image.
Qed.

Lemma tree_Forall_children P c :
  fold_right (fun e' rest => tree_Forall P e' ∧ rest) True c
  ↔ Forall (tree_Forall P) c.
Proof.
  induction c as [|e c IH]; simpl.
  - split; [constructor|done].
  - rewrite IH. split; [intros [? ?]; by constructor|by intros [? ?]%Forall_cons].
Qed.

Lemma xml_process_tree_normalized e : tree_Forall normalized (xml_process_tree e).
Proof.
  induction e as [t a x tl c IH] using Element_ind'. simpl.
  split; [apply xml_process_value_image|]. split.
  - rewrite process_attrib_fmap. apply map_Forall_fmap.
    intros k v _. apply xml_process_value_image.
  - apply tree_Forall_children, Forall_fmap. exact IH.
Qed.

Lemma xml_process_tree_idem e :
  xml_process_tree (xml_process_tree e) = xml_process_tree e.
Proof.
  induction e as [t a x tl c IH] using Element_ind'. simpl.
  rewrite process_attrib_idem, xml_process_value_idem. f_equal.
  rewrite List.map_map. induction IH as [|e l He _ IHl]; simpl; [reflexivity|].
  by rewrite He, IHl.
Qed.

Section Envelope.

Variable w : World.

(** X2. An element returned by [request] is normalized throughout: the
    text and every attribute value of every element is normalized, running
    the tree normalizer on it again changes nothing, and its root is not
    tagged [error]. *)
Theorem request_returns_normalized path params headers timeout σ root σ' :
  request w path params headers timeout σ = (Ok (inl root), σ') →
  tree_Forall normalized root
  ∧ xml_process_tree root = root
  ∧ tag root ≠ "error".
Proof.
  intros H.
  destruct (heap σ !! default default_params params) as [d|] eqn:Hd.
  - rewrite (request_unfold _ _ _ _ _ _ _ Hd) in H. cbv zeta in H.
    destruct (requests_get _ _ _ _ _ _) as [response|]; [|discriminate].
    destruct (is_error_status _); [discriminate|].
    destruct (val_eq_str _ _); [|discriminate].
    destruct (fromstring _ _) as [raw|]; [|discriminate].
    destruct (String.eqb (tag raw) "error") eqn:E; [discriminate|].
    injection H as <- _. split; [apply xml_process_tree_normalized|].
    split; [apply xml_process_tree_idem|].
    apply String.eqb_neq in E. by destruct raw.
  - unfold request, mbind, M_bind, dict_setdefault in H. rewrite Hd in H.
    discriminate.
Qed.

End Envelope.

(** ** The transport envelope, further *)

Section Envelope2.

Variable w : World.

(** X3. A call of [request] makes exactly one network request, whatever
    its outcome: the trace gains one [GET] of the base URL followed by the
    path, with the dictionary as [setdefault] left it, and after it one run
    of the tree normalizer exactly when an element is returned. *)
Theorem request_one_round_trip path params headers timeout σ d :
  heap σ !! default default_params params = Some d →
  trace (request w path params headers timeout σ).2
  = (trace σ
     ++ EvGet (base_url ++ path) (with_output d) headers timeout
        :: match (request w path params headers timeout σ).1 with
           | Ok (inl _) => [EvProcessTree]
           | _ => []
           end)%list.
Proof.
  intros Hd. rewrite (request_unfold _ _ _ _ _ _ _ Hd). cbv zeta.
  destruct (requests_get _ _ _ _ _ _) as [response|]; [|reflexivity].
  destruct (is_error_status _); [reflexivity|].
  destruct (val_eq_str _ _); [|reflexivity].
  destruct (fromstring _ _) as [root|]; [|reflexivity].
  destruct (String.eqb _ _); [reflexivity|].
  simpl. by rewrite <- app_assoc.
Qed.

(** X4. Transport failures come first. An exception raised by
    [requests.get] is the outcome of [request]; a response with a status
    from 400 to 599 raises [HTTPError] whatever its body is, be it an error
    document or no XML at all. *)
Theorem request_transport_failure path params headers timeout σ d :
  heap σ !! default default_params params = Some d →
  (∀ e, requests_get w (trace σ) (base_url ++ path) (with_output d) headers timeout
        = Raise e →
        (request w path params headers timeout σ).1 = Raise e)
  ∧ (∀ response,
       requests_get w (trace σ) (base_url ++ path) (with_output d) headers timeout
       = Ok response →
       400 ≤ status_code response < 600 →
       (request w path params headers timeout σ).1
       = Raise (HTTPError (status_code response))).
Proof.
  intros Hd. rewrite (request_unfold _ _ _ _ _ _ _ Hd). cbv zeta. split.
  - intros e ->. reflexivity.
  - intros response -> Hst.
    assert (is_error_status (status_code response) = true) as ->
      by (unfold is_error_status; lia).
    reflexivity.
Qed.

(** X5. The kind of result is decided by the dictionary alone: text is
    returned only when ['output'] is set to something other than ['xml'],
    and is then the body of the response, untouched; an element is
    returned only when ['output'] is ['xml']. *)
Theorem request_result_kind path params headers timeout σ d :
  heap σ !! default default_params params = Some d →
  (∀ body, (request w path params headers timeout σ).1 = Ok (inr body) →
           (∃ o, d !! "output" = Some o ∧ o ≠ VStr "xml")
           ∧ ∃ response,
               requests_get w (trace σ) (base_url ++ path) d headers timeout
               = Ok response
               ∧ body = response_text response)
  ∧ (∀ root, (request w path params headers timeout σ).1 = Ok (inl root) →
             with_output d !! "output" = Some (VStr "xml")).
Proof.
  intros Hd. rewrite (request_unfold _ _ _ _ _ _ _ Hd). cbv zeta.
  destruct (with_output_lookup d) as [o Ho]. rewrite Ho.
  change (default VNone (Some o)) with o.
  destruct (requests_get _ _ _ _ _ _) as [response|] eqn:Hget;
    [|split; intros ?; discriminate].
  destruct (is_error_status _); [split; intros ?; discriminate|].
  destruct (val_eq_str o "xml") eqn:Hx.
  - apply val_eq_str_true in Hx as ->. split.
    + intros body. destruct (fromstring _ _); [|discriminate].
      by destruct (String.eqb _ _).
    + done.
  - split; [|intros ?; discriminate].
    intros body [= <-].
    assert (Hne : o ≠ VStr "xml").
    { intros ->. vm_compute in Hx. discriminate. }
    unfold with_output in *. destruct (d !! "output") as [o'|] eqn:Hdo.
    + rewrite Hdo in Ho. injection Ho as ->. split; [by exists o|].
      by exists response.
    + rewrite lookup_insert_eq in Ho. by injection Ho as <-.
Qed.

End Envelope2.

(** ** The namespace substitution *)

Lemma str_app_assoc (a b c : string) : (a ++ b) ++ c = a ++ b ++ c.
Proof.
  induction a as [|x a IH]; [reflexivity|].
  by rewrite !str_app_cons, IH.
Qed.

Lemma str_strip_prefix_Some p s r : str_strip_prefix p s = Some r → s = p ++ r.
Proof.
  revert s. induction p as [|a p IH]; intros s; simpl.
  - by intros [= ->].
  - destruct s as [|b s]; [discriminate|].
    destruct (Ascii.eqb a b) eqn:E; [|discriminate].
    apply Ascii.eqb_eq in E as ->. intros H. by rewrite str_app_cons, (IH _ H).
Qed.

Lemma str_strip_prefix_app p r : str_strip_prefix p (p ++ r) = Some r.
Proof.
  induction p as [|a p IH]; [reflexivity|].
  rewrite str_app_cons. simpl. by rewrite Ascii.eqb_refl.
Qed.

Lemma match_until_quote_Some s seen rest :
  match_until_quote s seen = Some rest →
  ∃ ns, s = ns ++ String dquote rest ∧ str_free dquote ns = true
        ∧ (seen = false → ns ≠ EmptyString).
Proof.
  revert seen. induction s as [|a s IH]; intros seen; simpl; [discriminate|].
  unfold is_char. destruct (Ascii.eqb a dquote) eqn:E.
  - apply Ascii.eqb_eq in E as ->. destruct seen; [|discriminate].
    intros [= ->]. exists EmptyString. by repeat split.
  - intros H. destruct (IH _ H) as (ns & -> & Hfree & _).
    exists (String a ns). rewrite str_app_cons. repeat split; [|done].
    simpl. by rewrite E.
Qed.

Lemma match_until_quote_app ns rest seen :
  str_free dquote ns = true → (seen = false → ns ≠ EmptyString) →
  match_until_quote (ns ++ String dquote rest) seen = Some rest.
Proof.
  revert seen. induction ns as [|a ns IH]; intros seen Hfree Hne.
  - rewrite str_app_nil_l. simpl.
    destruct seen; [reflexivity|]. by destruct Hne.
  - rewrite str_app_cons. simpl in *. apply andb_prop in Hfree as [Ha Hns].
    unfold is_char. destruct (Ascii.eqb a dquote); [discriminate|].
    by apply IH.
Qed.

Lemma xmlns_decl_app ns post :
  xmlns_decl ns ++ post
  = (" xmlns=" ++ String dquote EmptyString) ++ ns ++ String dquote post.
Proof.
  unfold xmlns_decl. rewrite !str_app_assoc, !str_app_cons, !str_app_nil_l.
  by rewrite !str_app_assoc, !str_app_cons, !str_app_nil_l.
Qed.

Lemma match_xmlns_Some s rest :
  match_xmlns s = Some rest →
  ∃ ns, s = xmlns_decl ns ++ rest ∧ ns ≠ EmptyString ∧ str_free dquote ns = true.
Proof.
  unfold match_xmlns.
  destruct (str_strip_prefix _ s) as [r|] eqn:Hp; [|discriminate].
  apply str_strip_prefix_Some in Hp as ->.
  intros (ns & -> & Hfree & Hne)%match_until_quote_Some.
  exists ns. rewrite xmlns_decl_app. split; [reflexivity|]. split; [by apply Hne|done].
Qed.

Lemma match_xmlns_decl ns post :
  ns ≠ EmptyString → str_free dquote ns = true →
  match_xmlns (xmlns_decl ns ++ post) = Some post.
Proof.
  intros Hne Hfree. unfold match_xmlns.
  rewrite xmlns_decl_app, str_strip_prefix_app. by apply match_until_quote_app.
Qed.

Lemma re_sub_xmlns_cons a s :
  match_xmlns (String a s) = None →
  re_sub_xmlns (String a s) = String a (re_sub_xmlns s).
Proof. intros H. simpl re_sub_xmlns. by rewrite H. Qed.

Lemma re_sub_xmlns_match s rest :
  match_xmlns s = Some rest → re_sub_xmlns s = rest.
Proof.
  destruct s; [discriminate|]. intros H. simpl re_sub_xmlns. by rewrite H.
Qed.

(** X6. The substitution removes at most one piece of the text, and what
    it removes is a namespace declaration with a non-empty value free of
    double quotes. Where a declaration follows a prefix in which the
    pattern matches nowhere, it is that declaration which goes, and what
    comes after it, further declarations included, stays. *)
Theorem re_sub_xmlns_removes_one s :
  (re_sub_xmlns s = s
   ∨ ∃ pre ns post,
       s = pre ++ xmlns_decl ns ++ post ∧ ns ≠ EmptyString
       ∧ str_free dquote ns = true ∧ re_sub_xmlns s = pre ++ post)
  ∧ (∀ pre ns post,
       s = pre ++ xmlns_decl ns ++ post →
       ns ≠ EmptyString → str_free dquote ns = true →
       no_match_in pre (xmlns_decl ns ++ post) = true →
       re_sub_xmlns s = pre ++ post).
Proof.
  split.
  - induction s as [|a s IH]; [by left|].
    destruct (match_xmlns (String a s)) as [rest|] eqn:Hm.
    + right. destruct (match_xmlns_Some _ _ Hm) as (ns & Hs & Hne & Hfree).
      exists EmptyString, ns, rest. rewrite !str_app_nil_l.
      repeat split; try done. by apply re_sub_xmlns_match.
    + rewrite (re_sub_xmlns_cons _ _ Hm).
      destruct IH as [->|(pre & ns & post & -> & Hne & Hfree & ->)]; [by left|].
      right. exists (String a pre), ns, post. by rewrite !str_app_cons.
  - intros pre ns post -> Hne Hfree. induction pre as [|a pre IH].
    + intros _. rewrite !str_app_nil_l.
      pose proof (match_xmlns_decl ns post Hne Hfree) as Hm.
      by apply re_sub_xmlns_match.
    + cbn [no_match_in].
      destruct (match_xmlns (String a pre ++ xmlns_decl ns ++ post)) eqn:Hm;
        [discriminate|].
      intros Hpre. rewrite !str_app_cons in *.
      rewrite (re_sub_xmlns_cons _ _ Hm). by rewrite IH.
Qed.

(** ** Loops that assign attributes *)

Lemma setattr_spec self name value :
  setattr self name value
  = match setattr_error name with
    | Some e => Raise e
    | None => Ok (<[name := value]> self)
    end.
Proof.
  unfold setattr_error, setattr. destruct (_ || _); [reflexivity|].
  by destruct (String.eqb name "__weakref__").
Qed.

Lemma setattr_lookup self el self' name :
  setattr self (tag el) (text el) = Ok self' →
  self' !! name = if tag_is el name then Some (text el) else self !! name.
Proof.
  intros ->%setattr_Ok. destruct (tag_is el name) eqn:E.
  - apply tag_is_true in E as <-. apply lookup_insert_eq.
  - apply tag_is_false in E. by apply lookup_insert_ne.
Qed.

Lemma last_where_tagged name l :
  last_where (fun el => tag_is el name) l = last_tagged name l.
Proof. induction l as [|el l IH]; simpl; [reflexivity|]. by rewrite IH. Qed.

Lemma last_where_ext (P Q : Element → bool) l :
  (∀ el, el ∈ l → P el = Q el) → last_where P l = last_where Q l.
Proof.
  induction l as [|el l IH]; intros H; simpl; [reflexivity|].
  rewrite IH by (intros; apply H; by apply list_elem_of_further).
  by rewrite (H el (list_elem_of_here _ _)).
Qed.

Lemma last_where_Some (P : Element → bool) l e :
  last_where P l = Some e → e ∈ l ∧ P e = true.
Proof.
  induction l as [|el l IH]; simpl; [discriminate|].
  destruct (last_where P l) as [e'|].
  - intros [= ->]. destruct (IH eq_refl). split; [by apply list_elem_of_further|done].
  - destruct (P el) eqn:E; [|discriminate]. intros [= <-].
    split; [apply list_elem_of_here|done].
Qed.

Lemma last_where_None (P : Element → bool) l :
  last_where P l = None ↔ Forall (fun el => P el = false) l.
Proof.
  induction l as [|el l IH]; simpl; [split; [constructor|done]|].
  destruct (last_where P l) as [e|].
  - split; [discriminate|]. intros [_ H]%Forall_cons. by apply IH in H.
  - destruct (P el) eqn:E.
    + split; [discriminate|]. intros [H _]%Forall_cons. congruence.
    + split; [|done]. intros _. constructor; [done|]. by apply IH.
Qed.

(** An attribute that the loop body leaves alone but at the elements of
    which [P] holds, where it leaves it in the relation [R] to the
    element, ends as the last such element left it. *)
Lemma for_each_last_writer (body : dict → Element → res dict) key
      (P : Element → bool) (R : Element → option val → Prop) l self self' :
  (∀ s el s', el ∈ l → body s el = Ok s' →
              if P el then R el (s' !! key) else s' !! key = s !! key) →
  for_each body self l = Ok self' →
  match last_where P l with
  | Some e => R e (self' !! key)
  | None => self' !! key = self !! key
  end.
Proof.
  revert self. induction l as [|el l IH]; intros self Hbody; simpl.
  - by intros [= <-].
  - destruct (body self el) as [s1|] eqn:E; [|discriminate]. simpl. intros H.
    assert (Hl : ∀ s el' s', el' ∈ l → body s el' = Ok s' →
                if P el' then R el' (s' !! key) else s' !! key = s !! key).
    { intros s el' s' Hin. apply Hbody. by apply list_elem_of_further. }
    specialize (IH _ Hl H). destruct (last_where P l); [exact IH|].
    specialize (Hbody _ _ _ (list_elem_of_here _ _) E).
    destruct (P el); rewrite IH; exact Hbody.
Qed.

(** A loop whose body raises at an element or not whatever has been
    accumulated, as long as the invariant [I] holds: it raises the
    exception of the first element that has one. *)
Lemma for_each_first_error {A B : Type} (body : A → B → res A)
      (err : B → option exn) (I : A → Prop) l acc :
  I acc →
  (∀ a x, x ∈ l → I a →
          match err x with
          | Some e => body a x = Raise e
          | None => ∃ a', body a x = Ok a' ∧ I a'
          end) →
  match first_error err l with
  | Some e => for_each body acc l = Raise e
  | None => ∃ acc', for_each body acc l = Ok acc' ∧ I acc'
  end.
Proof.
  revert acc. induction l as [|x l IH]; intros acc Hacc Hbody; simpl; [eauto|].
  pose proof (Hbody acc x (list_elem_of_here _ _) Hacc) as Hx.
  destruct (err x) as [e|].
  - by rewrite Hx.
  - destruct Hx as (a' & -> & Ha'). simpl. apply IH; [exact Ha'|].
    intros a y Hy. apply Hbody. by apply list_elem_of_further.
Qed.

Lemma first_error_None {A : Type} (err : A → option exn) l :
  first_error err l = None ↔ Forall (fun x => err x = None) l.
Proof.
  induction l as [|x l IH]; simpl; [split; [constructor|done]|].
  destruct (err x) eqn:E.
  - split; [discriminate|]. intros [H _]%Forall_cons. congruence.
  - rewrite IH. split; [by constructor|by intros [_ ?]%Forall_cons].
Qed.

Lemma str_in_false_cons name k l :
  str_in name (k :: l) = false → name ≠ k ∧ str_in name l = false.
Proof.
  rewrite str_in_cons. intros [H1 H2]%orb_false_elim.
  by apply String.eqb_neq in H1.
Qed.

Lemma is_Some_insert (s : dict) k v name :
  is_Some (s !! name) → is_Some (<[k := v]> s !! name).
Proof.
  intros H. destruct (decide (k = name)) as [->|Hne].
  - rewrite lookup_insert_eq. eauto.
  - by rewrite lookup_insert_ne.
Qed.

(** The fields of a root object once its entry is added. *)
Lemma with_entry_inv cls self entry obj :
  with_entry cls self entry = Ok obj →
  ∃ description,
    self !! "description" = Some description
    ∧ obj = VObj cls (<["entry" := PfamEntry (Element_get entry "entry_type")
                                     (Element_get entry "id")
                                     (Element_get entry "accession")
                                     description]> self).
Proof.
  unfold with_entry. simpl. destruct (self !! "description") as [d|]; [|discriminate].
  simpl. intros [= <-]. by exists d.
Qed.

Lemma with_entry_ok cls self entry :
  is_Some (self !! "description") → ∃ obj, with_entry cls self entry = Ok obj.
Proof.
  intros [d Hd]. unfold with_entry. simpl. rewrite Hd. simpl. eauto.
Qed.

(** ** The root mappers *)

(** A child assigns by its tag when it is not treated on its own, and no
    child changes an attribute it does not assign. *)
Lemma PfamFamily_body_assign name s el s' :
  PfamFamily_body s el = Ok s' →
  if assigns_Family name el
  then generic special_Family el = true → s' !! name = Some (text el)
  else s' !! name = s !! name.
Proof.
  destruct el as [t a x tl c].
  unfold PfamFamily_body, assigns_Family, generic, special_Family, tag_is.
  cbn [tag text str_in existsb].
  destruct (String.eqb_spec t "curation_details") as [->|H1].
  { destruct (PfamCurationDetails _); [|discriminate]. simpl. intros [= <-].
    destruct (String.eqb_spec name "curation_details"); [discriminate|].
    by rewrite lookup_insert_ne. }
  destruct (String.eqb_spec t "hmm_details") as [->|H2].
  { destruct (PfamHmmDetails _); [|discriminate]. simpl. intros [= <-].
    destruct (String.eqb_spec name "hmm_details"); [discriminate|].
    by rewrite lookup_insert_ne. }
  destruct (String.eqb_spec t "clan_membership") as [->|H3].
  { intros [= <-]. destruct (String.eqb_spec name "clan"); [discriminate|].
    by rewrite lookup_insert_ne. }
  destruct (String.eqb_spec t "go_terms") as [->|H4].
  { intros [= <-]. destruct (String.eqb_spec name "go_terms"); [discriminate|].
    by rewrite lookup_insert_ne. }
  intros ->%setattr_Ok. simpl.
  destruct (String.eqb_spec name t) as [->|Hn].
  - intros _. apply lookup_insert_eq.
  - by rewrite lookup_insert_ne.
Qed.

Lemma PfamProtein_body_assign name s el s' :
  PfamProtein_body s el = Ok s' →
  if assigns_Protein name el
  then generic special_Protein el = true → s' !! name = Some (text el)
  else s' !! name = s !! name.
Proof.
  intros H. destruct (assigns_Protein name el) eqn:Ea;
    [|by apply (PfamProtein_body_frame _ _ el)].
  revert H Ea. destruct el as [t a x tl c].
  unfold PfamProtein_body, assigns_Protein, generic, special_Protein, tag_is.
  cbn [tag text str_in existsb].
  destruct (String.eqb_spec t "taxonomy") as [->|H1]; [discriminate|].
  destruct (String.eqb_spec t "sequence") as [->|H2]; [discriminate|].
  destruct (String.eqb_spec t "matches") as [->|H3]; [discriminate|].
  intros ->%setattr_Ok ->%String.eqb_eq _. apply lookup_insert_eq.
Qed.

Lemma PfamClan_append_frame name self x self' :
  name ≠ "families" → PfamClan_append self x = Ok self' →
  self' !! name = self !! name.
Proof.
  intros Hn. unfold PfamClan_append.
  destruct (self !! "families") as [[]|]; try discriminate.
  intros [= <-]. by rewrite lookup_insert_ne.
Qed.

Lemma PfamClan_body_assign name s el s' :
  PfamClan_body s el = Ok s' →
  if assigns_Clan name el
  then generic special_Clan el = true → s' !! name = Some (text el)
  else s' !! name = s !! name.
Proof.
  destruct el as [t a x tl c].
  unfold PfamClan_body, assigns_Clan, generic, special_Clan, tag_is, has_children.
  cbn [tag text children str_in existsb].
  destruct (String.eqb_spec t "members") as [->|H1].
  { destruct (String.eqb_spec name "families") as [->|Hn]; simpl.
    - destruct c; [|discriminate]. by intros [= <-].
    - apply (for_each_inv PfamClan_append (fun s0 => s0 !! name = s !! name));
        [reflexivity|].
      intros b y b' _ <-. by apply PfamClan_append_frame. }
  intros ->%setattr_Ok. simpl.
  destruct (String.eqb_spec name t) as [->|Hn].
  - intros _. apply lookup_insert_eq.
  - by rewrite lookup_insert_ne.
Qed.

(** A name that no child treated on its own assigns is assigned by the
    children tagged with it, and they go to [setattr]. *)
Lemma assigns_Family_plain name el :
  str_in name ("clan" :: special_Family) = false →
  assigns_Family name el = tag_is el name
  ∧ (tag_is el name = true → generic special_Family el = true).
Proof.
  intros H. unfold special_Family in H.
  repeat (apply str_in_false_cons in H as [? H]).
  destruct el as [t a x tl c].
  unfold assigns_Family, generic, special_Family, tag_is.
  cbn [tag str_in existsb]. rewrite (String.eqb_sym name t).
  destruct (String.eqb_spec t name) as [->|Hn].
  - repeat match goal with
           | |- context [String.eqb name ?k] =>
               destruct (String.eqb_spec name k); [done|]
           end.
    done.
  - split; [|done].
    destruct (String.eqb t "clan_membership"); [by apply String.eqb_neq|done].
Qed.

Lemma assigns_Protein_plain name el :
  str_in name ("taxonomy_id" :: "species_name" :: "sequence_version"
                 :: special_Protein) = false →
  assigns_Protein name el = tag_is el name
  ∧ (tag_is el name = true → generic special_Protein el = true).
Proof.
  intros H. unfold special_Protein in H.
  repeat (apply str_in_false_cons in H as [? H]).
  destruct el as [t a x tl c].
  unfold assigns_Protein, generic, special_Protein, tag_is.
  cbn [tag str_in existsb]. rewrite (String.eqb_sym name t).
  destruct (String.eqb_spec t name) as [->|Hn].
  - repeat match goal with
           | |- context [String.eqb name ?k] =>
               destruct (String.eqb_spec name k); [done|]
           end.
    done.
  - split; [|done].
    destruct (String.eqb_spec t "taxonomy").
    { repeat match goal with
             | |- context [String.eqb name ?k] =>
                 destruct (String.eqb_spec name k); [done|]
             end. done. }
    destruct (String.eqb_spec t "sequence"); [|done].
    repeat match goal with
           | |- context [String.eqb name ?k] =>
               destruct (String.eqb_spec name k); [done|]
           end. done.
Qed.

Lemma assigns_Clan_plain name el :
  str_in name ("families" :: special_Clan) = false →
  assigns_Clan name el = tag_is el name
  ∧ (tag_is el name = true → generic special_Clan el = true).
Proof.
  intros H. unfold special_Clan in H.
  repeat (apply str_in_false_cons in H as [? H]).
  destruct el as [t a x tl c].
  unfold assigns_Clan, generic, special_Clan, tag_is.
  cbn [tag str_in existsb]. rewrite (String.eqb_sym name t).
  destruct (String.eqb_spec t name) as [->|Hn].
  - destruct (String.eqb_spec name "members"); done.
  - split; [|done]. destruct (String.eqb t "members"); [|done].
    by destruct (String.eqb_spec name "families").
Qed.

(** What the three root mappers share: a loop over the children, and the
    entry added last. An attribute other than [entry] is as the last child
    that assigns it left it. *)
Lemma root_fields (body : dict → Element → res dict)
      (assigns : string → Element → bool) (special : list string)
      cls init entry obj :
  (∀ name s el s', body s el = Ok s' →
                   if assigns name el
                   then generic special el = true → s' !! name = Some (text el)
                   else s' !! name = s !! name) →
  (self ← for_each body init (children entry); with_entry cls self entry) = Ok obj →
  (∀ name, name ≠ "entry" →
           match last_where (assigns name) (children entry) with
           | Some e => generic special e = true → getattr obj name = Ok (text e)
           | None => getattr obj name = getattr (VObj cls init) name
           end)
  ∧ ∃ description,
      getattr obj "description" = Ok description
      ∧ getattr obj "entry"
        = Ok (PfamEntry (Element_get entry "entry_type") (Element_get entry "id")
                        (Element_get entry "accession") description).
Proof.
  intros Hbody H.
  destruct (for_each body init (children entry)) as [self|] eqn:E; [|discriminate].
  simpl in H. apply with_entry_inv in H as (description & Hd & ->).
  split.
  - intros name Hn. simpl. rewrite lookup_insert_ne by done.
    pose proof (for_each_last_writer body name (assigns name)
                  (fun el o => generic special el = true → o = Some (text el))
                  _ _ _ (fun s el s' _ => Hbody name s el s') E) as Hw.
    destruct (last_where (assigns name) (children entry)).
    + intros Hg. by rewrite (Hw Hg).
    + by rewrite Hw.
  - exists description. simpl.
    rewrite lookup_insert_ne by done. rewrite Hd, lookup_insert_eq. done.
Qed.

(** The same for a name that only the children tagged with it assign. *)
Lemma root_fields_plain (body : dict → Element → res dict)
      (assigns : string → Element → bool) (special : list string)
      cls init entry obj name :
  (∀ name s el s', body s el = Ok s' →
                   if assigns name el
                   then generic special el = true → s' !! name = Some (text el)
                   else s' !! name = s !! name) →
  (∀ el, assigns name el = tag_is el name
         ∧ (tag_is el name = true → generic special el = true)) →
  name ≠ "entry" →
  (self ← for_each body init (children entry); with_entry cls self entry) = Ok obj →
  getattr obj name
  = match last_tagged name (children entry) with
    | Some e => Ok (text e)
    | None => getattr (VObj cls init) name
    end.
Proof.
  intros Hbody Hplain Hn H.
  destruct (root_fields body assigns special _ _ _ _ Hbody H) as [Hf _].
  specialize (Hf name Hn).
  rewrite (last_where_ext _ (fun el => tag_is el name)) in Hf
    by (intros el _; apply Hplain).
  rewrite last_where_tagged in Hf.
  destruct (last_tagged name (children entry)) as [e|] eqn:El; [|exact Hf].
  apply Hf. rewrite <- last_where_tagged in El.
  apply last_where_Some in El as [_ He]. by apply Hplain.
Qed.

(** X7. A child that a root mapper does not treat on its own becomes an
    attribute of the mapped object, named after its tag and holding its
    text, when no later child assigns the same attribute. This holds of a
    family, a protein and a clan alike, and of every attribute but
    [entry], which the mapper builds after the loop. *)
Theorem root_generic_field release_version release_date entry obj name e :
  name ≠ "entry" →
  (PfamFamily release_version release_date entry = Ok obj →
   last_where (assigns_Family name) (children entry) = Some e →
   generic special_Family e = true →
   tag e = name ∧ getattr obj name = Ok (text e))
  ∧ (PfamProtein release_version release_date entry = Ok obj →
     last_where (assigns_Protein name) (children entry) = Some e →
     generic special_Protein e = true →
     tag e = name ∧ getattr obj name = Ok (text e))
  ∧ (PfamClan release_version release_date entry = Ok obj →
     last_where (assigns_Clan name) (children entry) = Some e →
     generic special_Clan e = true →
     tag e = name ∧ getattr obj name = Ok (text e)).
Proof.
  intros Hn. split; [|split]; intros Hobj Hlast Hgen;
    pose proof (last_where_Some _ _ _ Hlast) as [_ Ha].
  - split.
    + revert Ha Hgen. unfold assigns_Family, generic, special_Family, tag_is.
      cbn [str_in existsb]. destruct (String.eqb (tag e) "clan_membership").
      * by rewrite !orb_true_r.
      * by intros ->%String.eqb_eq.
    + destruct (root_fields PfamFamily_body assigns_Family special_Family _ _ _ _
                  (fun n s el s' => PfamFamily_body_assign n s el s') Hobj)
        as [Hf _].
      specialize (Hf name Hn). rewrite Hlast in Hf. by apply Hf.
  - split.
    + revert Ha Hgen. unfold assigns_Protein, generic, special_Protein, tag_is.
      cbn [str_in existsb]. destruct (String.eqb (tag e) "taxonomy"); [done|].
      destruct (String.eqb (tag e) "sequence"); [done|].
      by intros ->%String.eqb_eq.
    + destruct (root_fields PfamProtein_body assigns_Protein special_Protein _ _ _ _
                  (fun n s el s' => PfamProtein_body_assign n s el s') Hobj)
        as [Hf _].
      specialize (Hf name Hn). rewrite Hlast in Hf. by apply Hf.
  - split.
    + revert Ha Hgen. unfold assigns_Clan, generic, special_Clan, tag_is.
      cbn [str_in existsb]. destruct (String.eqb (tag e) "members"); [done|].
      by intros ->%String.eqb_eq.
    + destruct (root_fields PfamClan_body assigns_Clan special_Clan _ _ _ _
                  (fun n s el s' => PfamClan_body_assign n s el s') Hobj)
        as [Hf _].
      specialize (Hf name Hn). rewrite Hlast in Hf. by apply Hf.
Qed.

Ltac plain_field name body assigns special body_assign plain H :=
  rewrite (root_fields_plain body assigns special _ _ _ _ name
             (fun n s el s' => body_assign n s el s')
             (fun el => plain name el eq_refl) ltac:(discriminate) H);
  unfold last_text; by destruct (last_tagged _ _).

(** X8. The release recorded in a mapped root object is the one passed to
    the mapper, unless the entry has a child tagged [pfam_release_version]
    or [pfam_release_date]: the text of the last such child then replaces
    it. *)
Theorem root_release_recorded release_version release_date entry obj :
  PfamFamily release_version release_date entry = Ok obj
  ∨ PfamProtein release_version release_date entry = Ok obj
  ∨ PfamClan release_version release_date entry = Ok obj →
  getattr obj "pfam_release_version"
    = Ok (last_text "pfam_release_version" entry release_version)
  ∧ getattr obj "pfam_release_date"
    = Ok (last_text "pfam_release_date" entry release_date).
Proof.
  intros [H|[H|H]]; unfold PfamFamily, PfamProtein, PfamClan in H; split.
  - plain_field "pfam_release_version" PfamFamily_body assigns_Family special_Family
                PfamFamily_body_assign assigns_Family_plain H.
  - plain_field "pfam_release_date" PfamFamily_body assigns_Family special_Family
                PfamFamily_body_assign assigns_Family_plain H.
  - plain_field "pfam_release_version" PfamProtein_body assigns_Protein special_Protein
                PfamProtein_body_assign assigns_Protein_plain H.
  - plain_field "pfam_release_date" PfamProtein_body assigns_Protein special_Protein
                PfamProtein_body_assign assigns_Protein_plain H.
  - plain_field "pfam_release_version" PfamClan_body assigns_Clan special_Clan
                PfamClan_body_assign assigns_Clan_plain H.
  - plain_field "pfam_release_date" PfamClan_body assigns_Clan special_Clan
                PfamClan_body_assign assigns_Clan_plain H.
Qed.

(** X9. The entry of a mapped root object is built last: it carries the
    [entry_type], [id] and [accession] attributes of the element mapped and
    the description the object ends with, which is the text of the last
    [description] child, or [None] without one. *)
Theorem root_entry_description release_version release_date entry obj :
  PfamFamily release_version release_date entry = Ok obj
  ∨ PfamProtein release_version release_date entry = Ok obj
  ∨ PfamClan release_version release_date entry = Ok obj →
  getattr obj "description" = Ok (last_text "description" entry VNone)
  ∧ getattr obj "entry"
    = Ok (PfamEntry (Element_get entry "entry_type") (Element_get entry "id")
                    (Element_get entry "accession")
                    (last_text "description" entry VNone)).
Proof.
  assert (Hshare : ∀ (body : dict → Element → res dict)
                     (assigns : string → Element → bool)
                     (special : list string) (cls : string) (init : dict),
            (∀ name s el s', body s el = Ok s' →
                             if assigns name el
                             then generic special el = true → s' !! name = Some (text el)
                             else s' !! name = s !! name) →
            (∀ el, assigns "description" el = tag_is el "description"
                   ∧ (tag_is el "description" = true → generic special el = true)) →
            init !! "description" = Some VNone →
            (self ← for_each body init (children entry); with_entry cls self entry)
            = Ok obj →
            getattr obj "description" = Ok (last_text "description" entry VNone)
            ∧ getattr obj "entry"
              = Ok (PfamEntry (Element_get entry "entry_type")
                              (Element_get entry "id")
                              (Element_get entry "accession")
                              (last_text "description" entry VNone))).
  { intros body assigns special cls init Hbody Hplain Hinit H.
    pose proof (root_fields_plain body assigns special _ _ _ _ "description"
                  Hbody Hplain ltac:(discriminate) H) as Hd.
    destruct (root_fields body assigns special _ _ _ _ Hbody H)
      as [_ (description & Hd' & He)].
    assert (Hdesc : getattr obj "description"
                    = Ok (last_text "description" entry VNone)).
    { rewrite Hd. unfold last_text. destruct (last_tagged _ _); [done|].
      simpl. by rewrite Hinit. }
    split; [exact Hdesc|]. rewrite He. congruence. }
  intros [H|[H|H]]; unfold PfamFamily, PfamProtein, PfamClan in H.
  - refine (Hshare PfamFamily_body assigns_Family special_Family _ _
              (fun n s el s' => PfamFamily_body_assign n s el s')
              (fun el => assigns_Family_plain "description" el eq_refl) _ H).
    reflexivity.
  - refine (Hshare PfamProtein_body assigns_Protein special_Protein _ _
              (fun n s el s' => PfamProtein_body_assign n s el s')
              (fun el => assigns_Protein_plain "description" el eq_refl) _ H).
    reflexivity.
  - refine (Hshare PfamClan_body assigns_Clan special_Clan _ _
              (fun n s el s' => PfamClan_body_assign n s el s')
              (fun el => assigns_Clan_plain "description" el eq_refl) _ H).
    reflexivity.
Qed.

(** ** Locations, matches and proteins *)

Lemma list_to_map_lookup_find (l : list (string * val)) name :
  (list_to_map l : dict) !! name
  = snd <$> List.find (fun p => String.eqb name (fst p)) l.
Proof.
  induction l as [|[k v] l IH]; [reflexivity|].
  change (list_to_map ((k, v) :: l) : dict) with (<[k := v]> (list_to_map l : dict)).
  simpl. destruct (String.eqb_spec name k) as [->|Hne].
  - apply lookup_insert_eq.
  - by rewrite lookup_insert_ne.
Qed.

Lemma PfamLocation_loop l (self : dict) :
  match first_error (fun el => setattr_error (tag el)) l with
  | Some e =>
      for_each (fun self el => setattr self (tag el) (text el)) self l = Raise e
  | None =>
      ∃ self', for_each (fun self el => setattr self (tag el) (text el)) self l
               = Ok self'
               ∧ ∀ name, self' !! name = match last_tagged name l with
                                         | Some c => Some (text c)
                                         | None => self !! name
                                         end
  end.
Proof.
  pose proof (for_each_first_error
                (fun (self : dict) el => setattr self (tag el) (text el))
                (fun el => setattr_error (tag el)) (fun _ => True) l self I) as H.
  destruct (first_error _ l) as [e|].
  - apply H. intros a x _ _. rewrite setattr_spec.
    destruct (setattr_error (tag x)); eauto.
  - destruct H as (self' & E & _).
    { intros a x _ _. rewrite setattr_spec. destruct (setattr_error (tag x)); eauto. }
    exists self'. split; [exact E|]. intros name.
    assert (Hb : ∀ (s : dict) el s', el ∈ l →
              setattr s (tag el) (text el) = Ok s' →
              if tag_is el name then s' !! name = Some (text el)
              else s' !! name = s !! name).
    { intros s el s' _ Hs. rewrite (setattr_lookup _ _ _ name Hs).
      by destruct (tag_is el name). }
    pose proof (for_each_last_writer
                  (fun (self : dict) el => setattr self (tag el) (text el))
                  name (fun el => tag_is el name)
                  (fun el o => o = Some (text el)) l self self' Hb E) as Hw.
    rewrite last_where_tagged in Hw. by destruct (last_tagged name l).
Qed.

(** [PfamLocation] raises what the first child that [setattr] refuses
    makes it raise. *)
Lemma PfamLocation_outcome loc :
  match PfamLocation_error loc with
  | Some e => PfamLocation loc = Raise e
  | None => ∃ attrs, PfamLocation loc = Ok (VObj "PfamLocation" attrs)
  end.
Proof.
  unfold PfamLocation_error, PfamLocation.
  match goal with
  | |- context [for_each _ ?init _] =>
      pose proof (PfamLocation_loop (children loc) init) as H
  end.
  destruct (first_error _ (children loc)) as [e|].
  - by rewrite H.
  - destruct H as (self' & -> & _). simpl. eauto.
Qed.

(** X15. [PfamLocation] raises when [setattr] refuses the tag of a child,
    and then what [setattr] raises for the first such child. Otherwise it
    returns an instance whose attributes are these: an attribute named
    after a child element holds the text of the last such child, which so
    overrides an attribute of the element of the same name; otherwise the
    ten attributes read off the element hold their value, [None] when the
    element lacks the attribute, and the five alignment fields hold
    [None]. The instance has no other attribute. *)
Theorem PfamLocation_fields element :
  match PfamLocation_error element with
  | Some e => PfamLocation element = Raise e
  | None =>
      ∃ attrs,
        PfamLocation element = Ok (VObj "PfamLocation" attrs)
        ∧ ∀ name,
            attrs !! name
            = match last_tagged name (children element) with
              | Some c => Some (text c)
              | None =>
                  if str_in name location_attributes
                  then Some (Element_get element name)
                  else if str_in name location_fields then Some VNone
                       else None
              end
  end.
Proof.
  unfold PfamLocation_error, PfamLocation.
  match goal with
  | |- context [for_each _ ?init _] =>
      pose proof (PfamLocation_loop (children element) init) as H
  end.
  destruct (first_error _ (children element)) as [e|].
  - by rewrite H.
  - destruct H as (self' & -> & Hf). simpl. eexists. split; [reflexivity|].
    intros name. rewrite Hf.
    destruct (last_tagged name (children element)); [reflexivity|].
    rewrite list_to_map_lookup_find.
    unfold str_in, location_attributes, location_fields. simpl.
    repeat match goal with
           | |- context [String.eqb name ?k] =>
               destruct (String.eqb_spec name k) as [->|?]; [reflexivity|]
           end.
    reflexivity.
Qed.

Lemma PfamMatch_outcome element :
  match PfamMatch_error element with
  | Some e => PfamMatch element = Raise e
  | None => ∃ m, PfamMatch element = Ok m
  end.
Proof.
  unfold PfamMatch_error, PfamMatch.
  pose proof (for_each_first_error PfamMatch_append PfamLocation_error
                (fun _ => True) (children element) [] I) as H.
  assert (Hbody : ∀ (a : list val) x, x ∈ children element → True →
            match PfamLocation_error x with
            | Some e => PfamMatch_append a x = Raise e
            | None => ∃ a', PfamMatch_append a x = Ok a' ∧ True
            end).
  { intros a x _ _. unfold PfamMatch_append.
    pose proof (PfamLocation_outcome x) as Hx.
    destruct (PfamLocation_error x).
    - by rewrite Hx.
    - destruct Hx as [attrs ->]. simpl. eauto. }
  specialize (H Hbody). destruct (first_error _ (children element)).
  - by rewrite H.
  - destruct H as (locations & -> & _). simpl. eauto.
Qed.

Lemma map_res_app {A B : Type} (f : A → res B) l1 l2 r1 r2 :
  map_res f l1 = Ok r1 → map_res f l2 = Ok r2 →
  map_res f (l1 ++ l2)%list = Ok (r1 ++ r2)%list.
Proof.
  revert r1. induction l1 as [|x l1 IH]; intros r1; simpl.
  - by intros [= <-].
  - destruct (f x) as [y|]; [|discriminate]. simpl.
    destruct (map_res f l1) as [ys|] eqn:E; [|discriminate]. simpl.
    intros [= <-] H2. by rewrite (IH _ eq_refl H2).
Qed.

(** The loop over the matches of one [<matches>] element. *)
Lemma PfamProtein_append_loop l self ms0 self' :
  self !! "matches" = Some (VList ms0) →
  for_each PfamProtein_append self l = Ok self' →
  ∃ ms, map_res PfamMatch l = Ok ms
        ∧ self' !! "matches" = Some (VList (ms0 ++ ms)).
Proof.
  revert self ms0. induction l as [|x l IH]; intros self ms0 Hs; cbn [for_each].
  - intros [= <-]. exists []. by rewrite app_nil_r.
  - destruct (PfamProtein_append self x) as [s1|] eqn:E1; [|discriminate].
    unfold PfamProtein_append in E1. rewrite Hs in E1.
    destruct (PfamMatch x) as [m|] eqn:Em; [|discriminate].
    simpl in E1. injection E1 as <-. simpl. intros H.
    destruct (IH _ _ (lookup_insert_eq _ _ _) H) as (ms & Hm & Hms).
    exists (m :: ms). split; [by rewrite Em, Hm|].
    by rewrite Hms, <- app_assoc.
Qed.

Lemma assigns_Protein_matches el :
  tag el ≠ "matches" → assigns_Protein "matches" el = false.
Proof.
  intros Ht. unfold assigns_Protein.
  destruct (tag_is el "taxonomy"); [reflexivity|].
  destruct (tag_is el "sequence"); [reflexivity|].
  apply String.eqb_neq. congruence.
Qed.

(** The matches of a mapped protein, in full. *)
Lemma PfamProtein_loop_matches l self ms0 self' :
  self !! "matches" = Some (VList ms0) →
  for_each PfamProtein_body self l = Ok self' →
  ∃ ms, map_res PfamMatch
          (List.concat (List.map children
                          (List.filter (fun el => tag_is el "matches") l)))
        = Ok ms
        ∧ self' !! "matches" = Some (VList (ms0 ++ ms)).
Proof.
  revert self ms0. induction l as [|el l IH]; intros self ms0 Hs; simpl.
  - intros [= <-]. exists []. by rewrite app_nil_r.
  - destruct (PfamProtein_body self el) as [s1|] eqn:E; [|discriminate]. simpl.
    intros H. destruct (tag_is el "matches") eqn:Et.
    + assert (E' : for_each PfamProtein_append self (children el) = Ok s1).
      { revert E. unfold PfamProtein_body. apply tag_is_true in Et.
        rewrite !(proj2 (tag_is_false _ _)) by (rewrite Et; discriminate).
        by rewrite (proj2 (tag_is_true _ _) Et). }
      destruct (PfamProtein_append_loop _ _ _ _ Hs E') as (ms1 & Hm1 & Hs1).
      destruct (IH _ _ Hs1 H) as (ms2 & Hm2 & Hs2).
      exists (ms1 ++ ms2)%list. simpl. split; [by apply map_res_app|].
      by rewrite Hs2, app_assoc.
    + apply tag_is_false in Et.
      pose proof (PfamProtein_body_frame "matches" _ _ _
                    (assigns_Protein_matches _ Et) E) as Hf.
      rewrite Hs in Hf. apply (IH _ _ Hf H).
Qed.

Lemma PfamProtein_append_outcome l self :
  (∃ ms, self !! "matches" = Some (VList ms)) →
  is_Some (self !! "description") →
  match first_error PfamMatch_error l with
  | Some e => for_each PfamProtein_append self l = Raise e
  | None => ∃ self', for_each PfamProtein_append self l = Ok self'
                     ∧ (∃ ms, self' !! "matches" = Some (VList ms))
                     ∧ is_Some (self' !! "description")
  end.
Proof.
  intros Hm Hd.
  pose proof (for_each_first_error PfamProtein_append PfamMatch_error
                (fun s => (∃ ms, s !! "matches" = Some (VList ms))
                          ∧ is_Some (s !! "description"))
                l self (conj Hm Hd)) as H.
  assert (Hbody : ∀ a x, x ∈ l →
            (∃ ms, a !! "matches" = Some (VList ms)) ∧ is_Some (a !! "description") →
            match PfamMatch_error x with
            | Some e => PfamProtein_append a x = Raise e
            | None => ∃ a', PfamProtein_append a x = Ok a'
                            ∧ (∃ ms, a' !! "matches" = Some (VList ms))
                            ∧ is_Some (a' !! "description")
            end).
  { intros a x _ [[ms Ha] Hda]. unfold PfamProtein_append. rewrite Ha.
    pose proof (PfamMatch_outcome x) as Hx. destruct (PfamMatch_error x).
    - by rewrite Hx.
    - destruct Hx as [m ->]. simpl. eexists. split; [reflexivity|].
      split; [rewrite lookup_insert_eq; eauto|by apply is_Some_insert]. }
  specialize (H Hbody). destruct (first_error PfamMatch_error l); [exact H|].
  destruct H as (self' & E & Hm' & Hd'). eauto.
Qed.

Lemma PfamProtein_body_outcome self el :
  (∃ ms, self !! "matches" = Some (VList ms)) →
  is_Some (self !! "description") →
  match PfamProtein_error el with
  | Some e => PfamProtein_body self el = Raise e
  | None => ∃ self', PfamProtein_body self el = Ok self'
                     ∧ (∃ ms, self' !! "matches" = Some (VList ms))
                     ∧ is_Some (self' !! "description")
  end.
Proof.
  intros Hm Hd. unfold PfamProtein_error, PfamProtein_body.
  destruct (tag_is el "taxonomy").
  { destruct (text el); simpl; try reflexivity.
    eexists. split; [reflexivity|]. destruct Hm as [ms Hm].
    split; [exists ms; by rewrite !lookup_insert_ne|by repeat apply is_Some_insert]. }
  destruct (tag_is el "sequence").
  { eexists. split; [reflexivity|]. destruct Hm as [ms Hm].
    split; [exists ms; by rewrite !lookup_insert_ne|by repeat apply is_Some_insert]. }
  destruct (tag_is el "matches") eqn:Et.
  { by apply PfamProtein_append_outcome. }
  rewrite setattr_spec. destruct (setattr_error (tag el)); [reflexivity|].
  eexists. split; [reflexivity|]. destruct Hm as [ms Hm]. apply tag_is_false in Et.
  split; [exists ms; by rewrite lookup_insert_ne|by apply is_Some_insert].
Qed.

(** X10. [PfamProtein] raises exactly when a child of the entry does, and
    then what the first such child raises: [AttributeError] for a
    [taxonomy] whose text is no string ([None] for an empty element, or a
    number), and what [setattr] raises for a tag it refuses, be it the tag
    of a child of the entry or of a child of a location of one of its
    matches. Otherwise it returns a protein whose matches are the
    children of all the [matches] children, in document order, each mapped
    by [PfamMatch]. *)
Theorem PfamProtein_outcome release_version release_date entry :
  match first_error PfamProtein_error (children entry) with
  | Some e => PfamProtein release_version release_date entry = Raise e
  | None =>
      ∃ p ms,
        PfamProtein release_version release_date entry = Ok p
        ∧ map_res PfamMatch (grandchildren "matches" entry) = Ok ms
        ∧ getattr p "matches" = Ok (VList ms)
  end.
Proof.
  unfold PfamProtein.
  match goal with
  | |- context [for_each _ ?init _] =>
      pose proof (for_each_first_error PfamProtein_body PfamProtein_error
                    (fun s => (∃ ms, s !! "matches" = Some (VList ms))
                              ∧ is_Some (s !! "description"))
                    (children entry) init
                    (conj (ex_intro _ [] eq_refl) (ex_intro _ VNone eq_refl))
                    (fun a x _ Ha =>
                       PfamProtein_body_outcome a x (proj1 Ha) (proj2 Ha))) as H;
      assert (Hinit : init !! "matches" = Some (VList [])) by reflexivity
  end.
  destruct (first_error PfamProtein_error (children entry)) as [e|].
  - by rewrite H.
  - destruct H as (self & E & _ & Hd). rewrite E. simpl.
    destruct (with_entry_ok "PfamProtein" self entry Hd) as [p Hp].
    destruct (PfamProtein_loop_matches _ _ _ _ Hinit E) as (ms & Hms & Hs).
    exists p, ms. split; [exact Hp|]. split; [exact Hms|].
    apply with_entry_inv in Hp as (d & _ & ->). simpl.
    by rewrite lookup_insert_ne, Hs.
Qed.

(** ** The families of a clan *)

Lemma for_each_error_in {A B : Type} (body : A → B → res A) (err : exn) l acc e :
  (∀ a x e, x ∈ l → body a x = Raise e → e = err) →
  for_each body acc l = Raise e → e = err.
Proof.
  revert acc. induction l as [|x l IH]; intros acc Hbody; simpl; [discriminate|].
  destruct (body acc x) as [a|e'] eqn:E; simpl.
  - apply IH. intros a' y e' Hy. apply Hbody. by apply list_elem_of_further.
  - intros [= <-]. apply (Hbody _ _ _ (list_elem_of_here _ _) E).
Qed.

(** The loop over the members of one [<members>] element, on a list. *)
Lemma PfamClan_append_loop l self ms0 :
  self !! "families" = Some (VList ms0) →
  ∃ self', for_each PfamClan_append self l = Ok self'
           ∧ self' !! "families"
             = Some (VList (ms0 ++ List.map PfamClanMember l))
           ∧ ∀ name, name ≠ "families" → self' !! name = self !! name.
Proof.
  revert self ms0. induction l as [|x l IH]; intros self ms0 Hs; cbn [for_each].
  - exists self. by rewrite app_nil_r.
  - assert (E1 : PfamClan_append self x
                 = Ok (<["families" := VList (ms0 ++ [PfamClanMember x])]> self))
      by (unfold PfamClan_append; by rewrite Hs).
    rewrite E1.
    destruct (IH (<["families" := VList (ms0 ++ [PfamClanMember x])]> self)
                (ms0 ++ [PfamClanMember x])%list (lookup_insert_eq _ _ _))
      as (self' & E & Hf & Hn).
    exists self'. split; [exact E|]. split.
    + by rewrite Hf, <- app_assoc.
    + intros name Hne. rewrite (Hn _ Hne). by rewrite lookup_insert_ne.
Qed.

(** The same loop once [families] holds a text: the first member raises. *)
Lemma PfamClan_append_raise l self v :
  self !! "families" = Some v → scalar v = true → l ≠ [] →
  for_each PfamClan_append self l = Raise AttributeError.
Proof.
  intros Hs Hv Hl. destruct l as [|x l]; [done|]. cbn [for_each].
  assert (E1 : PfamClan_append self x = Raise AttributeError)
    by (unfold PfamClan_append; rewrite Hs; by destruct v).
  by rewrite E1.
Qed.

Lemma PfamClan_append_error l self e :
  for_each PfamClan_append self l = Raise e → e = AttributeError.
Proof.
  apply for_each_error_in. intros a x e' _. unfold PfamClan_append.
  destruct (a !! "families") as [[]|]; by intros [=].
Qed.

Lemma PfamClan_body_eq self el :
  PfamClan_body self el
  = if tag_is el "members" then for_each PfamClan_append self (children el)
    else setattr self (tag el) (text el).
Proof. reflexivity. Qed.

Lemma PfamClan_loop l self ms0 :
  self !! "families" = Some (VList ms0) →
  is_Some (self !! "description") →
  Forall (fun el => tag el ≠ "members" → setattr_error (tag el) = None) l →
  Forall (fun el => tag el ≠ "families") l →
  ∃ self',
    for_each PfamClan_body self l = Ok self'
    ∧ is_Some (self' !! "description")
    ∧ self' !! "families"
      = Some (VList (ms0 ++ List.map PfamClanMember
                              (List.concat
                                 (List.map children
                                    (List.filter (fun el => tag_is el "members") l))))).
Proof.
  intros Hf Hd Hset Hl. revert self ms0 Hf Hd Hset.
  induction Hl as [|el l Hel Hl IH]; intros self ms0 Hf Hd Hset; cbn [for_each].
  - exists self. by rewrite app_nil_r.
  - apply Forall_cons in Hset as [Hsel Hset]. rewrite (PfamClan_body_eq self el).
    cbn [List.filter]. destruct (tag_is el "members") eqn:Et.
    + destruct (PfamClan_append_loop (children el) self ms0 Hf)
        as (s1 & -> & Hf1 & Hn1). simpl.
      destruct (IH s1 _ Hf1) as (self' & E & Hd' & Hf'); [|done|].
      { by rewrite Hn1. }
      exists self'. split; [exact E|]. split; [exact Hd'|].
      by rewrite Hf', List.map_app, app_assoc.
    + apply tag_is_false in Et. rewrite setattr_spec, (Hsel Et). simpl.
      destruct (IH (<[tag el := text el]> self) ms0) as (self' & E & Hd' & Hf');
        [by rewrite lookup_insert_ne|by apply is_Some_insert|done|].
      by exists self'.
Qed.

Lemma PfamClan_loop_fail l self v :
  self !! "families" = Some v → scalar v = true →
  Forall (fun el => tag el ≠ "members" → setattr_error (tag el) = None) l →
  Forall (fun el => tag el = "families" → scalar (text el) = true) l →
  Exists (fun el => tag el = "members" ∧ children el ≠ []) l →
  for_each PfamClan_body self l = Raise AttributeError.
Proof.
  intros Hs Hv Hset Hl Hex. revert self v Hs Hv Hset Hl.
  induction Hex as [el l [Hm Hc]|el l Hex IH]; intros self v Hs Hv Hset Hl;
    cbn [for_each]; rewrite (PfamClan_body_eq self el).
  - rewrite (proj2 (tag_is_true _ _) Hm).
    by rewrite (PfamClan_append_raise _ _ _ Hs Hv Hc).
  - apply Forall_cons in Hl as [Hel Hl]. apply Forall_cons in Hset as [Hsel Hset].
    destruct (tag_is el "members") eqn:Et.
    + destruct (children el) as [|x cs] eqn:Ec.
      * simpl. by apply (IH _ v).
      * rewrite (PfamClan_append_raise (x :: cs) _ _ Hs Hv); done.
    + apply tag_is_false in Et. rewrite setattr_spec, (Hsel Et). simpl.
      destruct (decide (tag el = "families")) as [Ht|Ht].
      * apply (IH _ (text el)); [|by apply Hel|done..].
        rewrite Ht. apply lookup_insert_eq.
      * apply (IH _ v); [|done..]. by rewrite lookup_insert_ne.
Qed.

Lemma PfamClan_body_error s el e :
  (tag el ≠ "members" → setattr_error (tag el) = None) →
  PfamClan_body s el = Raise e → e = AttributeError.
Proof.
  intros Hset. unfold PfamClan_body. destruct (tag_is el "members") eqn:Et.
  - apply PfamClan_append_error.
  - apply tag_is_false in Et. by rewrite setattr_spec, (Hset Et).
Qed.

(** X11. The families of a clan, when [setattr] accepts the tag of every
    child that is no [members]. Without a child tagged [families],
    [PfamClan] returns a clan whose families are the children of all the
    [members] children, in document order, each mapped by
    [PfamClanMember]. A child tagged [families] overwrites the list with
    its text, and a [members] child after it that has a member to append
    makes the mapper raise [AttributeError]. *)
Theorem PfamClan_families release_version release_date entry :
  Forall (fun el => tag el ≠ "members" → setattr_error (tag el) = None)
         (children entry) →
  (Forall (fun el => tag el ≠ "families") (children entry) →
   ∃ c, PfamClan release_version release_date entry = Ok c
        ∧ getattr c "families"
          = Ok (VList (List.map PfamClanMember (grandchildren "members" entry))))
  ∧ (∀ pre f post,
       children entry = (pre ++ f :: post)%list →
       tag f = "families" →
       Exists (fun el => tag el = "members" ∧ children el ≠ []) post →
       Forall (fun el => tag el = "families" → scalar (text el) = true)
              (f :: post) →
       PfamClan release_version release_date entry = Raise AttributeError).
Proof.
  intros Hset. split.
  - intros Hl. unfold PfamClan.
    match goal with
    | |- context [for_each _ ?init _] =>
        destruct (PfamClan_loop (children entry) init [] eq_refl
                    (ex_intro _ VNone eq_refl) Hset Hl) as (self & E & Hd & Hf)
    end.
    rewrite E. simpl. destruct (with_entry_ok "PfamClan" self entry Hd) as [c Hc].
    exists c. split; [exact Hc|].
    apply with_entry_inv in Hc as (d & _ & ->). simpl.
    rewrite lookup_insert_ne by done. by rewrite Hf.
  - intros pre f post Hc Hf Hex Hsc. unfold PfamClan.
    rewrite Hc in Hset |- *. rewrite for_each_app.
    apply Forall_app in Hset as [Hpre Hpost].
    destruct (for_each PfamClan_body _ pre) as [s1|e] eqn:E1; simpl.
    + apply Forall_cons in Hpost as [Hsf Hpost].
      apply Forall_cons in Hsc as [Hscf Hsc].
      cbn [for_each]. rewrite (PfamClan_body_eq s1 f).
      rewrite (proj2 (tag_is_false _ _)) by (rewrite Hf; discriminate).
      rewrite setattr_spec, Hsf by (rewrite Hf; discriminate). simpl.
      rewrite (PfamClan_loop_fail post _ (text f)); [done| |by apply Hscf|done..].
      rewrite Hf. apply lookup_insert_eq.
    + f_equal. apply (for_each_error_in _ _ _ _ _
                        (fun a x e' Hx => PfamClan_body_error a x e'
                           (proj1 (Forall_forall _ _) Hpre x Hx)) E1).
Qed.

(** ** The curation details *)

Lemma find_text_ok el name :
  has_child name el = true → ∃ v, find_text el name = Ok v.
Proof.
  unfold has_child, find_text. destruct (Element_find el name); [eauto|discriminate].
Qed.

Lemma find_text_raise el name :
  has_child name el = false → find_text el name = Raise AttributeError.
Proof.
  unfold has_child, find_text. by destruct (Element_find el name).
Qed.

Lemma PfamCurationDetails_body_outcome self el :
  match PfamCurationDetails_error el with
  | Some e => PfamCurationDetails_body self el = Raise e
  | None => ∃ self', PfamCurationDetails_body self el = Ok self' ∧ True
  end.
Proof.
  unfold PfamCurationDetails_error, PfamCurationDetails_body.
  destruct (tag_is el "num_seqs").
  - destruct (has_child "seed" el) eqn:Hs; simpl.
    + destruct (find_text_ok _ _ Hs) as [v1 ->]. simpl.
      destruct (has_child "full" el) eqn:Hf.
      * destruct (find_text_ok _ _ Hf) as [v2 ->]. simpl. eauto.
      * by rewrite (find_text_raise _ _ Hf).
    + by rewrite (find_text_raise _ _ Hs).
  - rewrite setattr_spec. destruct (setattr_error (tag el)); eauto.
Qed.

Lemma PfamCurationDetails_body_num_seqs key child s el s' :
  (key = "num_seqs_seed" ∧ child = "seed")
  ∨ (key = "num_seqs_full" ∧ child = "full") →
  tag el ≠ key →
  PfamCurationDetails_body s el = Ok s' →
  if tag_is el "num_seqs"
  then ∃ v, find_text el child = Ok v ∧ s' !! key = Some v
  else s' !! key = s !! key.
Proof.
  intros Hk Ht. unfold PfamCurationDetails_body.
  destruct (tag_is el "num_seqs").
  - destruct (find_text el "seed") as [seed|] eqn:Es; [|discriminate]. simpl.
    destruct (find_text el "full") as [full|] eqn:Ef; [|discriminate]. simpl.
    intros [= <-]. destruct Hk as [[-> ->]|[-> ->]].
    + exists seed. split; [done|].
      rewrite lookup_insert_ne by done. apply lookup_insert_eq.
    + exists full. split; [done|]. apply lookup_insert_eq.
  - intros ->%setattr_Ok. by rewrite lookup_insert_ne.
Qed.

(** X12. [PfamCurationDetails] raises exactly when a child does, and then
    what the first such child raises: [AttributeError] for a [num_seqs]
    without a [seed] or a [full] child, and what [setattr] raises for a
    tag it refuses. In the object returned otherwise, the seed and full
    counts are the texts of the [seed] and [full] children of the last
    [num_seqs] child, when no child is itself tagged [num_seqs_seed] or
    [num_seqs_full]. *)
Theorem PfamCurationDetails_outcome element :
  match first_error PfamCurationDetails_error (children element) with
  | Some e => PfamCurationDetails element = Raise e
  | None => ∃ obj, PfamCurationDetails element = Ok obj
  end
  ∧ (∀ obj ns,
       PfamCurationDetails element = Ok obj →
       last_tagged "num_seqs" (children element) = Some ns →
       Forall (fun el => tag el ≠ "num_seqs_seed" ∧ tag el ≠ "num_seqs_full")
              (children element) →
       getattr obj "num_seqs_seed" = find_text ns "seed"
       ∧ getattr obj "num_seqs_full" = find_text ns "full").
Proof.
  unfold PfamCurationDetails.
  match goal with |- context [for_each _ ?i _] => generalize i end. intros init.
  split.
  - pose proof (for_each_first_error PfamCurationDetails_body
                  PfamCurationDetails_error (fun _ => True) (children element)
                  init I
                  (fun a x _ _ => PfamCurationDetails_body_outcome a x)) as H.
    destruct (first_error _ (children element)).
    + by rewrite H.
    + destruct H as (self & -> & _). simpl. eauto.
  - intros obj ns H Hns Hl.
    destruct (for_each PfamCurationDetails_body init (children element))
      as [self|] eqn:E; [|discriminate].
    injection H as <-.
    pose proof (for_each_last_writer PfamCurationDetails_body "num_seqs_seed"
                  (fun el => tag_is el "num_seqs")
                  (fun el o => ∃ v, find_text el "seed" = Ok v ∧ o = Some v) _ _ _
                  (fun s el s' Hin =>
                     PfamCurationDetails_body_num_seqs _ _ s el s'
                       (or_introl (conj eq_refl eq_refl))
                       (proj1 (proj1 (Forall_forall _ _) Hl el Hin))) E) as H1.
    pose proof (for_each_last_writer PfamCurationDetails_body "num_seqs_full"
                  (fun el => tag_is el "num_seqs")
                  (fun el o => ∃ v, find_text el "full" = Ok v ∧ o = Some v) _ _ _
                  (fun s el s' Hin =>
                     PfamCurationDetails_body_num_seqs _ _ s el s'
                       (or_intror (conj eq_refl eq_refl))
                       (proj2 (proj1 (Forall_forall _ _) Hl el Hin))) E) as H2.
    rewrite last_where_tagged, Hns in H1, H2.
    destruct H1 as (v1 & -> & Hv1), H2 as (v2 & -> & Hv2).
    simpl. by rewrite Hv1, Hv2.
Qed.

(** ** The parts of a family *)

Lemma PfamFamily_body_parts s el s' :
  PfamFamily_body s el = Ok s' →
  (if tag_is el "curation_details"
   then ∃ v, PfamCurationDetails el = Ok v ∧ s' !! "curation_details" = Some v
   else s' !! "curation_details" = s !! "curation_details")
  ∧ (if tag_is el "hmm_details"
     then ∃ v, PfamHmmDetails el = Ok v ∧ s' !! "hmm_details" = Some v
     else s' !! "hmm_details" = s !! "hmm_details")
  ∧ (if tag_is el "go_terms"
     then s' !! "go_terms" = Some (go_terms_list el)
     else s' !! "go_terms" = s !! "go_terms")
  ∧ (if assigns_Family "clan" el
     then s' !! "clan"
          = Some (if tag_is el "clan_membership" then clan_entry el else text el)
     else s' !! "clan" = s !! "clan").
Proof.
  destruct el as [t a x tl c].
  unfold PfamFamily_body, assigns_Family, tag_is. cbn [tag text].
  destruct (String.eqb_spec t "curation_details") as [->|H1].
  { destruct (PfamCurationDetails _) as [o|]; [|discriminate]. simpl.
    intros [= <-]. rewrite lookup_insert_eq, !lookup_insert_ne by done.
    repeat split; eauto. }
  destruct (String.eqb_spec t "hmm_details") as [->|H2].
  { destruct (PfamHmmDetails _) as [o|]; [|discriminate]. simpl.
    intros [= <-]. rewrite lookup_insert_eq, !lookup_insert_ne by done.
    repeat split; eauto. }
  destruct (String.eqb_spec t "clan_membership") as [->|H3].
  { intros [= <-]. simpl. rewrite lookup_insert_eq, !lookup_insert_ne by done.
    repeat split; eauto. }
  destruct (String.eqb_spec t "go_terms") as [->|H4].
  { intros [= <-]. simpl. rewrite lookup_insert_eq, !lookup_insert_ne by done.
    repeat split; eauto. }
  intros ->%setattr_Ok. rewrite !lookup_insert_ne by done.
  repeat (split; [reflexivity|]).
  destruct (String.eqb_spec "clan" t) as [<-|Hc].
  - apply lookup_insert_eq.
  - by rewrite lookup_insert_ne.
Qed.

(** X13. The parts of a mapped family come from the last child that
    assigns them, and a part that no child assigns is no attribute at all:
    reading it raises [AttributeError]. The curation and HMM details are
    what their mappers return for the last [curation_details] and
    [hmm_details] child; the GO terms are those of the last [go_terms]
    child alone; the clan comes from the last child tagged
    [clan_membership] or [clan], and is the entry that the former names or
    the text of the latter. *)
Theorem PfamFamily_parts release_version release_date entry fam :
  PfamFamily release_version release_date entry = Ok fam →
  match last_tagged "curation_details" (children entry) with
  | Some el => ∃ o, PfamCurationDetails el = Ok o
                    ∧ getattr fam "curation_details" = Ok o
  | None => getattr fam "curation_details" = Raise AttributeError
  end
  ∧ match last_tagged "hmm_details" (children entry) with
    | Some el => ∃ o, PfamHmmDetails el = Ok o ∧ getattr fam "hmm_details" = Ok o
    | None => getattr fam "hmm_details" = Raise AttributeError
    end
  ∧ getattr fam "go_terms"
    = match last_tagged "go_terms" (children entry) with
      | Some el => Ok (go_terms_list el)
      | None => Raise AttributeError
      end
  ∧ getattr fam "clan"
    = match last_where (assigns_Family "clan") (children entry) with
      | Some el =>
          Ok (if tag_is el "clan_membership" then clan_entry el else text el)
      | None => Raise AttributeError
      end.
Proof.
  unfold PfamFamily. intros H.
  destruct (for_each PfamFamily_body _ (children entry)) as [self|] eqn:E;
    [|discriminate].
  simpl in H. apply with_entry_inv in H as (d & _ & ->). simpl.
  rewrite !lookup_insert_ne by done.
  pose proof (for_each_last_writer PfamFamily_body "curation_details"
                (fun el => tag_is el "curation_details")
                (fun el o => ∃ v, PfamCurationDetails el = Ok v ∧ o = Some v)
                _ _ _ (fun s el s' _ Hb =>
                         proj1 (PfamFamily_body_parts s el s' Hb)) E) as H1.
  pose proof (for_each_last_writer PfamFamily_body "hmm_details"
                (fun el => tag_is el "hmm_details")
                (fun el o => ∃ v, PfamHmmDetails el = Ok v ∧ o = Some v)
                _ _ _ (fun s el s' _ Hb =>
                         proj1 (proj2 (PfamFamily_body_parts s el s' Hb))) E) as H2.
  pose proof (for_each_last_writer PfamFamily_body "go_terms"
                (fun el => tag_is el "go_terms")
                (fun el o => o = Some (go_terms_list el))
                _ _ _ (fun s el s' _ Hb =>
                         proj1 (proj2 (proj2 (PfamFamily_body_parts s el s' Hb))))
                E) as H3.
  pose proof (for_each_last_writer PfamFamily_body "clan"
                (assigns_Family "clan")
                (fun el o => o = Some (if tag_is el "clan_membership"
                                       then clan_entry el else text el))
                _ _ _ (fun s el s' _ Hb =>
                         proj2 (proj2 (proj2 (PfamFamily_body_parts s el s' Hb))))
                E) as H4.
  rewrite last_where_tagged in H1, H2, H3.
  split; [|split; [|split]].
  - destruct (last_tagged "curation_details" (children entry)).
    + destruct H1 as (v & Hv & ->). by exists v.
    + by rewrite H1.
  - destruct (last_tagged "hmm_details" (children entry)).
    + destruct H2 as (v & Hv & ->). by exists v.
    + by rewrite H2.
  - destruct (last_tagged "go_terms" (children entry)); by rewrite H3.
  - destruct (last_where (assigns_Family "clan") (children entry)); by rewrite H4.
Qed.

(** ** The cutoffs of the HMM details *)

Lemma last_tagged_app name l1 l2 :
  last_tagged name (l1 ++ l2)%list
  = match last_tagged name l2 with
    | Some e => Some e
    | None => last_tagged name l1
    end.
Proof.
  induction l1 as [|el l1 IH]; simpl.
  - by destruct (last_tagged name l2).
  - rewrite IH. by destruct (last_tagged name l2).
Qed.

Lemma PfamHmmDetails_cutoff_step self cut d0 :
  self !! "cutoffs" = Some (VDict d0) →
  PfamHmmDetails_cutoff self cut
  = match cutoff_error cut with
    | Some e => Raise e
    | None => Ok (<["cutoffs" := VDict (<[tag cut := cutoff_value cut]> d0)]> self)
    end.
Proof.
  intros Hs. unfold PfamHmmDetails_cutoff, cutoff_error, complete_cutoff,
    cutoff_value, has_child, find_text.
  destruct (Element_find cut "sequence"); simpl; [|reflexivity].
  destruct (Element_find cut "domain"); simpl; [|reflexivity].
  by rewrite Hs.
Qed.

(** The loop over the cutoffs of one [<cutoffs>] element. *)
Lemma cutoff_loop l self d0 :
  self !! "cutoffs" = Some (VDict d0) →
  match first_error cutoff_error l with
  | Some e => for_each PfamHmmDetails_cutoff self l = Raise e
  | None =>
      ∃ self' d',
        for_each PfamHmmDetails_cutoff self l = Ok self'
        ∧ self' !! "cutoffs" = Some (VDict d')
        ∧ ∀ k, d' !! k = match last_tagged k l with
                         | Some cut => Some (cutoff_value cut)
                         | None => d0 !! k
                         end
  end.
Proof.
  revert self d0. induction l as [|cut l IH]; intros self d0 Hs;
    cbn [for_each first_error].
  - by exists self, d0.
  - rewrite (PfamHmmDetails_cutoff_step _ _ _ Hs).
    destruct (cutoff_error cut); [reflexivity|]. simpl.
    specialize (IH (<["cutoffs" := VDict (<[tag cut := cutoff_value cut]> d0)]> self)
                  _ (lookup_insert_eq _ _ _)).
    destruct (first_error cutoff_error l); [exact IH|].
    destruct IH as (self' & d' & E & Hd' & Hk).
    exists self', d'. split; [exact E|]. split; [exact Hd'|].
    intros k. rewrite Hk. destruct (last_tagged k l); [reflexivity|].
    destruct (tag_is cut k) eqn:Et.
    + apply tag_is_true in Et as <-. apply lookup_insert_eq.
    + apply tag_is_false in Et. by apply lookup_insert_ne.
Qed.

Lemma PfamHmmDetails_body_eq self el :
  PfamHmmDetails_body self el
  = if tag_is el "cutoffs"
    then for_each PfamHmmDetails_cutoff self (children el)
    else setattr self (tag el) (text el).
Proof. reflexivity. Qed.

Lemma hmm_loop l self d0 :
  self !! "cutoffs" = Some (VDict d0) →
  match first_error PfamHmmDetails_error l with
  | Some e => for_each PfamHmmDetails_body self l = Raise e
  | None =>
      ∃ self' d',
        for_each PfamHmmDetails_body self l = Ok self'
        ∧ self' !! "cutoffs" = Some (VDict d')
        ∧ ∀ k, d' !! k
               = match last_tagged k
                         (List.concat
                            (List.map children
                               (List.filter (fun el => tag_is el "cutoffs") l))) with
                 | Some cut => Some (cutoff_value cut)
                 | None => d0 !! k
                 end
  end.
Proof.
  revert self d0. induction l as [|el l IH]; intros self d0 Hs;
    cbn [for_each first_error List.filter].
  - by exists self, d0.
  - rewrite (PfamHmmDetails_body_eq self el). unfold PfamHmmDetails_error at 1.
    destruct (tag_is el "cutoffs") eqn:Et.
    + pose proof (cutoff_loop (children el) self d0 Hs) as Hin.
      destruct (first_error cutoff_error (children el)) as [e|].
      { by rewrite Hin. }
      destruct Hin as (s1 & d1 & -> & Hd1 & Hk1). simpl.
      specialize (IH s1 d1 Hd1).
      destruct (first_error PfamHmmDetails_error l); [exact IH|].
      destruct IH as (self' & d' & E & Hd' & Hk).
      exists self', d'. split; [exact E|]. split; [exact Hd'|].
      intros k. rewrite Hk, last_tagged_app, Hk1.
      by destruct (last_tagged k (List.concat _)).
    + rewrite setattr_spec. destruct (setattr_error (tag el)); [reflexivity|].
      simpl. apply tag_is_false in Et. apply IH. by rewrite lookup_insert_ne.
Qed.

(** X14. [PfamHmmDetails] raises exactly when a child does, and then what
    the first such child raises: [AttributeError] for a [cutoffs] with a
    cutoff that lacks a [sequence] or a [domain] child, and what [setattr]
    raises for a tag it refuses. In the object returned otherwise,
    [cutoffs] is a dictionary that maps the tag of each cutoff to the pair
    of the texts of its two children, the last cutoff of a tag winning, and
    has no other key. *)
Theorem PfamHmmDetails_outcome element :
  match first_error PfamHmmDetails_error (children element) with
  | Some e => PfamHmmDetails element = Raise e
  | None =>
      ∃ obj d,
        PfamHmmDetails element = Ok obj
        ∧ getattr obj "cutoffs" = Ok (VDict d)
        ∧ ∀ k, d !! k
               = cutoff_value <$> last_tagged k (grandchildren "cutoffs" element)
  end.
Proof.
  unfold PfamHmmDetails.
  match goal with
  | |- context [for_each _ ?init _] =>
      pose proof (hmm_loop (children element) init ∅ eq_refl) as H
  end.
  destruct (first_error PfamHmmDetails_error (children element)) as [e|].
  - by rewrite H.
  - destruct H as (self & d & -> & Hd & Hk). simpl.
    eexists _, d. split; [reflexivity|]. simpl. rewrite Hd.
    split; [reflexivity|]. intros k. rewrite Hk. unfold grandchildren.
    by destruct (last_tagged k _).
Qed.

(** ** What the derived fetches fetch *)

Section Matches.

Variable w : World.

Lemma PfamEntry_getattr type id accession description :
  getattr (PfamEntry type id accession description) "type" = Ok type
  ∧ getattr (PfamEntry type id accession description) "accession" = Ok accession
  ∧ getattr (PfamEntry type id accession description) "id" = Ok id
  ∧ getattr (PfamEntry type id accession description) "description"
    = Ok description.
Proof.
  unfold PfamEntry, getattr. by rewrite !list_to_map_lookup_find.
Qed.

Lemma PfamEntry_fetch_by_type type id accession description σ :
  PfamEntry_fetch w (PfamEntry type id accession description) σ
  = fetch_by_type w type accession σ.
Proof.
  destruct (PfamEntry_getattr type id accession description) as (Ht & Ha & _).
  unfold PfamEntry_fetch, fetch_by_type, mbind, M_bind, lift. rewrite Ht, Ha.
  destruct (val_eq_str type "Pfam-A"); [reflexivity|].
  destruct (val_eq_str type "Clan"); [reflexivity|].
  destruct (val_eq_str type "sequence"); reflexivity.
Qed.

Lemma PfamMatch_fetch_by_type element m σ :
  PfamMatch element = Ok m →
  PfamMatch_fetch_family w m σ
  = fetch_by_type w (Element_get element "type")
                  (Element_get element "accession") σ.
Proof.
  unfold PfamMatch. destruct (for_each _ _ _) as [locations|]; [|discriminate].
  intros [= <-]. unfold PfamMatch_fetch_family, mbind, M_bind, lift.
  cbn [getattr]. rewrite lookup_insert_eq. simpl.
  apply PfamEntry_fetch_by_type.
Qed.

Lemma getattr_lookup cls attrs name :
  attrs !! name = match getattr (VObj cls attrs) name with
                  | Ok v => Some v
                  | Raise _ => None
                  end.
Proof. simpl. by destruct (attrs !! name). Qed.

(** X16. What [fetch_family] fetches. On a match it is decided by the
    [type] attribute of the match element: the family, the clan or the
    protein of its [accession], or nothing for another type. On a mapped
    protein the call raises [TypeError] when the entry has a child tagged
    [fetch_family]; otherwise it is the fetch of the first match element
    of the response, and nothing, with no request made, when the response
    has none. *)
Theorem fetch_family_by_type release_version release_date entry p σ :
  PfamProtein release_version release_date entry = Ok p →
  (∀ element m, PfamMatch element = Ok m →
                PfamMatch_fetch_family w m σ
                = fetch_by_type w (Element_get element "type")
                                (Element_get element "accession") σ)
  ∧ PfamProtein_fetch_family w p σ
    = match last_tagged "fetch_family" (children entry) with
      | Some _ => (Raise TypeError, σ)
      | None =>
          match grandchildren "matches" entry with
          | [] => (Ok VNone, σ)
          | element :: _ =>
              fetch_by_type w (Element_get element "type")
                            (Element_get element "accession") σ
          end
      end.
Proof.
  intros Hp. split; [intros element m; apply PfamMatch_fetch_by_type|].
  pose proof Hp as Hp'. unfold PfamProtein in Hp'.
  pose proof (root_fields_plain PfamProtein_body assigns_Protein special_Protein
                _ _ _ _ "fetch_family"
                (fun n s el s' => PfamProtein_body_assign n s el s')
                (fun el => assigns_Protein_plain "fetch_family" el eq_refl)
                ltac:(discriminate) Hp') as Hff.
  destruct (for_each PfamProtein_body _ (children entry)) as [self|] eqn:E;
    [|discriminate].
  simpl in Hp'. apply with_entry_inv in Hp' as (d & _ & ->).
  match type of E with
  | for_each _ ?init _ = _ =>
      destruct (PfamProtein_loop_matches _ init [] _ eq_refl E) as (ms & Hms & Hs)
  end.
  unfold PfamProtein_fetch_family, mbind, M_bind, lift, method_lookup.
  rewrite (getattr_lookup "PfamProtein" _ "fetch_family"), Hff.
  destruct (last_tagged "fetch_family" (children entry)); [reflexivity|].
  cbn [getattr]. rewrite list_to_map_lookup_find. simpl.
  rewrite lookup_insert_ne by done. rewrite Hs. simpl.
  unfold grandchildren.
  destruct (List.concat _) as [|element l]; simpl in Hms.
  - by injection Hms as <-.
  - destruct (PfamMatch element) as [m|] eqn:Em; [|discriminate]. simpl in Hms.
    destruct (map_res PfamMatch l); [|discriminate]. injection Hms as <-.
    simpl. rewrite (PfamMatch_instance _ _ Em).
    by apply PfamMatch_fetch_by_type.
Qed.

End Matches.

(** ** The query facade, further *)

Lemma keeps_default_ret {A} (a : A) : keeps_default (mret a).
Proof. by intros σ H. Qed.

Lemma keeps_default_raise {A} e : keeps_default (raise e : M A).
Proof. by intros σ H. Qed.

Lemma keeps_default_lift {A} (r : res A) : keeps_default (lift r).
Proof. by intros σ H. Qed.

Lemma keeps_default_bind {A B} (m : M A) (k : A → M B) :
  keeps_default m → (∀ a, keeps_default (k a)) → keeps_default (m ≫= k).
Proof.
  intros Hm Hk σ H. unfold mbind, M_bind. specialize (Hm σ H).
  destruct (m σ) as [[a|e] σ1]; [by apply Hk|done].
Qed.

Lemma keeps_default_new d : keeps_default (dict_new d).
Proof.
  intros σ (d0 & Hd & Ho). exists d0. split; [|done]. simpl.
  rewrite lookup_app_l; [done|]. by eapply lookup_lt_Some.
Qed.

Section Facade.

Variable w : World.

Lemma keeps_default_request path params headers timeout :
  keeps_default (request w path params headers timeout).
Proof.
  intros σ (d0 & Hd0 & Ho).
  destruct (heap σ !! default default_params params) as [d|] eqn:Hd.
  - unfold default_ok. rewrite (request_heap _ _ _ _ _ _ _ Hd).
    destruct (decide (default default_params params = default_params)) as [He|Hne].
    + rewrite He in *. rewrite Hd in Hd0. injection Hd0 as ->.
      exists (with_output d0). split.
      * apply list_lookup_insert_eq. by eapply lookup_lt_Some.
      * right. by apply with_output_xml.
    + exists d0. split; [|done]. by rewrite list_lookup_insert_ne.
  - unfold request, mbind, M_bind, dict_setdefault. rewrite Hd. simpl.
    by exists d0.
Qed.

Lemma keeps_default_family id : keeps_default (family w id).
Proof.
  unfold family. apply keeps_default_bind; [apply keeps_default_lift|intros path].
  apply keeps_default_bind; [apply keeps_default_request|intros root].
  apply keeps_default_lift.
Qed.

Lemma keeps_default_clan id : keeps_default (clan w id).
Proof.
  unfold clan. apply keeps_default_bind; [apply keeps_default_lift|intros path].
  apply keeps_default_bind; [apply keeps_default_request|intros root].
  apply keeps_default_lift.
Qed.

Lemma keeps_default_protein id : keeps_default (protein w id).
Proof.
  unfold protein. apply keeps_default_bind; [apply keeps_default_lift|intros path].
  apply keeps_default_bind; [apply keeps_default_request|intros root].
  apply keeps_default_lift.
Qed.

Lemma keeps_default_fetch self : keeps_default (PfamEntry_fetch w self).
Proof.
  unfold PfamEntry_fetch. apply keeps_default_bind; [apply keeps_default_lift|].
  intros type.
  destruct (val_eq_str type "Pfam-A").
  { apply keeps_default_bind; [apply keeps_default_lift|intros a].
    apply keeps_default_family. }
  destruct (val_eq_str type "Clan").
  { apply keeps_default_bind; [apply keeps_default_lift|intros a].
    apply keeps_default_clan. }
  destruct (val_eq_str type "sequence").
  { apply keeps_default_bind; [apply keeps_default_lift|intros a].
    apply keeps_default_protein. }
  apply keeps_default_ret.
Qed.

Lemma keeps_default_match_fetch self : keeps_default (PfamMatch_fetch_family w self).
Proof.
  unfold PfamMatch_fetch_family. apply keeps_default_bind; [apply keeps_default_lift|].
  intros entry. destruct (is_instance _ _);
    auto using keeps_default_fetch, keeps_default_raise.
Qed.

(** X17. The default dictionary stays fit for XML. It starts empty, and
    whatever operation of the module runs, with whatever argument and
    outcome, it is still there afterwards and has no ['output'] other than
    ['xml']. So a request made without [params] never returns text. *)
Theorem default_params_invariant :
  default_ok initial_state
  ∧ (∀ id self path params headers timeout,
       keeps_default (request w path params headers timeout)
       ∧ keeps_default (family w id) ∧ keeps_default (clan w id)
       ∧ keeps_default (protein w id) ∧ keeps_default (families w)
       ∧ keeps_default (clans w) ∧ keeps_default (proteins w id)
       ∧ keeps_default (PfamEntry_fetch w self)
       ∧ keeps_default (PfamMatch_fetch_family w self)
       ∧ keeps_default (PfamProtein_fetch_family w self))
  ∧ (∀ σ path headers timeout body,
       default_ok σ →
       (request w path None headers timeout σ).1 ≠ Ok (inr body)).
Proof.
  split; [|split].
  - exists ∅. split; [reflexivity|by left].
  - intros id self path params headers timeout.
    split; [apply keeps_default_request|].
    split; [apply keeps_default_family|].
    split; [apply keeps_default_clan|].
    split; [apply keeps_default_protein|].
    split.
    { unfold families. apply keeps_default_bind; [apply keeps_default_new|intros l].
      apply keeps_default_bind; [apply keeps_default_request|intros r].
      apply keeps_default_bind; [apply keeps_default_lift|intros body].
      apply keeps_default_ret. }
    split.
    { unfold clans. apply keeps_default_bind; [apply keeps_default_new|intros l].
      apply keeps_default_bind; [apply keeps_default_request|intros r].
      apply keeps_default_bind; [apply keeps_default_lift|intros body].
      apply keeps_default_ret. }
    split.
    { unfold proteins. apply keeps_default_bind; [apply keeps_default_new|intros l].
      apply keeps_default_bind; [apply keeps_default_lift|intros path'].
      apply keeps_default_bind; [apply keeps_default_request|intros r].
      apply keeps_default_bind; [apply keeps_default_lift|intros body].
      apply keeps_default_ret. }
    split; [apply keeps_default_fetch|].
    split; [apply keeps_default_match_fetch|].
    unfold PfamProtein_fetch_family.
    apply keeps_default_bind; [apply keeps_default_lift|intros _].
    apply keeps_default_bind; [apply keeps_default_lift|intros matches].
    apply keeps_default_bind; [apply keeps_default_lift|intros n].
    destruct (0 <? n)%nat; [|apply keeps_default_ret].
    apply keeps_default_bind; [apply keeps_default_lift|intros m].
    destruct (is_instance _ _);
      auto using keeps_default_match_fetch, keeps_default_raise.
  - intros σ path headers timeout body (d & Hd & Ho).
    rewrite (request_unfold _ _ None _ _ _ _ Hd). cbv zeta.
    rewrite (with_output_xml _ Ho). simpl.
    destruct (requests_get _ _ _ _ _ _); [|discriminate].
    destruct (is_error_status _); [discriminate|].
    destruct (fromstring _ _); [|discriminate].
    by destruct (String.eqb _ _).
Qed.

(** X18. An id that is no string stops a fetch before anything is sent:
    [family], [clan] and [protein] raise [TypeError] and leave the state as
    it was; [proteins] raises [TypeError] too, having built its options but
    made no request. *)
Theorem fetch_requires_string id σ :
  is_str id = false →
  family w id σ = (Raise TypeError, σ)
  ∧ clan w id σ = (Raise TypeError, σ)
  ∧ protein w id σ = (Raise TypeError, σ)
  ∧ (proteins w id σ).1 = Raise TypeError
  ∧ trace (proteins w id σ).2 = trace σ.
Proof.
  intros Hid. unfold family, clan, protein, proteins, mbind, M_bind, lift, dict_new.
  destruct id; try discriminate; by repeat split.
Qed.

End Facade.

(** ** The list endpoints, further *)

Lemma str_before_free c s : str_free c (str_before c s) = true.
Proof.
  induction s as [|a s IH]; [reflexivity|]. simpl.
  destruct (Ascii.eqb a c) eqn:E; [reflexivity|]. simpl. by rewrite E.
Qed.

Lemma line_entry_inv kind line e :
  line_entry kind line = Some e →
  ∃ accession id description,
    str_split tab line = [accession; id; description]
    ∧ e = PfamEntry (VStr kind) (VStr id) (VStr accession) (VStr description).
Proof.
  unfold line_entry.
  destruct (str_split tab line) as [|f0 [|f1 [|f2 [|f3 fs]]]]; try discriminate.
  intros [= <-]. by exists f0, f1, f2.
Qed.

Section Lists2.

Variable w : World.

(** X19. [clans] reads the body as [families] does: the entries are, in
    the order of the lines, those of the lines with three tab-separated
    fields, of kind ['Clan'], the fields kept as the strings they are, a
    numeral included; there are never more entries than lines. *)
Theorem clans_entries σ response :
  requests_get w (trace σ) (base_url ++ "/clans")
               {["output" := VStr "text"]} VNone VNone = Ok response →
  is_error_status (status_code response) = false →
  ∃ entries,
    (clans w σ).1 = Ok entries
    ∧ entries = omap (line_entry "Clan") (str_splitlines (response_text response))
    ∧ (length entries ≤ length (str_splitlines (response_text response)))%nat
    ∧ Forall (fun e => ∃ accession id description,
                  e = PfamEntry (VStr "Clan") (VStr id) (VStr accession)
                                (VStr description)
                  ∧ str_free "009" accession = true ∧ str_free "009" id = true
                  ∧ str_free "009" description = true) entries.
Proof.
  intros Hget Hst. eexists. split; [|split; [reflexivity|]].
  - unfold clans, mbind, M_bind, dict_new.
    pose proof (request_text w "/clans" {["output" := VStr "text"]}
                  (VStr "text") VNone VNone σ response
                  (lookup_singleton_eq _ _) eq_refl Hget Hst) as Hreq.
    destruct (request _ _ _ _ _ _) as [r σ']. simpl in Hreq. subst r.
    unfold lift, mret, M_ret. simpl. by rewrite foldl_entry_of_line.
  - split.
    + generalize (str_splitlines (response_text response)). intros lines.
      induction lines as [|line lines IH]; [done|].
      change (omap (line_entry "Clan") (line :: lines))
        with (match line_entry "Clan" line with
              | Some e => e :: omap (line_entry "Clan") lines
              | None => omap (line_entry "Clan") lines
              end).
      destruct (line_entry "Clan" line); cbn [length]; lia.
    + apply Forall_forall. intros e He.
      apply list_elem_of_omap in He as (line & _ & He).
      apply line_entry_inv in He as (accession & id & description & Hsplit & ->).
      exists accession, id, description. split; [reflexivity|].
      destruct (str_join_split_char "009" line) as [_ Hfree].
      change (sep1 "009") with tab in Hfree. rewrite Hsplit in Hfree.
      by repeat (apply Forall_cons in Hfree as [? Hfree]).
Qed.

(** X20. An entry listed by [families] or [clans] can be fetched: [fetch]
    on the entry of a line is [family], respectively [clan], on the first
    field of the line. *)
Theorem listed_entry_fetch line e σ :
  (line_entry "Pfam-A" line = Some e →
   ∃ accession, hd_error (str_split tab line) = Some accession
                ∧ PfamEntry_fetch w e σ = family w (VStr accession) σ)
  ∧ (line_entry "Clan" line = Some e →
     ∃ accession, hd_error (str_split tab line) = Some accession
                  ∧ PfamEntry_fetch w e σ = clan w (VStr accession) σ).
Proof.
  split; intros (accession & id & description & Hsplit & ->)%line_entry_inv;
    exists accession; rewrite Hsplit; (split; [reflexivity|]);
    by rewrite PfamEntry_fetch_by_type.
Qed.

(** X21. The names returned by [proteins] are as many as the lines of the
    body, and none of them holds a ['/']. *)
Theorem proteins_names_shape σ family response :
  requests_get w (trace σ)
               (base_url ++ ("/family/" ++ family) ++ "/alignment/full/format")
               alignment_params VNone VNone = Ok response →
  is_error_status (status_code response) = false →
  ∃ names,
    (proteins w (VStr family) σ).1 = Ok names
    ∧ length names = length (str_splitlines (response_text response))
    ∧ Forall (fun v => ∃ s, v = VStr s ∧ str_free "/" s = true) names.
Proof.
  intros Hget Hst. eexists. split; [|split].
  - unfold proteins, mbind, M_bind, dict_new.
    pose proof (request_text w (("/family/" ++ family) ++ "/alignment/full/format")
                  alignment_params (VStr "text") VNone VNone σ response
                  eq_refl eq_refl Hget Hst) as Hreq.
    unfold lift, mret, M_ret, res_ret. cbn [str_add res_bind].
    destruct (request _ _ _ _ _ _) as [r σ']. simpl in Hreq. subst r.
    cbn [as_text fst]. rewrite foldl_name_of_line. reflexivity.
  - by rewrite app_nil_l, length_map.
  - rewrite app_nil_l. apply Forall_forall. intros v Hv.
    apply list_elem_of_fmap in Hv as (line & -> & _).
    eexists. split; [reflexivity|]. apply str_before_free.
Qed.

End Lists2.

(** ** From the response to the mapped object *)

Lemma map_root_inv_date ctor r obj :
  map_root ctor r = Ok obj →
  ∃ root entry rest release_date,
    r = inl root ∧ children root = entry :: rest
    ∧ strptime_Ymd (Element_get root "release_date") = Ok release_date
    ∧ ctor (Element_get root "release") release_date entry = Ok obj.
Proof.
  unfold map_root. destruct r as [root|]; simpl; [|discriminate].
  destruct (strptime_Ymd _) as [release_date|] eqn:Ed; simpl; [|discriminate].
  unfold first_child. destruct (children root) as [|entry rest] eqn:Hc; simpl;
    [discriminate|].
  intros H. exists root, entry, rest, release_date. by rewrite Hc.
Qed.

Section Composition.

Variable w : World.

Lemma root_fetch_inv ctor path σ obj σ' :
  (root ← request w path None VNone VNone; lift (map_root ctor root)) σ
  = (Ok obj, σ') →
  ∃ d response root entry rest release_date,
    heap σ !! default_params = Some d
    ∧ requests_get w (trace σ) (base_url ++ path) (with_output d) VNone VNone
      = Ok response
    ∧ fromstring w (re_sub_xmlns (response_text response)) = Some root
    ∧ children (xml_process_tree root) = entry :: rest
    ∧ strptime_Ymd (Element_get (xml_process_tree root) "release_date")
      = Ok release_date
    ∧ ctor (Element_get (xml_process_tree root) "release") release_date entry
      = Ok obj.
Proof.
  unfold mbind, M_bind, lift.
  destruct (request _ _ _ _ _ _) as [[r|] σ1] eqn:Hreq; [|discriminate].
  destruct (map_root ctor r) as [obj'|] eqn:Hmap; [|discriminate].
  intros [= -> ->].
  apply request_ok_inv in Hreq as (d & response & Hd & Hget & Hr).
  apply map_root_inv_date in Hmap as (root' & entry & rest & rd & -> & Hch & Hdate & Hp).
  destruct Hr as [(root & Hparse & [= ->])|[=]].
  by exists d, response, root, entry, rest, rd.
Qed.

(** X22. What a fetch returns. When [family], [clan] or [protein] returns
    an object, the id is a string, one request was answered for the path
    of that id, the body parsed to a document, and the object is what the
    mapper of that name makes of the first child of the normalized root,
    with the root's [release] attribute as normalized and the date read
    from its [release_date] attribute. *)
Theorem root_fetch_composition id σ obj σ' :
  let fetched prefix ctor :=
    ∃ accession d response root entry rest release_date,
      id = VStr accession
      ∧ heap σ !! default_params = Some d
      ∧ requests_get w (trace σ) (base_url ++ prefix ++ accession)
                     (with_output d) VNone VNone = Ok response
      ∧ fromstring w (re_sub_xmlns (response_text response)) = Some root
      ∧ children (xml_process_tree root) = entry :: rest
      ∧ strptime_Ymd (Element_get (xml_process_tree root) "release_date")
        = Ok release_date
      ∧ ctor (Element_get (xml_process_tree root) "release") release_date entry
        = Ok obj in
  (family w id σ = (Ok obj, σ') → fetched "/family/" PfamFamily)
  ∧ (clan w id σ = (Ok obj, σ') → fetched "/clan/" PfamClan)
  ∧ (protein w id σ = (Ok obj, σ') → fetched "/protein/" PfamProtein).
Proof.
  cbv zeta. unfold family, clan, protein.
  repeat split; intros H; destruct id as [| |accession| | | |];
    try (unfold mbind, M_bind, lift in H; simpl in H; discriminate);
    exists accession;
    apply root_fetch_inv in H
      as (d & response & root & entry & rest & rd & ? & ? & ? & ? & ? & ?);
    by exists d, response, root, entry, rest, rd.
Qed.

End Composition.

(** X23. The errors of a fetch after the response is parsed, in their
    order. A root whose normalized [release_date] is no string (a missing
    attribute, or one that reads as a number) raises [TypeError]; a string
    that is no date raises [ValueError]; with a date, a root without
    children raises [IndexError]; and only then does the mapper run. *)
Theorem map_root_errors ctor root :
  (is_str (Element_get root "release_date") = false →
   map_root ctor (inl root) = Raise TypeError)
  ∧ (∀ s, Element_get root "release_date" = VStr s → parse_Ymd s = None →
          map_root ctor (inl root) = Raise ValueError)
  ∧ (∀ s y m d, Element_get root "release_date" = VStr s →
                parse_Ymd s = Some (y, m, d) →
                map_root ctor (inl root)
                = match children root with
                  | [] => Raise IndexError
                  | entry :: _ =>
                      ctor (Element_get root "release") (VDatetime y m d) entry
                  end).
Proof.
  unfold map_root, first_child. simpl. repeat split.
  - intros H. by destruct (Element_get root "release_date").
  - intros s -> Hs. simpl. by rewrite Hs.
  - intros s y m d -> Hs. simpl. rewrite Hs. simpl.
    by destruct (children root).
Qed.

(** * The further properties on concrete inputs *)

(** A word is left as it is. *)
Lemma xml_process_value_normalized_witness :
  xml_process_value (VStr "oops") = VStr "oops".
Proof.
  apply (proj1 (proj2 (xml_process_value_normalized (VStr "oops")))).
  split; [reflexivity|split; [discriminate|vm_compute; reflexivity]].
Defined.

(** The family response. *)
Lemma request_returns_normalized_witness :
  xml_process_tree (xml_process_tree family_doc) = xml_process_tree family_doc
  ∧ tag (xml_process_tree family_doc) ≠ "error".
Proof.
  refine (proj2 (request_returns_normalized
                   (serve family_body family_doc) "/family/PF00001" None VNone
                   VNone initial_state (xml_process_tree family_doc)
                   (request (serve family_body family_doc) "/family/PF00001"
                            None VNone VNone initial_state).2 _)).
  vm_compute. reflexivity.
Defined.

(** A request answered by an error document: one [GET], no normalizer. *)
Lemma request_one_round_trip_witness :
  trace (request (serve error_body error_doc) "/family/PF00001" None VNone VNone
                 initial_state).2
  = [EvGet (base_url ++ "/family/PF00001") (with_output ∅) VNone VNone].
Proof.
  rewrite (request_one_round_trip (serve error_body error_doc)
             "/family/PF00001" None VNone VNone initial_state ∅ eq_refl).
  vm_compute. reflexivity.
Defined.

(** No server, and a server answering 503 with a well-formed family. *)
Lemma request_transport_failure_witness :
  (request unreachable "/family/PF00001" None VNone VNone initial_state).1
  = Raise RequestException
  ∧ (request (serve_status 503 family_body family_doc) "/family/PF00001" None
             VNone VNone initial_state).1
    = Raise (HTTPError 503).
Proof.
  split.
  - apply (proj1 (request_transport_failure unreachable "/family/PF00001" None
                    VNone VNone initial_state ∅ eq_refl)).
    reflexivity.
  - apply (proj2 (request_transport_failure
                    (serve_status 503 family_body family_doc) "/family/PF00001"
                    None VNone VNone initial_state ∅ eq_refl)
             (mkResponse 503 family_body)).
    + reflexivity.
    + simpl. lia.
Defined.

(** A caller's dictionary asking for text, and the default dictionary. *)
Lemma request_result_kind_witness :
  (∃ response,
     requests_get (serve_text families_body) [] (base_url ++ "/families")
                  {["output" := VStr "text"]} VNone VNone = Ok response
     ∧ families_body = response_text response)
  ∧ with_output ∅ !! "output" = Some (VStr "xml").
Proof.
  split.
  - apply (proj1 (request_result_kind (serve_text families_body) "/families"
                    (Some 1%nat) VNone VNone text_state
                    {["output" := VStr "text"]} eq_refl) families_body).
    vm_compute. reflexivity.
  - apply (proj2 (request_result_kind (serve family_body family_doc)
                    "/family/PF00001" None VNone VNone initial_state ∅ eq_refl)
             (xml_process_tree family_doc)).
    vm_compute. reflexivity.
Defined.

(** The namespace of a start tag. *)
Lemma re_sub_xmlns_removes_one_witness :
  re_sub_xmlns namespaced_body = "<pfam" ++ " release='33.1'/>".
Proof.
  apply (proj2 (re_sub_xmlns_removes_one namespaced_body)
           "<pfam" "https://pfam.xfam.org/" " release='33.1'/>").
  - reflexivity.
  - discriminate.
  - vm_compute. reflexivity.
  - vm_compute. reflexivity.
Defined.

(** A family whose entry has a [<clan_membership>] and then a [<clan>]
    child: the clan is the text of the latter. *)
Lemma root_generic_field_witness :
  getattr (value_of (PfamFamily (VFloat float_33_1) (VDatetime 2022 2 1)
                                family_clan_entry)) "clan"
  = Ok (VStr "c").
Proof.
  apply (proj1 (root_generic_field (VFloat float_33_1) (VDatetime 2022 2 1)
                  family_clan_entry
                  (value_of (PfamFamily (VFloat float_33_1) (VDatetime 2022 2 1)
                                        family_clan_entry))
                  "clan" (elem "clan" [] (VStr "c") [])
                  ltac:(discriminate))).
  - vm_compute. reflexivity.
  - vm_compute. reflexivity.
  - reflexivity.
Defined.

(** The release of the family response. *)
Lemma root_release_recorded_witness :
  getattr (value_of (PfamFamily (VFloat float_33_1) (VDatetime 2022 2 1)
                                family_entry)) "pfam_release_version"
  = Ok (VFloat float_33_1).
Proof.
  assert (Hobj : PfamFamily (VFloat float_33_1) (VDatetime 2022 2 1) family_entry
                 = Ok (value_of (PfamFamily (VFloat float_33_1)
                                            (VDatetime 2022 2 1) family_entry)))
    by (vm_compute; reflexivity).
  destruct (root_release_recorded (VFloat float_33_1) (VDatetime 2022 2 1)
              family_entry _ (or_introl Hobj)) as [H _].
  rewrite H. vm_compute. reflexivity.
Defined.

(** The entry of the mapped protein. *)
Lemma root_entry_description_witness :
  getattr (mapped_protein []) "entry"
  = Ok (PfamEntry (VStr "sequence") (VStr "TEST_BACSU") (VStr "P12345")
                  (VStr "A synthetic protein")).
Proof.
  assert (Hobj : PfamProtein (VFloat float_33_1) (VDatetime 2022 2 1)
                   (xml_process_tree (protein_entry "Bacteria; Firmicutes." []))
                 = Ok (mapped_protein []))
    by (vm_compute; reflexivity).
  destruct (root_entry_description (VFloat float_33_1) (VDatetime 2022 2 1)
              (xml_process_tree (protein_entry "Bacteria; Firmicutes." []))
              (mapped_protein []) (or_intror (or_introl Hobj)))
    as [_ H].
  rewrite H. vm_compute. reflexivity.
Defined.

(** A protein with an empty [<taxonomy>], and one with a child tagged
    [__class__]. *)
Lemma PfamProtein_outcome_witness :
  PfamProtein (VFloat float_33_1) (VDatetime 2022 2 1)
    (xml_process_tree (protein_entry " " []))
  = Raise AttributeError
  ∧ PfamProtein (VFloat float_33_1) (VDatetime 2022 2 1)
      (xml_process_tree (protein_entry "Bacteria; Firmicutes." [class_elem]))
    = Raise TypeError.
Proof.
  split.
  - exact (PfamProtein_outcome (VFloat float_33_1) (VDatetime 2022 2 1)
             (xml_process_tree (protein_entry " " []))).
  - exact (PfamProtein_outcome (VFloat float_33_1) (VDatetime 2022 2 1)
             (xml_process_tree
                (protein_entry "Bacteria; Firmicutes." [class_elem]))).
Defined.

(** A clan with one member, and one with a [<families>] child before its
    members. *)
Lemma PfamClan_families_witness :
  (∃ c, PfamClan (VFloat float_33_1) (VDatetime 2022 2 1)
          (clan_doc_entry [members_elem]) = Ok c
        ∧ getattr c "families"
          = Ok (VList (List.map PfamClanMember
                         (grandchildren "members"
                            (clan_doc_entry [members_elem])))))
  ∧ PfamClan (VFloat float_33_1) (VDatetime 2022 2 1)
      (clan_doc_entry [families_elem; members_elem])
    = Raise AttributeError.
Proof.
  split.
  - apply (proj1 (PfamClan_families (VFloat float_33_1) (VDatetime 2022 2 1)
                    (clan_doc_entry [members_elem])
                    ltac:(vm_compute; repeat (constructor; [reflexivity|]);
                          constructor))).
    vm_compute. repeat (constructor; [discriminate|]). constructor.
  - apply (proj2 (PfamClan_families (VFloat float_33_1) (VDatetime 2022 2 1)
                    (clan_doc_entry [families_elem; members_elem])
                    ltac:(vm_compute; repeat (constructor; [reflexivity|]);
                          constructor))
             [xml_process_tree
                (elem "description" [] (VStr "A synthetic clan") [])]
             (xml_process_tree families_elem)
             [xml_process_tree members_elem]).
    + vm_compute. reflexivity.
    + reflexivity.
    + constructor 1. split; [reflexivity|discriminate].
    + repeat (constructor; [reflexivity|]). constructor.
Defined.

(** Ten seed and twenty full sequences, and counts without the full
    alignment. *)
Lemma PfamCurationDetails_outcome_witness :
  getattr (value_of (PfamCurationDetails curation_elem)) "num_seqs_full"
  = Ok (xml_process_value (VStr "20"))
  ∧ PfamCurationDetails curation_seed_only = Raise AttributeError.
Proof.
  split.
  - destruct (proj2 (PfamCurationDetails_outcome curation_elem)
                (value_of (PfamCurationDetails curation_elem))
                (xml_process_tree
                   (elem "num_seqs" [] VNone
                      [elem "seed" [] (VStr "10") [];
                       elem "full" [] (VStr "20") []])))
      as [_ H].
    + vm_compute. reflexivity.
    + vm_compute. reflexivity.
    + vm_compute. repeat (constructor; [split; discriminate|]). constructor.
    + rewrite H. vm_compute. reflexivity.
  - exact (proj1 (PfamCurationDetails_outcome curation_seed_only)).
Defined.

(** The family response has no GO terms. *)
Lemma PfamFamily_parts_witness :
  getattr (value_of (PfamFamily (VFloat float_33_1) (VDatetime 2022 2 1)
                                family_entry)) "go_terms"
  = Raise AttributeError.
Proof.
  destruct (PfamFamily_parts (VFloat float_33_1) (VDatetime 2022 2 1)
              family_entry
              (value_of (PfamFamily (VFloat float_33_1) (VDatetime 2022 2 1)
                                    family_entry))
              ltac:(vm_compute; reflexivity)) as (_ & _ & H & _).
  rewrite H. vm_compute. reflexivity.
Defined.

(** HMM details with a cutoff that has no [<domain>]. *)
Lemma PfamHmmDetails_outcome_witness :
  PfamHmmDetails hmm_incomplete = Raise AttributeError.
Proof. exact (PfamHmmDetails_outcome hmm_incomplete). Defined.

(** A location with a child tagged [__weakref__]. *)
Lemma PfamLocation_fields_witness :
  PfamLocation (elem "location" [("start", VStr "5")] VNone
                     [elem "__weakref__" [] VNone []])
  = Raise AttributeError.
Proof.
  exact (PfamLocation_fields (elem "location" [("start", VStr "5")] VNone
                                   [elem "__weakref__" [] VNone []])).
Defined.

(** The protein with one match of the family PF00001. *)
Lemma fetch_family_by_type_witness :
  PfamProtein_fetch_family (serve family_body family_doc)
                           (mapped_protein [matches_elem]) initial_state
  = family (serve family_body family_doc) (VStr "PF00001") initial_state.
Proof.
  rewrite (proj2 (fetch_family_by_type (serve family_body family_doc)
                    (VFloat float_33_1) (VDatetime 2022 2 1)
                    (xml_process_tree
                       (protein_entry "Bacteria; Firmicutes." [matches_elem]))
                    (mapped_protein [matches_elem]) initial_state
                    ltac:(vm_compute; reflexivity))).
  vm_compute. reflexivity.
Defined.

(** A first request without [params], to a server of text. *)
Lemma default_params_invariant_witness :
  (request (serve_text families_body) "/families" None VNone VNone
           initial_state).1
  ≠ Ok (inr families_body).
Proof.
  apply (proj2 (proj2 (default_params_invariant (serve_text families_body)))).
  exists ∅. split; [reflexivity|left; reflexivity].
Defined.

(** A number for an accession. *)
Lemma fetch_requires_string_witness :
  family (serve family_body family_doc) (VFloat float_33_1) initial_state
  = (Raise TypeError, initial_state).
Proof.
  apply (fetch_requires_string (serve family_body family_doc)
           (VFloat float_33_1) initial_state).
  reflexivity.
Defined.

(** One clan and a line without tabs. *)
Lemma clans_entries_witness :
  (clans (serve_text clans_body) initial_state).1
  = Ok [PfamEntry (VStr "Clan") (VStr "CLAN1") (VStr "CL0001")
                  (VStr "A synthetic clan")].
Proof.
  destruct (clans_entries (serve_text clans_body) initial_state
              (mkResponse 200 clans_body) eq_refl eq_refl)
    as (entries & H & -> & _).
  rewrite H. vm_compute. reflexivity.
Defined.

(** The line [PF00001 <tab> FAMILY1 <tab> some description]. *)
Lemma listed_entry_fetch_witness :
  ∃ accession,
    hd_error (str_split tab ("PF00001" ++ tab ++ "FAMILY1" ++ tab ++ "some description"))
    = Some accession
    ∧ PfamEntry_fetch (serve family_body family_doc)
        (PfamEntry (VStr "Pfam-A") (VStr "FAMILY1") (VStr "PF00001")
                   (VStr "some description")) initial_state
      = family (serve family_body family_doc) (VStr accession) initial_state.
Proof.
  apply (proj1 (listed_entry_fetch (serve family_body family_doc)
                  ("PF00001" ++ tab ++ "FAMILY1" ++ tab ++ "some description")
                  (PfamEntry (VStr "Pfam-A") (VStr "FAMILY1") (VStr "PF00001")
                             (VStr "some description")) initial_state)).
  vm_compute. reflexivity.
Defined.

(** Two sequences with an empty line between them. *)
Lemma proteins_names_shape_witness :
  ∃ names,
    (proteins (serve_text alignment_body) (VStr "PF00001") initial_state).1
    = Ok names
    ∧ length names = 3%nat.
Proof.
  destruct (proteins_names_shape (serve_text alignment_body) initial_state
              "PF00001" (mkResponse 200 alignment_body) eq_refl eq_refl)
    as (names & H & Hlen & _).
  exists names. split; [exact H|]. rewrite Hlen. vm_compute. reflexivity.
Defined.

(** The family response. *)
Lemma root_fetch_composition_witness :
  ∃ root entry rest release_date,
    fromstring (serve family_body family_doc) (re_sub_xmlns family_body)
    = Some root
    ∧ children (xml_process_tree root) = entry :: rest
    ∧ PfamFamily (Element_get (xml_process_tree root) "release") release_date
                 entry
      = Ok (value_of (family (serve family_body family_doc) (VStr "PF00001")
                             initial_state).1).
Proof.
  destruct (proj1 (root_fetch_composition (serve family_body family_doc)
                     (VStr "PF00001") initial_state
                     (value_of (family (serve family_body family_doc)
                                       (VStr "PF00001") initial_state).1)
                     (family (serve family_body family_doc) (VStr "PF00001")
                             initial_state).2)
              ltac:(vm_compute; reflexivity))
    as (accession & d & response & root & entry & rest & release_date
        & _ & _ & Hget & Hparse & Hch & _ & Hctor).
  injection Hget as <-.
  exists root, entry, rest, release_date. exact (conj Hparse (conj Hch Hctor)).
Defined.

(** A release date written [20220201] reads as a number. *)
Lemma map_root_errors_witness :
  map_root PfamFamily (inl undated_doc) = Raise TypeError.
Proof.
  apply (proj1 (map_root_errors PfamFamily undated_doc)).
  vm_compute. reflexivity.
Defined.
